(** * reorder_elf: moving the program-header table of an ELF32 image to the
      end of the file and merging its LOAD segments

    Shallow embedding of [reorder_elf.py].  A file is a list of bytes, Python
    integers are unbounded and are modelled by [Z]; the [struct] module's
    range and length checks become explicit failures.  Console output is kept
    as a list of messages, the file system as a finite map from paths to
    contents. *)

From stdpp Require Import gmap strings list.
From Stdlib Require Import ZArith Lia.
From Stdlib Require Strings.Byte.
Import Init.Byte.
Local Open Scope Z_scope.

(** ** Python values: exceptions, byte strings, slices *)

Inductive exn : Type :=
  | IndexError
  | ValueError
  | StructError
  | UnboundLocalError
  | FileNotFoundError.

Inductive result (A : Type) : Type :=
  | Ok (a : A)
  | Raise (e : exn).
Arguments Ok {A} a.
Arguments Raise {A} e.

Abbreviation bytes := (list byte).

#[global] Instance byte_eq_dec : EqDecision byte := Byte.byte_eq_dec.

Definition len {A} (l : list A) : Z := Z.of_nat (length l).

Definition byte_val (b : byte) : Z := Z.of_N (Byte.to_N b).

Definition byte_of (z : Z) : byte :=
  default x00 (Byte.of_N (Z.to_N (z mod 256))).

(** [l[start:stop]]: a negative bound counts from the end, and both bounds
    are clamped to the length of the sequence. *)
Definition clamp_index (n i : Z) : Z :=
  if decide (i < 0) then Z.max (i + n) 0 else Z.min i n.

Definition py_slice {A} (l : list A) (start stop : Z) : list A :=
  let lo := clamp_index (len l) start in
  let hi := clamp_index (len l) stop in
  take (Z.to_nat (hi - lo)) (drop (Z.to_nat lo) l).

(** [l[:stop]] and [l[start:]]. *)
Definition py_slice_to {A} (l : list A) (stop : Z) : list A :=
  py_slice l 0 stop.
Definition py_slice_from {A} (l : list A) (start : Z) : list A :=
  py_slice l start (len l).

(** [l[i]], which raises IndexError out of range. *)
Definition py_getitem {A} (l : list A) (i : Z) : result A :=
  let j := if decide (i < 0) then i + len l else i in
  if decide (0 ≤ j) then
    match l !! Z.to_nat j with
    | Some x => Ok x
    | None => Raise IndexError
    end
  else Raise IndexError.

(** ** The [struct] module, little-endian standard sizes *)

Fixpoint le_decode (l : bytes) : Z :=
  match l with
  | [] => 0
  | b :: l' => byte_val b + 256 * le_decode l'
  end.

Fixpoint le_encode (n : nat) (v : Z) : bytes :=
  match n with
  | O => []
  | S n' => byte_of v :: le_encode n' (v / 256)
  end.

(** The two format characters the program uses: ['<I'] and ['<H']. *)
Inductive fmt : Type := fmt_I | fmt_H.

Definition fmt_size (f : fmt) : nat :=
  match f with fmt_I => 4%nat | fmt_H => 2%nat end.

Definition fmt_bound (f : fmt) : Z :=
  match f with fmt_I => 4294967296 | fmt_H => 65536 end.

(** [struct.unpack(f, b)[0]]: the buffer must have exactly the size of the
    format. *)
Definition struct_unpack (f : fmt) (b : bytes) : result Z :=
  if decide (length b = fmt_size f) then Ok (le_decode b)
  else Raise StructError.

(** [struct.pack(f, v)]: the value must fit the format. *)
Definition struct_pack (f : fmt) (v : Z) : result bytes :=
  if decide (0 ≤ v < fmt_bound f) then Ok (le_encode (fmt_size f) v)
  else Raise StructError.

(** [struct.pack_into(f, buf, offset, v)] on a bytearray: the packed value
    overwrites [fmt_size f] bytes in place; a negative offset counts from the
    end; the write must lie inside the buffer. *)
Definition struct_pack_into (f : fmt) (buf : bytes) (offset v : Z)
  : result bytes :=
  match struct_pack f v with
  | Raise e => Raise e
  | Ok packed =>
      let off := if decide (offset < 0) then offset + len buf else offset in
      if decide (0 ≤ off ∧ off + len packed ≤ len buf)
      then Ok (list_inserts (Z.to_nat off) packed buf)
      else Raise StructError
  end.

(** ** Effects: console output, the file system, exceptions *)

(** One constructor per [print] statement of the program, carrying the
    interpolated values. *)
Inductive msg : Type :=
  | MsgNoStorage                      (* Warning: No StorageInfo segment found! *)
  | MsgNoCode                         (* Warning: No code segments found! *)
  | MsgMerging (n : Z)
  | MsgMerged (min_offset min_vaddr merged_filesz merged_memsz : Z)
  | MsgReduced (e_phnum new_phnum : Z)
  | MsgNotElf                         (* Error: Not an ELF file! *)
  | MsgOnly32                         (* Error: Only 32-bit ELF supported *)
  | MsgOnlyLittleEndian               (* Error: Only little-endian supported *)
  | MsgOriginalInfo
  | MsgPhOffset (e_phoff : Z)
  | MsgPhEntSize (e_phentsize : Z)
  | MsgPhNum (e_phnum : Z)
  | MsgShOffset (e_shoff : Z)
  | MsgTotalPhSize (ph_size : Z)
  | MsgUpdatedShOffset (e_shoff new_shoff : Z)
  | MsgNewInfo
  | MsgNewPhOffset (new_phoff : Z)
  | MsgNewPhCount (new_phnum : Z)
  | MsgDevInfoStart (e_phoff : Z)
  | MsgUpdatedLoad (i p_offset new_p_offset : Z)
  | MsgLoadUnchanged (i p_offset : Z)
  | MsgSuccess (output_file : string)
  | MsgFileSize (old_len new_len : Z)
  | MsgUsage
  | MsgComplete
  | MsgFailed.

Abbreviation filesystem := (gmap string (list byte)).

(** A computation reads and writes files, appends to the console and may
    raise: from the file system it yields what it printed, its result and the
    file system it leaves. *)
Definition M (A : Type) : Type :=
  filesystem → list msg * (result A * filesystem).

#[global] Instance M_ret : MRet M := λ A a σ, ([], (Ok a, σ)).

#[global] Instance M_bind : MBind M := λ A B k m σ,
  match m σ with
  | (o1, (Ok a, σ1)) =>
      match k a σ1 with
      | (o2, r) => (o1 ++ o2, r)
      end
  | (o1, (Raise e, σ1)) => (o1, (Raise e, σ1))
  end.

Definition print (x : msg) : M unit := λ σ, ([x], (Ok tt, σ)).

Definition lift {A} (r : result A) : M A := λ σ, ([], (r, σ)).

(** [open(path, 'rb').read()] *)
Definition open_read (path : string) : M bytes := λ σ,
  match σ !! path with
  | Some d => ([], (Ok d, σ))
  | None => ([], (Raise FileNotFoundError, σ))
  end.

(** [open(path, 'wb').write(d)].  The file system is a flat map of paths,
    with neither directories nor permissions: a file can be created at any
    path, so this write always succeeds.  A destination that the operating
    system refuses is outside the model. *)
Definition open_write (path : string) (d : bytes) : M unit := λ σ,
  ([], (Ok tt, <[path := d]> σ)).

(** [for x in l: s = body(x, s)] *)
Fixpoint for_each {A S} (l : list A) (body : A → S → M S) (s : S) : M S :=
  match l with
  | [] => mret s
  | x :: l' => s' ← body x s; for_each l' body s'
  end.

(** [for i in range(n)] *)
Definition for_range {S} (n : Z) (body : Z → S → M S) (s : S) : M S :=
  for_each (seqZ 0 n) body s.

(** What a run prints, and what it returns and leaves on disk. *)
Definition printed {A} (m : M A) (σ : filesystem) : list msg := (m σ).1.
Definition exec {A} (m : M A) (σ : filesystem) : result A * filesystem :=
  (m σ).2.

(** ** merge_load_segments *)

(** The dictionary the program builds for each program header; its keys are
    fixed, so it is a record. *)
Record segment : Type := Segment {
  p_type : Z;
  p_offset : Z;
  p_vaddr : Z;
  p_paddr : Z;
  p_filesz : Z;
  p_memsz : Z;
  p_flags : Z;
  p_align : Z
}.

#[global] Instance segment_eq_dec : EqDecision segment.
Proof. solve_decision. Defined.

Definition PT_LOAD : Z := 1.

(** [min(...)] and [max(...)] over a generator: ValueError when it is empty. *)
Definition py_min (l : list Z) : result Z :=
  match l with
  | [] => Raise ValueError
  | x :: l' => Ok (foldl Z.min x l')
  end.

Definition py_max (l : list Z) : result Z :=
  match l with
  | [] => Raise ValueError
  | x :: l' => Ok (foldl Z.max x l')
  end.

(** [struct.pack('<IIIIIIII', ...)] of one entry. *)
Definition pack_segment (seg : segment) : result bytes :=
  match struct_pack fmt_I (p_type seg), struct_pack fmt_I (p_offset seg),
        struct_pack fmt_I (p_vaddr seg), struct_pack fmt_I (p_paddr seg),
        struct_pack fmt_I (p_filesz seg), struct_pack fmt_I (p_memsz seg),
        struct_pack fmt_I (p_flags seg), struct_pack fmt_I (p_align seg) with
  | Ok b0, Ok b1, Ok b2, Ok b3, Ok b4, Ok b5, Ok b6, Ok b7 =>
      Ok (b0 ++ b1 ++ b2 ++ b3 ++ b4 ++ b5 ++ b6 ++ b7)
  | _, _, _, _, _, _, _, _ => Raise StructError
  end.

(** The first loop: decode entry [i] of the table and append it. *)
Definition parse_entry (ph_data : bytes) (e_phentsize : Z)
    (i : Z) (segments : list segment) : M (list segment) :=
  let offset := i * e_phentsize in
  let ph := py_slice ph_data offset (offset + e_phentsize) in
  p_type ← lift (struct_unpack fmt_I (py_slice ph 0 4));
  p_offset ← lift (struct_unpack fmt_I (py_slice ph 4 8));
  p_vaddr ← lift (struct_unpack fmt_I (py_slice ph 8 12));
  p_paddr ← lift (struct_unpack fmt_I (py_slice ph 12 16));
  p_filesz ← lift (struct_unpack fmt_I (py_slice ph 16 20));
  p_memsz ← lift (struct_unpack fmt_I (py_slice ph 20 24));
  p_flags ← lift (struct_unpack fmt_I (py_slice ph 24 28));
  p_align ← lift (struct_unpack fmt_I (py_slice ph 28 32));
  mret (segments ++
        [Segment p_type p_offset p_vaddr p_paddr p_filesz p_memsz p_flags p_align]).

(** The second loop: the state is [(storage_seg, code_segs)]; a later
    loadable entry with [vaddr == 0] replaces an earlier one. *)
Definition classify_step (st : option segment * list segment) (seg : segment)
  : option segment * list segment :=
  if decide (p_type seg = PT_LOAD) then
    if decide (p_vaddr seg = 0) then (Some seg, st.2)
    else (st.1, st.2 ++ [seg])
  else st.

Definition classify (segments : list segment)
  : option segment * list segment :=
  foldl classify_step (None, []) segments.

(** [merged_flags |= seg['flags']] for every code segment. *)
Definition or_flags (code_segs : list segment) : Z :=
  foldl (λ merged_flags seg, Z.lor merged_flags (p_flags seg)) 0 code_segs.

Definition merge_code (code_segs : list segment) : M segment :=
  if decide (len code_segs > 1) then
    print (MsgMerging (len code_segs));;
    min_offset ← lift (py_min (p_offset <$> code_segs));
    min_vaddr ← lift (py_min (p_vaddr <$> code_segs));
    max_end_file ← lift (py_max ((λ seg, p_offset seg + p_filesz seg) <$> code_segs));
    max_end_mem ← lift (py_max ((λ seg, p_vaddr seg + p_memsz seg) <$> code_segs));
    let merged_filesz := max_end_file - min_offset in
    let merged_memsz := max_end_mem - min_vaddr in
    let merged_flags := or_flags code_segs in
    let merged_code_seg :=
      Segment PT_LOAD min_offset min_vaddr min_vaddr
              merged_filesz merged_memsz merged_flags 4 in
    print (MsgMerged min_offset min_vaddr merged_filesz merged_memsz);;
    mret merged_code_seg
  else
    lift (py_getitem code_segs 0).

Definition merge_load_segments (ph_data : bytes) (e_phentsize e_phnum : Z)
  : M (bytes * Z) :=
  segments ← for_range e_phnum (parse_entry ph_data e_phentsize) [];
  let '(storage_seg, code_segs) := classify segments in
  match storage_seg with
  | None =>
      print MsgNoStorage;;
      mret (ph_data, e_phnum)
  | Some storage_seg =>
      if decide (len code_segs = 0) then
        print MsgNoCode;;
        mret (ph_data, e_phnum)
      else
        merged_code_seg ← merge_code code_segs;
        let new_segments := [storage_seg; merged_code_seg] in
        let new_phnum := len new_segments in
        new_ph_data ← for_each new_segments
          (λ seg new_ph_data,
             ph_entry ← lift (pack_segment seg);
             mret (new_ph_data ++ ph_entry)) [];
        print (MsgReduced e_phnum new_phnum);;
        mret (new_ph_data, new_phnum)
  end.

(** ** reorder_elf *)

Definition ELF_MAGIC : bytes := [x7f; x45; x4c; x46].

(** Body of the loop that adjusts [p_offset] in the relocated table. *)
Definition patch_ph_entry (e_phoff e_phentsize ph_size new_phoff : Z)
    (i : Z) (data_without_ph : bytes) : M bytes :=
  let ph_offset := new_phoff + i * e_phentsize in
  let p_offset_in_ph := 4 in
  p_offset ← lift (struct_unpack fmt_I
    (py_slice data_without_ph (ph_offset + p_offset_in_ph)
                              (ph_offset + p_offset_in_ph + 4)));
  if decide (p_offset > e_phoff) then
    let new_p_offset := p_offset - ph_size in
    data_without_ph ← lift (struct_pack_into fmt_I data_without_ph
                              (ph_offset + p_offset_in_ph) new_p_offset);
    print (MsgUpdatedLoad i p_offset new_p_offset);;
    mret data_without_ph
  else
    print (MsgLoadUnchanged i p_offset);;
    mret data_without_ph.

(** Body of the loop that adjusts [sh_offset] in the section headers. *)
Definition patch_sh_entry (e_phoff e_shentsize ph_size sh_offset : Z)
    (i : Z) (data_without_ph : bytes) : M bytes :=
  let sh_entry_offset := sh_offset + i * e_shentsize in
  let sh_offset_in_sh := 16 in
  sh_data_offset ← lift (struct_unpack fmt_I
    (py_slice data_without_ph (sh_entry_offset + sh_offset_in_sh)
                              (sh_entry_offset + sh_offset_in_sh + 4)));
  if decide (sh_data_offset > e_phoff ∧ sh_data_offset < 4294967295) then
    let new_sh_data_offset := sh_data_offset - ph_size in
    lift (struct_pack_into fmt_I data_without_ph
            (sh_entry_offset + sh_offset_in_sh) new_sh_data_offset)
  else
    mret data_without_ph.

(** [new_shoff] is bound only inside the first [if e_shoff > e_phoff]; it is
    carried as an option, and the second [if], with the same condition,
    reads it. *)
Definition reorder_elf (input_file output_file : string) : M bool :=
  data ← open_read input_file;
  if decide (py_slice data 0 4 ≠ ELF_MAGIC) then
    print MsgNotElf;;
    mret false
  else
  ei_class ← lift (py_getitem data 4);
  ei_data ← lift (py_getitem data 5);
  if decide (byte_val ei_class ≠ 1) then
    print MsgOnly32;;
    mret false
  else
  if decide (byte_val ei_data ≠ 1) then
    print MsgOnlyLittleEndian;;
    mret false
  else
  let e_phoff_offset := 28 in
  let e_shoff_offset := 32 in
  let e_phentsize_offset := 42 in
  let e_phnum_offset := 44 in
  let e_shentsize_offset := 46 in
  let e_shnum_offset := 48 in
  e_phoff ← lift (struct_unpack fmt_I
               (py_slice data e_phoff_offset (e_phoff_offset + 4)));
  e_shoff ← lift (struct_unpack fmt_I
               (py_slice data e_shoff_offset (e_shoff_offset + 4)));
  e_phentsize ← lift (struct_unpack fmt_H
               (py_slice data e_phentsize_offset (e_phentsize_offset + 2)));
  e_phnum ← lift (struct_unpack fmt_H
               (py_slice data e_phnum_offset (e_phnum_offset + 2)));
  e_shentsize ← lift (struct_unpack fmt_H
               (py_slice data e_shentsize_offset (e_shentsize_offset + 2)));
  e_shnum ← lift (struct_unpack fmt_H
               (py_slice data e_shnum_offset (e_shnum_offset + 2)));
  print MsgOriginalInfo;;
  print (MsgPhOffset e_phoff);;
  print (MsgPhEntSize e_phentsize);;
  print (MsgPhNum e_phnum);;
  print (MsgShOffset e_shoff);;
  let ph_size := e_phentsize * e_phnum in
  print (MsgTotalPhSize ph_size);;
  let ph_data := py_slice data e_phoff (e_phoff + ph_size) in
  '(merged_ph_data, new_phnum) ←
      merge_load_segments ph_data e_phentsize e_phnum;
  let new_ph_size := e_phentsize * new_phnum in
  let data_without_ph :=
    py_slice_to data e_phoff ++ py_slice_from data (e_phoff + ph_size) in
  let new_phoff := len data_without_ph in
  let data_without_ph := data_without_ph ++ merged_ph_data in
  data_without_ph ← lift (struct_pack_into fmt_I data_without_ph
                            e_phoff_offset new_phoff);
  data_without_ph ← lift (struct_pack_into fmt_H data_without_ph
                            e_phnum_offset new_phnum);
  '(data_without_ph, new_shoff) ←
      (if decide (e_shoff > e_phoff) then
         let new_shoff := e_shoff - ph_size in
         data_without_ph ← lift (struct_pack_into fmt_I data_without_ph
                                   e_shoff_offset new_shoff);
         print (MsgUpdatedShOffset e_shoff new_shoff);;
         mret (data_without_ph, Some new_shoff)
       else mret (data_without_ph, None));
  print MsgNewInfo;;
  print (MsgNewPhOffset new_phoff);;
  print (MsgNewPhCount new_phnum);;
  print (MsgDevInfoStart e_phoff);;
  data_without_ph ← for_range new_phnum
      (patch_ph_entry e_phoff e_phentsize ph_size new_phoff) data_without_ph;
  data_without_ph ←
      (if decide (e_shoff > e_phoff) then
         sh_offset ← lift (match new_shoff with
                           | Some v => Ok v
                           | None => Raise UnboundLocalError
                           end);
         for_range e_shnum
           (patch_sh_entry e_phoff e_shentsize ph_size sh_offset)
           data_without_ph
       else mret data_without_ph);
  open_write output_file data_without_ph;;
  print (MsgSuccess output_file);;
  print (MsgFileSize (len data) (len data_without_ph));;
  mret true.

(** ** The command line *)

(** The script body: the exit status of the process.  [sys.exit(1)] ends the
    run with status 1; so does an exception that nobody catches. *)
Definition main (argv : list string) : M Z :=
  if decide (len argv ≠ 3) then
    print MsgUsage;;
    mret 1
  else
    input_file ← lift (py_getitem argv 1);
    output_file ← lift (py_getitem argv 2);
    ok ← reorder_elf input_file output_file;
    if ok : bool then
      print MsgComplete;;
      mret 0
    else
      print MsgFailed;;
      mret 1.

Definition exit_status (r : result Z) : Z :=
  match r with
  | Ok status => status
  | Raise _ => 1
  end.

(** ** Runs and the file system *)

(** A computation that leaves the file system as it found it: [Q] holds of
    what it returns, [E] of what it raises. *)
Definition pure_run {A} (E : exn → Prop) (Q : A → Prop) (m : M A) : Prop :=
  ∀ σ, match exec m σ with
       | (Ok a, σ') => σ' = σ ∧ Q a
       | (Raise e, σ') => σ' = σ ∧ E e
       end.

(** A computation that writes at most [output_file], and only when it
    returns [True]. *)
Definition run_outcome (output_file : string) (E : exn → Prop) (m : M bool)
  : Prop :=
  ∀ σ, match exec m σ with
       | (Ok true, σ') => ∃ out, σ' = <[output_file := out]> σ
       | (Ok false, σ') => σ' = σ
       | (Raise e, σ') => σ' = σ ∧ E e
       end.

(** What [reorder_elf] can raise once the input has been read. *)
Definition raised_on (d : bytes) (e : exn) : Prop :=
  (e = IndexError ∧ len d < 6) ∨ e = StructError.

(** ** Vocabulary of the specification *)

(** Reading a little-endian field of a buffer, and overwriting a run of
    bytes in place. *)
Definition get32 (b : bytes) (pos : Z) : Z := le_decode (py_slice b pos (pos + 4)).
Definition get16 (b : bytes) (pos : Z) : Z := le_decode (py_slice b pos (pos + 2)).
Definition poke (b : bytes) (pos : Z) (bs : bytes) : bytes :=
  list_inserts (Z.to_nat pos) bs b.

(** The fields of the ELF32 file header the program reads. *)
Definition e_phoff_of (d : bytes) : Z := get32 d 28.
Definition e_shoff_of (d : bytes) : Z := get32 d 32.
Definition e_phentsize_of (d : bytes) : Z := get16 d 42.
Definition e_phnum_of (d : bytes) : Z := get16 d 44.
Definition e_shentsize_of (d : bytes) : Z := get16 d 46.
Definition e_shnum_of (d : bytes) : Z := get16 d 48.
Definition ph_size_of (d : bytes) : Z := e_phentsize_of d * e_phnum_of d.

(** The program-header entry stored at [pos], and the table the header
    announces. *)
Definition entry_at (b : bytes) (pos : Z) : segment :=
  Segment (get32 b pos) (get32 b (pos + 4)) (get32 b (pos + 8))
          (get32 b (pos + 12)) (get32 b (pos + 16)) (get32 b (pos + 20))
          (get32 b (pos + 24)) (get32 b (pos + 28)).

Definition ph_table (d : bytes) : list segment :=
  (λ i, entry_at d (e_phoff_of d + i * e_phentsize_of d)) <$> seqZ 0 (e_phnum_of d).

(** The data-offset field of section header [i]. *)
Definition sh_offset_at (d : bytes) (i : Z) : Z :=
  get32 d (e_shoff_of d + i * e_shentsize_of d + 16).

Definition sh_offsets (d : bytes) : list Z :=
  sh_offset_at d <$> seqZ 0 (e_shnum_of d).

(** Segment roles: Storage is a loadable entry at virtual address 0, Code is
    any other loadable entry. *)
Definition is_storage (s : segment) : Prop := p_type s = PT_LOAD ∧ p_vaddr s = 0.
Definition is_code (s : segment) : Prop := p_type s = PT_LOAD ∧ p_vaddr s ≠ 0.

#[global] Instance is_storage_dec s : Decision (is_storage s).
Proof. unfold is_storage. apply _. Defined.
#[global] Instance is_code_dec s : Decision (is_code s).
Proof. unfold is_code. apply _. Defined.

Definition storage_entries (d : bytes) : list segment := filter is_storage (ph_table d).
Definition code_entries (d : bytes) : list segment := filter is_code (ph_table d).

(** An absolute file offset after the table of [ph_size] bytes at [e_phoff]
    has been cut out. *)
Definition relocate (e_phoff ph_size v : Z) : Z :=
  if decide (v > e_phoff) then v - ph_size else v.

Definition relocate_seg (e_phoff ph_size : Z) (s : segment) : segment :=
  Segment (p_type s) (relocate e_phoff ph_size (p_offset s)) (p_vaddr s)
          (p_paddr s) (p_filesz s) (p_memsz s) (p_flags s) (p_align s).

(** The same for a section: the all-ones value means that the section has
    no data in the file. *)
Definition relocate_sh (e_phoff ph_size v : Z) : Z :=
  if decide (v > e_phoff ∧ v < 4294967295) then v - ph_size else v.

Definition fits32 (v : Z) : Prop := 0 ≤ v < 4294967296.

(** An offset that does not point into the table that is cut out, nor past
    the end of the file. *)
Definition offset_ok (d : bytes) (v : Z) : Prop :=
  v ≤ e_phoff_of d ∨ (e_phoff_of d + ph_size_of d ≤ v ∧ v ≤ len d).

#[global] Instance offset_ok_dec d v : Decision (offset_ok d v).
Proof. unfold offset_ok. apply _. Defined.

(** The section table, when it lies behind the program-header table: it is
    inside the file, each entry is wide enough to hold the data-offset field,
    and no data offset points into the program-header table. *)
Definition sections_ok (d : bytes) : Prop :=
  e_shoff_of d > e_phoff_of d →
    e_phoff_of d + ph_size_of d ≤ e_shoff_of d ∧
    20 ≤ e_shentsize_of d ∧
    e_shoff_of d + e_shnum_of d * e_shentsize_of d ≤ len d ∧
    Forall (λ v, v ≤ e_phoff_of d ∨ e_phoff_of d + ph_size_of d ≤ v) (sh_offsets d).

#[global] Instance sections_ok_dec d : Decision (sections_ok d).
Proof. unfold sections_ok. apply _. Defined.

(** A structurally sound ELF32 little-endian image: the file holds its
    header and the tables the header announces, and program headers are 32
    bytes wide. *)
Record well_formed (d : bytes) : Prop := WellFormed {
  wf_len : 52 ≤ len d < 4294967296;
  wf_magic : py_slice d 0 4 = ELF_MAGIC;
  wf_class : d !! 4%nat = Some x01;
  wf_data : d !! 5%nat = Some x01;
  wf_phentsize : e_phentsize_of d = 32;
  wf_phoff : 52 ≤ e_phoff_of d;
  wf_table : e_phoff_of d + ph_size_of d ≤ len d;
  wf_sections : sections_ok d
}.

#[global] Instance well_formed_dec d : Decision (well_formed d).
Proof.
  destruct (decide ((52 ≤ len d < 4294967296) ∧ py_slice d 0 4 = ELF_MAGIC ∧
                    d !! 4%nat = Some x01 ∧ d !! 5%nat = Some x01 ∧
                    e_phentsize_of d = 32 ∧ 52 ≤ e_phoff_of d ∧
                    e_phoff_of d + ph_size_of d ≤ len d ∧ sections_ok d))
    as [H|H].
  - left. destruct H as (? & ? & ? & ? & ? & ? & ? & ?). by constructor.
  - right. intros [? ? ? ? ? ? ? ?]. apply H.
    repeat (split; [assumption|]). assumption.
Defined.

Definition offsets_ok (d : bytes) (segs : list segment) : Prop :=
  Forall (λ s, offset_ok d (p_offset s)) segs.

#[global] Instance offsets_ok_dec d segs : Decision (offsets_ok d segs).
Proof. unfold offsets_ok. apply _. Defined.

(** The file range of an entry ends below 2^32 and its memory range does
    not reach past the top of the 32-bit address space. *)
Definition span_ok (s : segment) : Prop :=
  fits32 (p_offset s + p_filesz s) ∧ p_vaddr s + p_memsz s ≤ 4294967296.

#[global] Instance span_ok_dec s : Decision (span_ok s).
Proof. unfold span_ok, fits32. apply _. Defined.

(** A valid input of the transform: a well-formed image with exactly one
    Storage entry [st] and at least one Code entry; the file offsets of the
    loadable entries are sound and the code ranges fit in 32 bits.  Nothing
    is asked of the entries that are not loadable. *)
Record valid_input (d : bytes) (st : segment) : Prop := ValidInput {
  vi_wf : well_formed d;
  vi_storage : storage_entries d = [st];
  vi_code : code_entries d ≠ [];
  vi_offsets : offsets_ok d (st :: code_entries d);
  vi_spans : Forall span_ok (code_entries d)
}.

#[global] Instance valid_input_dec d st : Decision (valid_input d st).
Proof.
  destruct (decide (well_formed d ∧ storage_entries d = [st] ∧
                    code_entries d ≠ [] ∧ offsets_ok d (st :: code_entries d) ∧
                    Forall span_ok (code_entries d))) as [H|H].
  - left. destruct H as (? & ? & ? & ? & ?). by constructor.
  - right. intros [? ? ? ? ?]. apply H.
    repeat (split; [assumption|]). assumption.
Defined.

(** The entries decoded from a table of [n] entries of [e] bytes. *)
Definition parse_table (ph_data : bytes) (e n : Z) : list segment :=
  (λ i, entry_at ph_data (i * e)) <$> seqZ 0 n.

Definition seg_fits (s : segment) : Prop :=
  fits32 (p_type s) ∧ fits32 (p_offset s) ∧ fits32 (p_vaddr s) ∧
  fits32 (p_paddr s) ∧ fits32 (p_filesz s) ∧ fits32 (p_memsz s) ∧
  fits32 (p_flags s) ∧ fits32 (p_align s).

(** Minimum and maximum of a list, as the specification words them. *)
Definition is_min_of (m : Z) (l : list Z) : Prop := m ∈ l ∧ ∀ x, x ∈ l → m ≤ x.
Definition is_max_of (m : Z) (l : list Z) : Prop := m ∈ l ∧ ∀ x, x ∈ l → x ≤ m.

(** The 32 bytes of a program-header entry. *)
Definition seg_bytes (s : segment) : bytes :=
  le_encode 4 (p_type s) ++ le_encode 4 (p_offset s) ++
  le_encode 4 (p_vaddr s) ++ le_encode 4 (p_paddr s) ++
  le_encode 4 (p_filesz s) ++ le_encode 4 (p_memsz s) ++
  le_encode 4 (p_flags s) ++ le_encode 4 (p_align s).

(** ** The transform without its failure paths

    What the two patch loops and the whole rewrite compute when nothing
    raises; the lemmas below show that on well-formed images the program
    computes exactly this. *)

Definition patch_field (cond : Z → Prop) `{!∀ v, Decision (cond v)}
    (delta : Z) (b : bytes) (pos : Z) : bytes :=
  let v := get32 b pos in
  if decide (cond v) then poke b pos (le_encode 4 (v - delta)) else b.

Definition patch_fields (cond : Z → Prop) `{!∀ v, Decision (cond v)}
    (delta base stride foff n : Z) (b : bytes) : bytes :=
  foldl (λ b i, patch_field cond delta b (base + i * stride + foff)) b (seqZ 0 n).

(** Position of field [foff] of entry [i] in a table at [base] whose
    entries are [stride] bytes apart. *)
Definition field_pos (base stride foff i : Z) : Z := base + i * stride + foff.

(** The value a patch loop leaves in a field that held [v]. *)
Definition patched (cond : Z → Prop) `{!∀ v, Decision (cond v)}
    (delta v : Z) : Z :=
  if decide (cond v) then v - delta else v.

(** Field [i] can be patched in [b]: it lies inside the buffer and its new
    value is not negative. *)
Definition patchable (cond : Z → Prop) (delta base stride foff : Z)
    (b : bytes) (i : Z) : Prop :=
  field_pos base stride foff i + 4 ≤ len b ∧
  (cond (get32 b (field_pos base stride foff i)) →
   delta ≤ get32 b (field_pos base stride foff i)).

(** The three stages of the rewrite: the table is cut out, the new one is
    appended and the file header is patched; the offsets in the new table
    are patched; the offsets in the section headers are patched. *)
Definition rebuild_header (d table : bytes) (new_phnum : Z) : bytes :=
  let e_phoff := e_phoff_of d in
  let e_shoff := e_shoff_of d in
  let ph_size := ph_size_of d in
  let body := py_slice_to d e_phoff ++ py_slice_from d (e_phoff + ph_size) in
  let new_phoff := len body in
  let b := body ++ table in
  let b := poke b 28 (le_encode 4 new_phoff) in
  let b := poke b 44 (le_encode 2 new_phnum) in
  if decide (e_shoff > e_phoff)
  then poke b 32 (le_encode 4 (e_shoff - ph_size)) else b.

Definition rebuild_table (d table : bytes) (new_phnum : Z) : bytes :=
  let e_phoff := e_phoff_of d in
  let ph_size := ph_size_of d in
  let body := py_slice_to d e_phoff ++ py_slice_from d (e_phoff + ph_size) in
  patch_fields (λ v, v > e_phoff) ph_size
    (len body) (e_phentsize_of d) 4 new_phnum (rebuild_header d table new_phnum).

Definition rebuild (d table : bytes) (new_phnum : Z) : bytes :=
  let e_phoff := e_phoff_of d in
  let e_shoff := e_shoff_of d in
  let ph_size := ph_size_of d in
  if decide (e_shoff > e_phoff) then
    patch_fields (λ v, v > e_phoff ∧ v < 4294967295) ph_size
      (e_shoff - ph_size) (e_shentsize_of d) 16 (e_shnum_of d)
      (rebuild_table d table new_phnum)
  else rebuild_table d table new_phnum.

(** What [merge_code] returns on a non-empty list. *)
Definition merged_code_seg (code_segs : list segment) : segment :=
  match code_segs with
  | [] => Segment 0 0 0 0 0 0 0 0
  | [seg] => seg
  | seg :: rest =>
      let min_offset := foldl Z.min (p_offset seg) (p_offset <$> rest) in
      let min_vaddr := foldl Z.min (p_vaddr seg) (p_vaddr <$> rest) in
      let max_end_file := foldl Z.max (p_offset seg + p_filesz seg)
                            ((λ s, p_offset s + p_filesz s) <$> rest) in
      let max_end_mem := foldl Z.max (p_vaddr seg + p_memsz seg)
                            ((λ s, p_vaddr s + p_memsz s) <$> rest) in
      Segment PT_LOAD min_offset min_vaddr min_vaddr
              (max_end_file - min_offset) (max_end_mem - min_vaddr)
              (or_flags code_segs) 4
  end.

(** The table the program appends for a valid input, and the original one. *)
Definition new_table (d : bytes) (st : segment) : bytes :=
  seg_bytes st ++ seg_bytes (merged_code_seg (code_entries d)).

Definition old_table (d : bytes) : bytes :=
  py_slice d (e_phoff_of d) (e_phoff_of d + ph_size_of d).

(** ** Sample images *)

(** An ELF32 file header with the given identification bytes and table
    fields; every other field is zero. *)
Definition elf_header (ei_class ei_data : byte)
    (e_phoff e_shoff e_phentsize e_phnum e_shentsize e_shnum : Z) : bytes :=
  ELF_MAGIC ++ [ei_class; ei_data] ++ replicate 22 x00 ++
  le_encode 4 e_phoff ++ le_encode 4 e_shoff ++ replicate 6 x00 ++
  le_encode 2 e_phentsize ++ le_encode 2 e_phnum ++
  le_encode 2 e_shentsize ++ le_encode 2 e_shnum ++ replicate 2 x00.

(** A 40-byte section header with the given data offset. *)
Definition section_header (sh_offset : Z) : bytes :=
  replicate 16 x00 ++ le_encode 4 sh_offset ++ replicate 20 x00.

Definition sample_storage : segment := Segment 1 148 0 0 4 4 4 4.
Definition sample_code1 : segment := Segment 1 152 4096 8192 4 4 5 16.
Definition sample_code2 : segment := Segment 1 156 4608 4608 4 8 2 8.
Definition sample_note : segment := Segment 4 0 0 0 0 0 4 4.

(** Header, three loadable entries (Storage and two Code), their data, and
    two section headers behind the data. *)
Definition sample_image : bytes :=
  elf_header x01 x01 52 160 32 3 40 2 ++
  seg_bytes sample_storage ++ seg_bytes sample_code1 ++ seg_bytes sample_code2 ++
  [x11; x11; x11; x11] ++ [x22; x22; x22; x22] ++ [x33; x33; x33; x33] ++
  section_header 0 ++ section_header 152.

(** Storage, one entry that is not loadable, and a single Code entry whose
    physical address and alignment differ from the merge rule's. *)
Definition single_code_image : bytes :=
  elf_header x01 x01 52 156 32 3 40 1 ++
  seg_bytes sample_storage ++ seg_bytes sample_note ++ seg_bytes sample_code1 ++
  [x11; x11; x11; x11] ++ [x22; x22; x22; x22] ++
  section_header 152.

(** No loadable entry at virtual address 0: a note and two Code entries. *)
Definition no_storage_image : bytes :=
  elf_header x01 x01 52 160 32 3 40 2 ++
  seg_bytes sample_note ++ seg_bytes sample_code1 ++ seg_bytes sample_code2 ++
  [x11; x11; x11; x11] ++ [x22; x22; x22; x22] ++ [x33; x33; x33; x33] ++
  section_header 0 ++ section_header 152.

(** The section table (one entry) lies in front of the program-header
    table. *)
Definition sections_first_image : bytes :=
  elf_header x01 x01 92 52 32 2 40 1 ++
  section_header 160 ++
  seg_bytes (Segment 1 156 0 0 4 4 4 4) ++
  seg_bytes (Segment 1 160 4096 4096 4 4 5 4) ++
  [x11; x11; x11; x11] ++ [x22; x22; x22; x22].

(** The scenario of the specification: phoff = 0x34, three entries of 32
    bytes; Storage at offset 0x94 with 0x40 bytes, Code at 0x200 with 0x100
    bytes for vaddr 0x1000, Code at 0x400 with 0x200 bytes for vaddr 0x1200;
    no section table.  The file is 0x600 bytes long. *)
Definition scenario_storage : segment := Segment 1 148 0 0 64 64 4 4.
Definition scenario_code1 : segment := Segment 1 512 4096 4096 256 256 5 4.
Definition scenario_code2 : segment := Segment 1 1024 4608 4608 512 512 6 4.

Definition scenario_image : bytes :=
  elf_header x01 x01 52 0 32 3 40 0 ++
  seg_bytes scenario_storage ++ seg_bytes scenario_code1 ++ seg_bytes scenario_code2 ++
  replicate 1388 x00.

(** The signature and a class byte, nothing else; and the six
    identification bytes alone. *)
Definition five_byte_image : bytes := ELF_MAGIC ++ [x02].

(** An image whose header announces one program header of 16 bytes. *)
Definition narrow_entries_image : bytes :=
  elf_header x01 x01 52 0 16 1 40 0 ++ replicate 16 x00.

(** Two loadable entries at virtual address 0 in front of a Code entry. *)
Definition two_storage_image : bytes :=
  elf_header x01 x01 52 0 32 3 40 0 ++
  seg_bytes sample_storage ++ seg_bytes (Segment 1 152 0 0 4 4 6 4) ++
  seg_bytes sample_code2 ++
  [x11; x11; x11; x11] ++ [x22; x22; x22; x22] ++ [x33; x33; x33; x33].

(** The Storage entry announces its data at offset 60, inside the table of
    three entries that starts at 52. *)
Definition offset_in_table_image : bytes :=
  elf_header x01 x01 52 0 32 3 40 0 ++
  seg_bytes (Segment 1 60 0 0 4 4 4 4) ++
  seg_bytes sample_code1 ++ seg_bytes sample_code2 ++
  [x11; x11; x11; x11] ++ [x22; x22; x22; x22] ++ [x33; x33; x33; x33].

(** A header that announces no program header, four bytes of data and one
    section header. *)
Definition empty_table_image : bytes :=
  elf_header x01 x01 52 56 32 0 40 1 ++ [x11; x11; x11; x11] ++
  section_header 53.

Definition sample_fs (d : bytes) : filesystem := {[ "in.elf" := d ]}.

(** * Proofs *)

(** ** Bytes and little-endian numbers *)

Lemma byte_val_bounds b : 0 ≤ byte_val b < 256.
Proof.
  unfold byte_val. pose proof (Byte.to_N_bounded b). lia.
Qed.

Lemma byte_of_val b : byte_of (byte_val b) = b.
Proof.
  unfold byte_of. pose proof (byte_val_bounds b) as Hb.
  rewrite Z.mod_small by done. unfold byte_val.
  by rewrite N2Z.id, Byte.of_to_N.
Qed.

Lemma byte_val_of z : byte_val (byte_of z) = z mod 256.
Proof.
  unfold byte_of, byte_val.
  pose proof (Z.mod_pos_bound z 256 ltac:(lia)) as Hm.
  destruct (Byte.of_N (Z.to_N (z mod 256))) as [b|] eqn:E.
  - simpl. apply Byte.to_of_N in E. rewrite E. lia.
  - apply Byte.of_N_None_iff in E. lia.
Qed.

Lemma length_le_encode n v : length (le_encode n v) = n.
Proof. revert v. induction n as [|n IH]; intros v; simpl; [done|]. by rewrite IH. Qed.

Lemma le_decode_bounds l : 0 ≤ le_decode l < 256 ^ len l.
Proof.
  unfold len. induction l as [|b l IH]; simpl le_decode.
  - simpl. lia.
  - rewrite length_cons, Nat2Z.inj_succ, Z.pow_succ_r by lia.
    pose proof (byte_val_bounds b). lia.
Qed.

Lemma le_decode_encode n v : le_decode (le_encode n v) = v mod 256 ^ Z.of_nat n.
Proof.
  revert v. induction n as [|n IH]; intros v.
  - simpl. by rewrite Z.mod_1_r.
  - cbn [le_encode le_decode]. rewrite IH, byte_val_of.
    rewrite Nat2Z.inj_succ, Z.pow_succ_r by lia.
    rewrite Z.rem_mul_r by lia. lia.
Qed.

Lemma byte_of_add_mul a k : byte_of (a + 256 * k) = byte_of a.
Proof.
  unfold byte_of. by rewrite (Z.mul_comm 256 k), Z_mod_plus_full.
Qed.

Lemma le_encode_decode l : le_encode (length l) (le_decode l) = l.
Proof.
  induction l as [|b l IH]; [done|].
  cbn [length le_encode le_decode].
  pose proof (byte_val_bounds b) as Hb. f_equal.
  - by rewrite byte_of_add_mul, byte_of_val.
  - replace ((byte_val b + 256 * le_decode l) / 256) with (le_decode l); [done|].
    apply (Z.div_unique _ 256 _ (byte_val b)); lia.
Qed.

(** ** Slices *)

Section slices.
Context {A : Type}.
Implicit Types l : list A.

Lemma py_slice_nonneg l a c :
  0 ≤ a → 0 ≤ c →
  py_slice l a c = take (Z.to_nat (c - a)) (drop (Z.to_nat a) l).
Proof.
  intros Ha Hc. unfold py_slice, clamp_index.
  rewrite !decide_False by lia.
  pose proof (Nat2Z.is_nonneg (length l)) as Hn. fold (len l) in Hn.
  assert (length l = Z.to_nat (len l)) as Hlen by (unfold len; lia).
  apply list_eq. intros k.
  destruct (decide (k < Z.to_nat (c - a))%nat) as [Hk|Hk].
  - rewrite (lookup_take_lt _ (Z.to_nat (c - a))) by done.
    destruct (decide (k < Z.to_nat (Z.min c (len l) - Z.min a (len l)))%nat).
    + rewrite lookup_take_lt by done. rewrite !lookup_drop. f_equal. lia.
    + rewrite lookup_take_ge by lia. symmetry. rewrite lookup_drop.
      apply lookup_ge_None. lia.
  - rewrite !lookup_take_ge; [done|lia|lia].
Qed.

Lemma py_slice_lookup l a c (k : nat) :
  0 ≤ a → 0 ≤ c →
  py_slice l a c !! k =
    if decide (Z.of_nat k < c - a) then l !! (Z.to_nat a + k)%nat else None.
Proof.
  intros Ha Hc. rewrite py_slice_nonneg by done.
  case_decide.
  - rewrite lookup_take_lt by lia. by rewrite lookup_drop.
  - by rewrite lookup_take_ge by lia.
Qed.

Lemma len_py_slice l a c :
  0 ≤ a → a ≤ c → c ≤ len l → len (py_slice l a c) = c - a.
Proof.
  intros Ha Hac Hc. rewrite py_slice_nonneg by lia. unfold len in *.
  rewrite length_take, length_drop. lia.
Qed.

Lemma py_slice_to_take l p : 0 ≤ p → py_slice_to l p = take (Z.to_nat p) l.
Proof.
  intros Hp. unfold py_slice_to. rewrite py_slice_nonneg by lia.
  rewrite drop_0. f_equal. lia.
Qed.

Lemma py_slice_from_drop l p : 0 ≤ p → py_slice_from l p = drop (Z.to_nat p) l.
Proof.
  intros Hp. unfold py_slice_from. rewrite py_slice_nonneg by (unfold len; lia).
  apply take_ge. rewrite length_drop. unfold len. lia.
Qed.

(** A slice only depends on the elements it covers. *)
Lemma py_slice_ext l1 l2 a c :
  0 ≤ a → 0 ≤ c →
  (∀ k : nat, a ≤ Z.of_nat k < c → l1 !! k = l2 !! k) →
  py_slice l1 a c = py_slice l2 a c.
Proof.
  intros Ha Hc Hext. apply list_eq. intros k.
  rewrite !py_slice_lookup by done. case_decide; [|done].
  apply Hext. lia.
Qed.

Lemma py_slice_app_l l1 l2 a c :
  0 ≤ a → 0 ≤ c → c ≤ len l1 →
  py_slice (l1 ++ l2) a c = py_slice l1 a c.
Proof.
  intros Ha Hc Hlen. apply py_slice_ext; [done..|].
  intros k Hk. apply lookup_app_l. unfold len in Hlen. lia.
Qed.

Lemma py_slice_app_r l1 l2 a c :
  0 ≤ a → 0 ≤ c →
  py_slice (l1 ++ l2) (len l1 + a) (len l1 + c) = py_slice l2 a c.
Proof.
  intros Ha Hc. unfold len. apply list_eq. intros k.
  rewrite !py_slice_lookup by lia.
  repeat case_decide; try lia; [|done].
  rewrite lookup_app_r by lia. f_equal. lia.
Qed.

Lemma py_slice_py_slice l a c x y :
  0 ≤ a → 0 ≤ x → 0 ≤ y → a + y ≤ c →
  py_slice (py_slice l a c) x y = py_slice l (a + x) (a + y).
Proof.
  intros Ha Hx Hy Hc. apply list_eq. intros k.
  rewrite !py_slice_lookup by lia.
  repeat case_decide; try lia; [|done].
  f_equal. lia.
Qed.

Lemma py_slice_full l : py_slice l 0 (len l) = l.
Proof.
  rewrite py_slice_nonneg by (unfold len; lia). rewrite drop_0.
  apply take_ge. unfold len. lia.
Qed.
End slices.

Lemma len_app {A} (l1 l2 : list A) : len (l1 ++ l2) = len l1 + len l2.
Proof. unfold len. rewrite length_app. lia. Qed.

Lemma len_nonneg {A} (l : list A) : 0 ≤ len l.
Proof. unfold len. lia. Qed.

Lemma len_le_encode n v : len (le_encode n v) = Z.of_nat n.
Proof. unfold len. by rewrite length_le_encode. Qed.

(** *** Overwriting bytes in place *)

Lemma len_poke b pos bs : len (poke b pos bs) = len b.
Proof. unfold len, poke. by rewrite length_inserts. Qed.

Lemma poke_lookup_other b pos bs (k : nat) :
  0 ≤ pos → (Z.of_nat k < pos ∨ pos + len bs ≤ Z.of_nat k) →
  poke b pos bs !! k = b !! k.
Proof.
  intros Hpos [Hk|Hk]; unfold poke, len in *.
  - apply list_lookup_inserts_lt. lia.
  - apply list_lookup_inserts_ge. lia.
Qed.

Lemma poke_lookup_in b pos bs (k : nat) :
  0 ≤ pos → pos + len bs ≤ len b → pos ≤ Z.of_nat k < pos + len bs →
  poke b pos bs !! k = bs !! (k - Z.to_nat pos)%nat.
Proof.
  intros Hpos Hin Hk. unfold poke, len in *.
  apply list_lookup_inserts; lia.
Qed.

Lemma py_slice_poke_other b pos bs a c :
  0 ≤ pos → 0 ≤ a → 0 ≤ c → (c ≤ pos ∨ pos + len bs ≤ a) →
  py_slice (poke b pos bs) a c = py_slice b a c.
Proof.
  intros Hpos Ha Hc Hdisj. apply py_slice_ext; [done..|].
  intros k Hk. apply poke_lookup_other; [done|lia].
Qed.

Lemma py_slice_poke_same b pos bs :
  0 ≤ pos → pos + len bs ≤ len b →
  py_slice (poke b pos bs) pos (pos + len bs) = bs.
Proof.
  intros Hpos Hin. apply list_eq. intros k.
  pose proof (len_nonneg bs).
  rewrite py_slice_lookup by lia. case_decide.
  - rewrite poke_lookup_in by lia. f_equal. lia.
  - symmetry. apply lookup_ge_None. unfold len in *. lia.
Qed.

(** ** Fields, [struct] and runs *)

(** *** Fields *)

Lemma get32_bounds b pos : fits32 (get32 b pos).
Proof.
  unfold fits32, get32.
  pose proof (le_decode_bounds (py_slice b pos (pos + 4))) as Hb.
  assert (len (py_slice b pos (pos + 4)) ≤ 4) as Hl.
  { unfold py_slice, len. rewrite length_take. unfold clamp_index.
    repeat case_decide; lia. }
  pose proof (len_nonneg (py_slice b pos (pos + 4))).
  assert (256 ^ len (py_slice b pos (pos + 4)) ≤ 256 ^ 4)
    by (apply Z.pow_le_mono_r; lia).
  lia.
Qed.

Lemma get16_bounds b pos : 0 ≤ get16 b pos < 65536.
Proof.
  unfold get16.
  pose proof (le_decode_bounds (py_slice b pos (pos + 2))) as Hb.
  assert (len (py_slice b pos (pos + 2)) ≤ 2) as Hl.
  { unfold py_slice, len. rewrite length_take. unfold clamp_index.
    repeat case_decide; lia. }
  pose proof (len_nonneg (py_slice b pos (pos + 2))).
  assert (256 ^ len (py_slice b pos (pos + 2)) ≤ 256 ^ 2)
    by (apply Z.pow_le_mono_r; lia).
  lia.
Qed.

Lemma unpack_I_get32 b pos :
  0 ≤ pos → pos + 4 ≤ len b →
  struct_unpack fmt_I (py_slice b pos (pos + 4)) = Ok (get32 b pos).
Proof.
  intros Hpos Hin. unfold struct_unpack.
  pose proof (len_py_slice b pos (pos + 4) Hpos ltac:(lia) Hin) as Hl.
  rewrite decide_True; [done|]. unfold len in Hl. simpl. lia.
Qed.

Lemma unpack_H_get16 b pos :
  0 ≤ pos → pos + 2 ≤ len b →
  struct_unpack fmt_H (py_slice b pos (pos + 2)) = Ok (get16 b pos).
Proof.
  intros Hpos Hin. unfold struct_unpack.
  pose proof (len_py_slice b pos (pos + 2) Hpos ltac:(lia) Hin) as Hl.
  rewrite decide_True; [done|]. unfold len in Hl. simpl. lia.
Qed.

Lemma pack_I_ok v : fits32 v → struct_pack fmt_I v = Ok (le_encode 4 v).
Proof. intros Hv. unfold struct_pack. by rewrite decide_True. Qed.

Lemma pack_into_I b pos v :
  0 ≤ pos → pos + 4 ≤ len b → fits32 v →
  struct_pack_into fmt_I b pos v = Ok (poke b pos (le_encode 4 v)).
Proof.
  intros Hpos Hin Hv. unfold struct_pack_into. rewrite pack_I_ok by done.
  rewrite (decide_False (P := pos < 0)) by lia.
  rewrite len_le_encode. by rewrite decide_True by lia.
Qed.

Lemma pack_into_H b pos v :
  0 ≤ pos → pos + 2 ≤ len b → 0 ≤ v < 65536 →
  struct_pack_into fmt_H b pos v = Ok (poke b pos (le_encode 2 v)).
Proof.
  intros Hpos Hin Hv. unfold struct_pack_into, struct_pack.
  rewrite (decide_True (P := 0 ≤ v < fmt_bound fmt_H)) by done.
  rewrite (decide_False (P := pos < 0)) by lia.
  simpl fmt_size. rewrite len_le_encode. by rewrite decide_True by lia.
Qed.

Lemma get32_ext b1 b2 pos :
  0 ≤ pos →
  (∀ k : nat, pos ≤ Z.of_nat k < pos + 4 → b1 !! k = b2 !! k) →
  get32 b1 pos = get32 b2 pos.
Proof.
  intros Hpos Hk. unfold get32. f_equal. apply py_slice_ext; [lia..|done].
Qed.

Lemma get16_ext b1 b2 pos :
  0 ≤ pos →
  (∀ k : nat, pos ≤ Z.of_nat k < pos + 2 → b1 !! k = b2 !! k) →
  get16 b1 pos = get16 b2 pos.
Proof.
  intros Hpos Hk. unfold get16. f_equal. apply py_slice_ext; [lia..|done].
Qed.

Lemma get32_poke_same b pos v :
  0 ≤ pos → pos + 4 ≤ len b → fits32 v →
  get32 (poke b pos (le_encode 4 v)) pos = v.
Proof.
  intros Hpos Hin Hv. unfold get32.
  pose proof (py_slice_poke_same b pos (le_encode 4 v)) as Hs.
  rewrite len_le_encode in Hs. change (Z.of_nat 4) with 4 in Hs.
  rewrite Hs by lia.
  rewrite le_decode_encode. apply Z.mod_small. unfold fits32 in Hv. lia.
Qed.

Lemma get16_poke_same b pos v :
  0 ≤ pos → pos + 2 ≤ len b → 0 ≤ v < 65536 →
  get16 (poke b pos (le_encode 2 v)) pos = v.
Proof.
  intros Hpos Hin Hv. unfold get16.
  pose proof (py_slice_poke_same b pos (le_encode 2 v)) as Hs.
  rewrite len_le_encode in Hs. change (Z.of_nat 2) with 2 in Hs.
  rewrite Hs by lia.
  rewrite le_decode_encode. apply Z.mod_small. lia.
Qed.

Lemma get32_poke_other b pos bs pos' :
  0 ≤ pos → 0 ≤ pos' → (pos' + 4 ≤ pos ∨ pos + len bs ≤ pos') →
  get32 (poke b pos bs) pos' = get32 b pos'.
Proof.
  intros Hpos Hpos' Hd. unfold get32. f_equal.
  apply py_slice_poke_other; lia.
Qed.

Lemma get16_poke_other b pos bs pos' :
  0 ≤ pos → 0 ≤ pos' → (pos' + 2 ≤ pos ∨ pos + len bs ≤ pos') →
  get16 (poke b pos bs) pos' = get16 b pos'.
Proof.
  intros Hpos Hpos' Hd. unfold get16. f_equal.
  apply py_slice_poke_other; lia.
Qed.

Lemma get32_app_l b1 b2 pos :
  0 ≤ pos → pos + 4 ≤ len b1 → get32 (b1 ++ b2) pos = get32 b1 pos.
Proof. intros. unfold get32. f_equal. apply py_slice_app_l; lia. Qed.

Lemma get32_app_r b1 b2 pos :
  0 ≤ pos → get32 (b1 ++ b2) (len b1 + pos) = get32 b2 pos.
Proof.
  intros. unfold get32. f_equal.
  rewrite <- Z.add_assoc. apply py_slice_app_r; lia.
Qed.

Lemma get32_le_encode v rest :
  fits32 v → get32 (le_encode 4 v ++ rest) 0 = v.
Proof.
  intros Hv. rewrite get32_app_l by (rewrite ?len_le_encode; lia).
  unfold get32. replace (0 + 4) with (len (le_encode 4 v)) by (by rewrite len_le_encode).
  rewrite py_slice_full, le_decode_encode. apply Z.mod_small.
  unfold fits32 in Hv. lia.
Qed.

(** *** Running computations *)

Lemma exec_ret {A} (a : A) σ : exec (mret a) σ = (Ok a, σ).
Proof. done. Qed.

Lemma exec_bind {A B} (m : M A) (k : A → M B) σ :
  exec (m ≫= k) σ =
    match exec m σ with
    | (Ok a, σ1) => exec (k a) σ1
    | (Raise e, σ1) => (Raise e, σ1)
    end.
Proof.
  unfold exec, mbind, M_bind.
  destruct (m σ) as [o1 [[a|e] σ1]]; simpl; [|done].
  by destruct (k a σ1).
Qed.

Lemma exec_print x σ : exec (print x) σ = (Ok tt, σ).
Proof. done. Qed.

Lemma exec_lift {A} (r : result A) σ : exec (lift r) σ = (r, σ).
Proof. done. Qed.

Lemma exec_open_read path d σ :
  σ !! path = Some d → exec (open_read path) σ = (Ok d, σ).
Proof. intros H. unfold exec, open_read. by rewrite H. Qed.

Lemma exec_open_write path d σ :
  exec (open_write path d) σ = (Ok tt, <[path := d]> σ).
Proof. done. Qed.

Lemma printed_bind {A B} (m : M A) (k : A → M B) σ :
  printed (m ≫= k) σ =
    printed m σ ++
    match exec m σ with
    | (Ok a, σ1) => printed (k a) σ1
    | (Raise e, σ1) => []
    end.
Proof.
  unfold printed, exec, mbind, M_bind.
  destruct (m σ) as [o1 [[a|e] σ1]]; simpl.
  - by destruct (k a σ1).
  - by rewrite app_nil_r.
Qed.

(** One step of a run whose first action is a print, a pure value or a
    returned value. *)
Ltac exec_step :=
  rewrite !exec_bind;
  first [rewrite exec_print | rewrite exec_ret | rewrite exec_lift].
Ltac exec_steps := repeat exec_step; rewrite ?exec_ret.

(** ** Loops *)

Lemma for_each_foldl {A S} (body : A → S → M S) (f : S → A → S) (P : A → S → Prop) l s σ :
  (∀ x s, x ∈ l → P x s → ∀ σ, exec (body x s) σ = (Ok (f s x), σ)) →
  (∀ x y s, x ∈ l → y ∈ l → x ≠ y → P x s → P y s → P y (f s x)) →
  NoDup l →
  (∀ x, x ∈ l → P x s) →
  exec (for_each l body s) σ = (Ok (foldl f s l), σ).
Proof.
  intros Hbody Hpres. revert s.
  induction l as [|x l IH]; intros s Hnd HP; [done|].
  apply NoDup_cons in Hnd as [Hx Hnd].
  cbn [for_each foldl]. rewrite exec_bind.
  rewrite Hbody by (try apply HP; set_solver).
  apply IH.
  - intros y s' Hy HPy σ'. apply Hbody; [set_solver|done].
  - intros y z s' Hy Hz Hyz HPy HPz. apply Hpres; [set_solver..|done|done|done].
  - done.
  - intros y Hy. apply Hpres; try apply HP; set_solver.
Qed.

Section patch_loop.
Context (cond : Z → Prop) `{!∀ v, Decision (cond v)}.
Context (delta base stride foff : Z).
Hypothesis delta_nonneg : 0 ≤ delta.
Hypothesis base_nonneg : 0 ≤ base.
Hypothesis foff_nonneg : 0 ≤ foff.
Hypothesis stride_wide : 4 ≤ stride.

Local Abbreviation pos := (field_pos base stride foff).
Local Abbreviation reloc := (patched cond delta).
Local Abbreviation can_patch := (patchable cond delta base stride foff).

Lemma field_pos_nonneg i : 0 ≤ i → 0 ≤ pos i.
Proof. unfold field_pos. nia. Qed.

Lemma field_pos_apart i j : i ≠ j → pos j + 4 ≤ pos i ∨ pos i + 4 ≤ pos j.
Proof. unfold field_pos. nia. Qed.

Lemma len_patch_field b p : len (patch_field cond delta b p) = len b.
Proof. unfold patch_field. case_decide; [apply len_poke|done]. Qed.

Lemma get32_patch_field_same b i :
  0 ≤ i → can_patch b i →
  get32 (patch_field cond delta b (pos i)) (pos i) = reloc (get32 b (pos i)).
Proof.
  intros Hi [Hin Hv]. unfold patch_field, patched.
  pose proof (get32_bounds b (pos i)) as Hb. unfold fits32 in Hb.
  pose proof (field_pos_nonneg i Hi) as Hpos.
  case_decide as Hc; [|done].
  apply get32_poke_same; [done..|]. unfold fits32. specialize (Hv Hc). lia.
Qed.

Lemma patch_field_lookup_other b p (k : nat) :
  0 ≤ p → ¬ (p ≤ Z.of_nat k < p + 4) →
  patch_field cond delta b p !! k = b !! k.
Proof.
  intros Hp Hk. unfold patch_field. case_decide; [|done].
  apply poke_lookup_other; [done|]. rewrite len_le_encode. lia.
Qed.

Lemma patchable_patch_field b i j :
  0 ≤ i → 0 ≤ j → i ≠ j → can_patch b j →
  can_patch (patch_field cond delta b (pos i)) j.
Proof.
  intros Hi Hj Hij [Hin Hv].
  pose proof (field_pos_nonneg i Hi). pose proof (field_pos_nonneg j Hj).
  pose proof (field_pos_apart i j Hij).
  assert (get32 (patch_field cond delta b (pos i)) (pos j) = get32 b (pos j)) as Heq.
  { apply get32_ext; [done|]. intros k Hk.
    apply patch_field_lookup_other; [done|lia]. }
  split; [by rewrite len_patch_field|by rewrite Heq].
Qed.

(** The three facts about a patched table: the length is kept, every
    field holds its relocated value, every other byte is the old one. *)
Lemma patch_fields_from (m : nat) a b :
  0 ≤ a →
  (∀ i, a ≤ i < a + Z.of_nat m → can_patch b i) →
  let b' := foldl (λ b i, patch_field cond delta b (pos i)) b (seqZ a (Z.of_nat m)) in
  len b' = len b ∧
  (∀ i, a ≤ i < a + Z.of_nat m → get32 b' (pos i) = reloc (get32 b (pos i))) ∧
  (∀ k : nat, (∀ i, a ≤ i < a + Z.of_nat m → ¬ (pos i ≤ Z.of_nat k < pos i + 4)) →
              b' !! k = b !! k).
Proof.
  revert a b. induction m as [|m IH]; intros a b Ha Hp; cbn zeta.
  { simpl. split; [done|]. split; [intros; lia|done]. }
  rewrite seqZ_cons by lia. cbn [foldl].
  replace (Z.pred (Z.of_nat (S m))) with (Z.of_nat m) by lia.
  set (b1 := patch_field cond delta b (pos a)).
  assert (∀ i, Z.succ a ≤ i < Z.succ a + Z.of_nat m → can_patch b1 i) as Hp1.
  { intros i Hi. apply patchable_patch_field; [lia..|]. apply Hp. lia. }
  destruct (IH (Z.succ a) b1 ltac:(lia) Hp1) as (Hlen & Hfld & Hfr).
  pose proof (field_pos_nonneg a Ha) as Hpa.
  split; [|split].
  - rewrite Hlen. apply len_patch_field.
  - intros i Hi. destruct (decide (i = a)) as [->|Hne].
    + erewrite get32_ext; [apply get32_patch_field_same; [lia|apply Hp; lia]|done|].
      intros k Hk. apply Hfr. intros i Hi'.
      pose proof (field_pos_apart i a ltac:(lia)). lia.
    + rewrite Hfld by lia. f_equal.
      apply get32_ext; [apply field_pos_nonneg; lia|].
      intros k Hk. apply patch_field_lookup_other; [done|].
      pose proof (field_pos_apart i a Hne). lia.
  - intros k Hk. rewrite Hfr by (intros i Hi; apply Hk; lia).
    apply patch_field_lookup_other; [done|]. apply Hk. lia.
Qed.

Lemma patch_fields_props n b :
  (∀ i, 0 ≤ i < n → can_patch b i) →
  let b' := patch_fields cond delta base stride foff n b in
  len b' = len b ∧
  (∀ i, 0 ≤ i < n → get32 b' (pos i) = reloc (get32 b (pos i))) ∧
  (∀ k : nat, (∀ i, 0 ≤ i < n → ¬ (pos i ≤ Z.of_nat k < pos i + 4)) →
              b' !! k = b !! k).
Proof.
  intros Hp. unfold patch_fields.
  destruct (decide (n ≤ 0)) as [Hn|Hn].
  { rewrite seqZ_nil by done. simpl. split; [done|]. split; [intros; lia|done]. }
  pose proof (patch_fields_from (Z.to_nat n) 0 b ltac:(lia)) as Hs.
  rewrite Z2Nat.id in Hs by lia. apply Hs. intros i Hi. apply Hp. lia.
Qed.

(** A loop whose body patches field [i] computes [patch_fields]. *)
Lemma for_range_patch (body : Z → bytes → M bytes) n b σ :
  (∀ i b σ, 0 ≤ i → can_patch b i →
     exec (body i b) σ = (Ok (patch_field cond delta b (pos i)), σ)) →
  (∀ i, 0 ≤ i < n → can_patch b i) →
  exec (for_range n body b) σ =
    (Ok (patch_fields cond delta base stride foff n b), σ).
Proof.
  intros Hbody Hp. unfold for_range, patch_fields.
  apply (for_each_foldl body _ (λ i b, can_patch b i)).
  - intros i s Hi Hs σ'. apply elem_of_seqZ in Hi. apply Hbody; [lia|done].
  - intros i j s Hi Hj Hij _ Hs.
    apply elem_of_seqZ in Hi. apply elem_of_seqZ in Hj.
    apply patchable_patch_field; [lia..|done].
  - apply NoDup_seqZ.
  - intros i Hi. apply elem_of_seqZ in Hi. apply Hp. lia.
Qed.
End patch_loop.

(** *** The two loop bodies *)

Lemma patch_ph_entry_exec e_phoff e_phentsize ph_size new_phoff i b σ :
  0 ≤ ph_size → 0 ≤ new_phoff → 0 ≤ e_phentsize → 0 ≤ i →
  patchable (λ v, v > e_phoff) ph_size new_phoff e_phentsize 4 b i →
  exec (patch_ph_entry e_phoff e_phentsize ph_size new_phoff i b) σ =
    (Ok (patch_field (λ v, v > e_phoff) ph_size b
           (field_pos new_phoff e_phentsize 4 i)), σ).
Proof.
  intros Hsz Hbase He Hi [Hin Hv]. unfold field_pos in *.
  unfold patch_ph_entry, patch_field. cbn zeta.
  pose proof (get32_bounds b (new_phoff + i * e_phentsize + 4)) as Hb.
  unfold fits32 in Hb.
  rewrite exec_bind, exec_lift, unpack_I_get32 by nia.
  case_decide as Hc.
  - rewrite exec_bind, exec_lift, pack_into_I; [|nia|done|unfold fits32; lia].
    by rewrite exec_bind, exec_print, exec_ret.
  - by rewrite exec_bind, exec_print, exec_ret.
Qed.

Lemma patch_sh_entry_exec e_phoff e_shentsize ph_size sh_offset i b σ :
  0 ≤ ph_size → 0 ≤ sh_offset → 0 ≤ e_shentsize → 0 ≤ i →
  patchable (λ v, v > e_phoff ∧ v < 4294967295) ph_size sh_offset e_shentsize 16 b i →
  exec (patch_sh_entry e_phoff e_shentsize ph_size sh_offset i b) σ =
    (Ok (patch_field (λ v, v > e_phoff ∧ v < 4294967295) ph_size b
           (field_pos sh_offset e_shentsize 16 i)), σ).
Proof.
  intros Hsz Hbase He Hi [Hin Hv]. unfold field_pos in *.
  unfold patch_sh_entry, patch_field. cbn zeta.
  pose proof (get32_bounds b (sh_offset + i * e_shentsize + 16)) as Hb.
  unfold fits32 in Hb.
  rewrite exec_bind, exec_lift, unpack_I_get32 by nia.
  case_decide as Hc.
  - rewrite exec_lift, pack_into_I; [done|nia|done|unfold fits32; lia].
  - by rewrite exec_ret.
Qed.

(** *** Decoding the table *)

Lemma unpack_I_entry_field ph_data off e x y :
  0 ≤ off → 0 ≤ x → y = x + 4 → y ≤ e → off + y ≤ len ph_data →
  struct_unpack fmt_I (py_slice (py_slice ph_data off (off + e)) x y) =
    Ok (get32 ph_data (off + x)).
Proof.
  intros Hoff Hx -> He Hin.
  rewrite py_slice_py_slice by lia.
  replace (off + (x + 4)) with (off + x + 4) by lia.
  apply unpack_I_get32; lia.
Qed.

Lemma parse_entry_exec ph_data e i segments σ :
  0 ≤ i → 32 ≤ e → i * e + 32 ≤ len ph_data →
  exec (parse_entry ph_data e i segments) σ =
    (Ok (segments ++ [entry_at ph_data (i * e)]), σ).
Proof.
  intros Hi He Hin. unfold parse_entry. cbn zeta.
  assert (0 ≤ i * e) by nia.
  rewrite exec_bind, exec_lift, (unpack_I_entry_field _ _ _ 0 4) by lia.
  rewrite exec_bind, exec_lift, (unpack_I_entry_field _ _ _ 4 8) by lia.
  rewrite exec_bind, exec_lift, (unpack_I_entry_field _ _ _ 8 12) by lia.
  rewrite exec_bind, exec_lift, (unpack_I_entry_field _ _ _ 12 16) by lia.
  rewrite exec_bind, exec_lift, (unpack_I_entry_field _ _ _ 16 20) by lia.
  rewrite exec_bind, exec_lift, (unpack_I_entry_field _ _ _ 20 24) by lia.
  rewrite exec_bind, exec_lift, (unpack_I_entry_field _ _ _ 24 28) by lia.
  rewrite exec_bind, exec_lift, (unpack_I_entry_field _ _ _ 28 32) by lia.
  rewrite exec_ret. unfold entry_at. by rewrite Z.add_0_r.
Qed.

Lemma foldl_snoc_map {A B} (g : A → B) (l : list A) (acc : list B) :
  foldl (λ acc x, acc ++ [g x]) acc l = acc ++ (g <$> l).
Proof.
  revert acc. induction l as [|x l IH]; intros acc; simpl.
  - by rewrite app_nil_r.
  - rewrite IH. by rewrite <- app_assoc.
Qed.

Lemma parse_loop_exec ph_data e n σ :
  32 ≤ e → (∀ i, 0 ≤ i < n → i * e + 32 ≤ len ph_data) →
  exec (for_range n (parse_entry ph_data e) []) σ =
    (Ok (parse_table ph_data e n), σ).
Proof.
  intros He Hin. unfold for_range, parse_table.
  rewrite (for_each_foldl _ (λ acc i, acc ++ [entry_at ph_data (i * e)])
             (λ _ _, True)).
  - by rewrite foldl_snoc_map.
  - intros i s Hi _ σ'. apply elem_of_seqZ in Hi.
    apply parse_entry_exec; [lia|done|apply Hin; lia].
  - done.
  - apply NoDup_seqZ.
  - done.
Qed.

(** *** Classification *)

Lemma classify_step_foldl segs st cs :
  foldl classify_step (st, cs) segs =
    (from_option Some st (last (filter is_storage segs)),
     cs ++ filter is_code segs).
Proof.
  revert st cs. induction segs as [|s segs IH]; intros st cs.
  { simpl. by rewrite app_nil_r. }
  cbn [foldl]. unfold classify_step at 2. cbn [fst snd].
  unfold is_storage, is_code in *.
  destruct (decide (p_type s = PT_LOAD)) as [Ht|Ht].
  - destruct (decide (p_vaddr s = 0)) as [Hv|Hv].
    + rewrite IH. rewrite filter_cons_True by done.
      rewrite (filter_cons_False (λ s, p_type s = PT_LOAD ∧ p_vaddr s ≠ 0)) by tauto.
      f_equal.
      destruct (filter _ segs) as [|s' l'] eqn:E; [done|].
      rewrite last_cons_cons.
      destruct (last (s' :: l')) eqn:E2; [done|]. by apply last_None in E2.
    + rewrite IH. rewrite filter_cons_False by tauto.
      rewrite (filter_cons_True (λ s, p_type s = PT_LOAD ∧ p_vaddr s ≠ 0)) by done.
      by rewrite <- app_assoc.
  - rewrite IH. by rewrite !filter_cons_False by tauto.
Qed.

Lemma classify_spec segs :
  classify segs = (last (filter is_storage segs), filter is_code segs).
Proof.
  unfold classify. rewrite classify_step_foldl. simpl.
  by destruct (last _).
Qed.

(** *** Minimum, maximum and the union of flags *)

Lemma foldl_min_spec l x : is_min_of (foldl Z.min x l) (x :: l).
Proof.
  revert x. induction l as [|y l IH]; intros x; cbn [foldl].
  - split; [apply list_elem_of_here|].
    intros z Hz. apply list_elem_of_singleton in Hz. lia.
  - destruct (IH (Z.min x y)) as [Hin Hle]. split.
    + apply elem_of_cons in Hin. destruct Hin as [Heq|Hl].
      * rewrite Heq. destruct (Z.min_spec x y) as [[_ ->]|[_ ->]].
        -- apply list_elem_of_here.
        -- apply list_elem_of_further, list_elem_of_here.
      * by do 2 apply list_elem_of_further.
    + intros z Hz. pose proof (Hle (Z.min x y) (list_elem_of_here _ _)) as Hm.
      apply elem_of_cons in Hz. destruct Hz as [->|Hz]; [lia|].
      apply elem_of_cons in Hz. destruct Hz as [->|Hz]; [lia|].
      apply Hle. by apply list_elem_of_further.
Qed.

Lemma foldl_max_spec l x : is_max_of (foldl Z.max x l) (x :: l).
Proof.
  revert x. induction l as [|y l IH]; intros x; cbn [foldl].
  - split; [apply list_elem_of_here|].
    intros z Hz. apply list_elem_of_singleton in Hz. lia.
  - destruct (IH (Z.max x y)) as [Hin Hle]. split.
    + apply elem_of_cons in Hin. destruct Hin as [Heq|Hl].
      * rewrite Heq. destruct (Z.max_spec x y) as [[_ ->]|[_ ->]].
        -- apply list_elem_of_further, list_elem_of_here.
        -- apply list_elem_of_here.
      * by do 2 apply list_elem_of_further.
    + intros z Hz. pose proof (Hle (Z.max x y) (list_elem_of_here _ _)) as Hm.
      apply elem_of_cons in Hz. destruct Hz as [->|Hz]; [lia|].
      apply elem_of_cons in Hz. destruct Hz as [->|Hz]; [lia|].
      apply Hle. by apply list_elem_of_further.
Qed.

Lemma lor_fits32 a b : fits32 a → fits32 b → fits32 (Z.lor a b).
Proof.
  unfold fits32. intros Ha Hb.
  assert (0 ≤ Z.lor a b) as Hnn by (apply Z.lor_nonneg; lia).
  split; [done|].
  destruct (decide (Z.lor a b = 0)) as [->|Hz]; [lia|].
  change 4294967296 with (2 ^ 32).
  apply Z.log2_lt_pow2; [lia|].
  rewrite Z.log2_lor by lia.
  assert (∀ x, 0 ≤ x < 2 ^ 32 → Z.log2 x < 32) as Hlog.
  { intros x Hx. destruct (decide (x = 0)) as [->|?]; [done|].
    apply Z.log2_lt_pow2; lia. }
  pose proof (Hlog a ltac:(lia)). pose proof (Hlog b ltac:(lia)). lia.
Qed.

Lemma or_flags_foldl_fits cs acc :
  fits32 acc → Forall (λ s, fits32 (p_flags s)) cs →
  fits32 (foldl (λ merged_flags seg, Z.lor merged_flags (p_flags seg)) acc cs).
Proof.
  revert acc. induction cs as [|c cs IH]; intros acc Hacc Hcs; [done|].
  apply Forall_cons in Hcs as [Hc Hcs]. cbn [foldl].
  apply IH; [by apply lor_fits32|done].
Qed.

Lemma or_flags_fits cs :
  Forall (λ s, fits32 (p_flags s)) cs → fits32 (or_flags cs).
Proof. apply or_flags_foldl_fits. unfold fits32. lia. Qed.

Lemma or_flags_foldl_testbit cs acc k :
  Z.testbit (foldl (λ merged_flags seg, Z.lor merged_flags (p_flags seg)) acc cs) k =
    Z.testbit acc k || existsb (λ seg, Z.testbit (p_flags seg) k) cs.
Proof.
  revert acc. induction cs as [|c cs IH]; intros acc; cbn [foldl existsb].
  - by rewrite orb_false_r.
  - rewrite IH, Z.lor_spec. by rewrite orb_assoc.
Qed.

Lemma or_flags_testbit cs k :
  Z.testbit (or_flags cs) k = existsb (λ seg, Z.testbit (p_flags seg) k) cs.
Proof.
  unfold or_flags. rewrite or_flags_foldl_testbit. by rewrite Z.testbit_0_l.
Qed.

(** *** Entries and their 32 bytes *)

Lemma entry_at_fits b pos : seg_fits (entry_at b pos).
Proof. unfold seg_fits, entry_at. cbn. repeat split; apply get32_bounds. Qed.

Lemma pack_segment_ok s : seg_fits s → pack_segment s = Ok (seg_bytes s).
Proof.
  intros (H0 & H1 & H2 & H3 & H4 & H5 & H6 & H7). unfold pack_segment.
  by rewrite !pack_I_ok.
Qed.

Lemma len_seg_bytes s : len (seg_bytes s) = 32.
Proof. unfold seg_bytes. by rewrite !len_app, !len_le_encode. Qed.

Lemma get32_skip v rest pos :
  0 ≤ pos → get32 (le_encode 4 v ++ rest) (4 + pos) = get32 rest pos.
Proof.
  intros Hpos. pose proof (get32_app_r (le_encode 4 v) rest pos Hpos) as H.
  by rewrite len_le_encode in H.
Qed.

Lemma entry_at_seg_bytes s rest :
  seg_fits s → entry_at (seg_bytes s ++ rest) 0 = s.
Proof.
  intros (H0 & H1 & H2 & H3 & H4 & H5 & H6 & H7).
  destruct s as [t o va pa fs ms fl al].
  unfold entry_at, seg_bytes in *.
  cbn [p_type p_offset p_vaddr p_paddr p_filesz p_memsz p_flags p_align] in *.
  rewrite <- !app_assoc.
  f_equal.
  - by apply get32_le_encode.
  - change (0 + 4) with (4 + 0). rewrite get32_skip by lia. by apply get32_le_encode.
  - change (0 + 8) with (4 + (4 + 0)). rewrite !get32_skip by lia. by apply get32_le_encode.
  - change (0 + 12) with (4 + (4 + (4 + 0))). rewrite !get32_skip by lia. by apply get32_le_encode.
  - change (0 + 16) with (4 + (4 + (4 + (4 + 0)))). rewrite !get32_skip by lia. by apply get32_le_encode.
  - change (0 + 20) with (4 + (4 + (4 + (4 + (4 + 0))))). rewrite !get32_skip by lia. by apply get32_le_encode.
  - change (0 + 24) with (4 + (4 + (4 + (4 + (4 + (4 + 0)))))). rewrite !get32_skip by lia. by apply get32_le_encode.
  - change (0 + 28) with (4 + (4 + (4 + (4 + (4 + (4 + (4 + 0))))))). rewrite !get32_skip by lia.
    by apply get32_le_encode.
Qed.

Lemma entry_at_app_r b1 b2 pos :
  0 ≤ pos → entry_at (b1 ++ b2) (len b1 + pos) = entry_at b2 pos.
Proof.
  intros Hpos. unfold entry_at.
  rewrite <- !Z.add_assoc. by rewrite !get32_app_r by lia.
Qed.

(** *** The merge *)

Lemma merge_code_exec cs σ :
  cs ≠ [] → exec (merge_code cs) σ = (Ok (merged_code_seg cs), σ).
Proof.
  intros Hne. destruct cs as [|c [|c' rest]]; [done| |].
  - unfold merge_code. rewrite decide_False by (unfold len; simpl; lia).
    by rewrite exec_lift.
  - unfold merge_code. rewrite decide_True by (unfold len; simpl; lia).
    cbn [fmap list_fmap py_min py_max].
    by exec_steps.
Qed.

(** The fields of a segment merged from two or more entries. *)
Lemma merged_code_seg_fields cs :
  2 ≤ len cs →
  let mc := merged_code_seg cs in
  p_type mc = PT_LOAD ∧
  is_min_of (p_offset mc) (p_offset <$> cs) ∧
  is_min_of (p_vaddr mc) (p_vaddr <$> cs) ∧
  p_paddr mc = p_vaddr mc ∧
  is_max_of (p_offset mc + p_filesz mc) ((λ s, p_offset s + p_filesz s) <$> cs) ∧
  is_max_of (p_vaddr mc + p_memsz mc) ((λ s, p_vaddr s + p_memsz s) <$> cs) ∧
  p_flags mc = or_flags cs ∧
  p_align mc = 4.
Proof.
  intros Hlen. destruct cs as [|c [|c' rest]]; [unfold len in Hlen; simpl in Hlen; lia..|].
  cbn zeta. cbn [merged_code_seg p_type p_offset p_vaddr p_paddr p_filesz p_memsz p_flags p_align].
  repeat split; try apply foldl_min_spec.
  - replace (_ + (_ - _)) with
      (foldl Z.max (p_offset c + p_filesz c)
         ((λ s, p_offset s + p_filesz s) <$> (c' :: rest))) by lia.
    apply (foldl_max_spec _ _).
  - intros x Hx.
    replace (_ + (_ - _)) with
      (foldl Z.max (p_offset c + p_filesz c)
         ((λ s, p_offset s + p_filesz s) <$> (c' :: rest))) by lia.
    by apply (foldl_max_spec _ _).
  - replace (_ + (_ - _)) with
      (foldl Z.max (p_vaddr c + p_memsz c)
         ((λ s, p_vaddr s + p_memsz s) <$> (c' :: rest))) by lia.
    apply (foldl_max_spec _ _).
  - intros x Hx.
    replace (_ + (_ - _)) with
      (foldl Z.max (p_vaddr c + p_memsz c)
         ((λ s, p_vaddr s + p_memsz s) <$> (c' :: rest))) by lia.
    by apply (foldl_max_spec _ _).
Qed.

Lemma is_min_of_fmap {A} (f : A → Z) (l : list A) m :
  is_min_of m (f <$> l) → ∃ x, x ∈ l ∧ m = f x ∧ ∀ y, y ∈ l → m ≤ f y.
Proof.
  intros [Hin Hle]. apply list_elem_of_fmap in Hin as (x & -> & Hx).
  exists x. split; [done|]. split; [done|].
  intros y Hy. apply Hle. by apply list_elem_of_fmap_2.
Qed.

Lemma is_max_of_fmap {A} (f : A → Z) (l : list A) m :
  is_max_of m (f <$> l) → ∃ x, x ∈ l ∧ m = f x ∧ ∀ y, y ∈ l → f y ≤ m.
Proof.
  intros [Hin Hle]. apply list_elem_of_fmap in Hin as (x & -> & Hx).
  exists x. split; [done|]. split; [done|].
  intros y Hy. apply Hle. by apply list_elem_of_fmap_2.
Qed.

Lemma merged_code_seg_fits cs :
  cs ≠ [] → Forall seg_fits cs → Forall is_code cs → Forall span_ok cs →
  seg_fits (merged_code_seg cs).
Proof.
  intros Hne Hfits Hcode Hspans.
  destruct cs as [|c [|c' rest]]; [done| |].
  { by apply Forall_cons in Hfits as [? _]. }
  set (cs := c :: c' :: rest) in *.
  destruct (merged_code_seg_fields cs) as (Ht & Ho & Hv & Hp & Hf & Hm & Hfl & Hal).
  { unfold len, cs. simpl length. lia. }
  rewrite Forall_forall in Hfits. rewrite Forall_forall in Hspans.
  rewrite Forall_forall in Hcode.
  apply is_min_of_fmap in Ho as (co & Hco & Hoeq & Hole).
  apply is_min_of_fmap in Hv as (cv & Hcv & Hveq & Hvle).
  apply is_max_of_fmap in Hf as (cf & Hcf & Hfeq & Hfle).
  apply is_max_of_fmap in Hm as (cm & Hcm & Hmeq & Hmle).
  pose proof (Hfits co Hco) as (_ & Hfo & _ & _ & Hfs & _).
  pose proof (Hfits cv Hcv) as (_ & _ & Hfv & _ & _ & Hfm & _).
  pose proof (Hcode cv Hcv) as [_ Hnz].
  pose proof (Hspans cf Hcf) as [Hsf _].
  pose proof (Hspans cm Hcm) as [_ Hsm].
  pose proof (Hfle co Hco). pose proof (Hmle cv Hcv).
  unfold seg_fits. rewrite Hp, Ht, Hal, Hfl. unfold fits32 in *.
  repeat split; try (unfold PT_LOAD; lia).
  - apply or_flags_fits. apply Forall_forall. intros s Hs.
    by pose proof (Hfits s Hs) as (_ & _ & _ & _ & _ & _ & ? & _).
  - apply or_flags_fits. apply Forall_forall. intros s Hs.
    by pose proof (Hfits s Hs) as (_ & _ & _ & _ & _ & _ & ? & _).
Qed.

Lemma parse_table_fits ph_data e n : Forall seg_fits (parse_table ph_data e n).
Proof.
  unfold parse_table. apply Forall_fmap, Forall_forall. intros i _.
  apply entry_at_fits.
Qed.

Section merge_load_segments.
Context (ph_data : bytes) (e n : Z).
Hypothesis entries_wide : 32 ≤ e.
Hypothesis table_inside : ∀ i, 0 ≤ i < n → i * e + 32 ≤ len ph_data.

Local Abbreviation segs := (parse_table ph_data e n).

(** With a Storage entry and at least one Code entry the result is a table
    of two entries. *)
Lemma merge_load_segments_merged st σ :
  last (filter is_storage segs) = Some st →
  filter is_code segs ≠ [] →
  Forall span_ok (filter is_code segs) →
  exec (merge_load_segments ph_data e n) σ =
    (Ok (seg_bytes st ++ seg_bytes (merged_code_seg (filter is_code segs)), 2), σ).
Proof.
  intros Hst Hcs Hspans. unfold merge_load_segments.
  rewrite exec_bind, parse_loop_exec by done.
  rewrite classify_spec, Hst.
  rewrite decide_False.
  2:{ unfold len. destruct (filter is_code segs); [done|simpl; lia]. }
  rewrite exec_bind, merge_code_exec by done.
  cbn zeta. cbn [for_each].
  assert (seg_fits st) as Hfst.
  { pose proof (parse_table_fits ph_data e n) as Hall.
    rewrite Forall_forall in Hall. apply Hall.
    apply last_Some_elem_of in Hst. by apply list_elem_of_filter in Hst as [_ ?]. }
  assert (seg_fits (merged_code_seg (filter is_code segs))) as Hfmc.
  { apply merged_code_seg_fits; [done| | |done].
    - apply Forall_forall. intros s Hs. apply list_elem_of_filter in Hs as [_ Hs].
      pose proof (parse_table_fits ph_data e n) as Hall.
      rewrite Forall_forall in Hall. by apply Hall.
    - apply Forall_forall. intros s Hs. by apply list_elem_of_filter in Hs as [? _]. }
  rewrite !exec_bind, exec_lift, pack_segment_ok by done.
  rewrite exec_ret, !exec_bind, exec_lift, pack_segment_ok by done.
  rewrite !exec_ret. by exec_steps.
Qed.

(** Without a Storage entry, or without a Code entry, the table comes back
    as it is. *)
Lemma merge_load_segments_unchanged σ :
  filter is_storage segs = [] ∨ filter is_code segs = [] →
  exec (merge_load_segments ph_data e n) σ = (Ok (ph_data, n), σ).
Proof.
  intros Hno. unfold merge_load_segments.
  rewrite exec_bind, parse_loop_exec by done.
  rewrite classify_spec.
  destruct (last (filter is_storage segs)) as [st|] eqn:Hst.
  - destruct Hno as [Hno|Hno]; [by rewrite Hno in Hst|].
    rewrite Hno. rewrite decide_True by done.
    by rewrite exec_bind, exec_print, exec_ret.
  - by rewrite exec_bind, exec_print, exec_ret.
Qed.
End merge_load_segments.

Lemma py_getitem_lookup {A} (l : list A) (i : Z) x :
  0 ≤ i → l !! Z.to_nat i = Some x → py_getitem l i = Ok x.
Proof.
  intros Hi H. unfold py_getitem.
  rewrite (decide_False (P := i < 0)) by lia.
  rewrite decide_True by lia. by rewrite H.
Qed.

Lemma py_slice_shift_ext {A} (l1 l2 : list A) a c s :
  0 ≤ a → 0 ≤ c → 0 ≤ s →
  (∀ k : nat, a ≤ Z.of_nat k < c → l1 !! k = l2 !! (k + Z.to_nat s)%nat) →
  py_slice l1 a c = py_slice l2 (a + s) (c + s).
Proof.
  intros Ha Hc Hs Hext. apply list_eq. intros k.
  rewrite !py_slice_lookup by lia.
  repeat case_decide; try lia; [|done].
  rewrite Hext by lia. f_equal. lia.
Qed.

Lemma get32_shift_ext b1 b2 p s :
  0 ≤ p → 0 ≤ s →
  (∀ k : nat, p ≤ Z.of_nat k < p + 4 → b1 !! k = b2 !! (k + Z.to_nat s)%nat) →
  get32 b1 p = get32 b2 (p + s).
Proof.
  intros Hp Hs Hext. unfold get32. f_equal.
  replace (p + s + 4) with (p + 4 + s) by lia.
  apply py_slice_shift_ext; [lia..|done].
Qed.

(** *** The run of [reorder_elf] on a well-formed image *)

Section run.
Context (d table : bytes) (n' : Z).
Hypothesis Hwf : well_formed d.
Hypothesis Hn' : 0 ≤ n' < 65536.
Hypothesis Htable_len : len table = 32 * n'.
Hypothesis Htable_offsets :
  ∀ i, 0 ≤ i < n' →
    get32 table (i * 32 + 4) > e_phoff_of d →
    ph_size_of d ≤ get32 table (i * 32 + 4).

Local Abbreviation phoff := (e_phoff_of d).
Local Abbreviation shoff := (e_shoff_of d).
Local Abbreviation ph_size := (ph_size_of d).
Local Abbreviation body :=
  (py_slice_to d (e_phoff_of d) ++ py_slice_from d (e_phoff_of d + ph_size_of d)).

Lemma ph_size_nonneg : 0 ≤ ph_size.
Proof.
  unfold ph_size_of. rewrite (wf_phentsize d Hwf).
  pose proof (get16_bounds d 44). unfold e_phnum_of. lia.
Qed.

Lemma ph_size_32 : ph_size = 32 * e_phnum_of d.
Proof. unfold ph_size_of. by rewrite (wf_phentsize d Hwf). Qed.

Lemma len_body : len body = len d - ph_size.
Proof.
  pose proof ph_size_nonneg. pose proof (wf_phoff d Hwf).
  pose proof (wf_table d Hwf). 
  rewrite py_slice_to_take, py_slice_from_drop by lia.
  rewrite len_app. unfold len in *. rewrite length_take, length_drop. lia.
Qed.

Lemma body_lookup_head (k : nat) :
  Z.of_nat k < phoff → body !! k = d !! k.
Proof.
  intros Hk. pose proof ph_size_nonneg. pose proof (wf_phoff d Hwf).
  pose proof (wf_table d Hwf).
  rewrite py_slice_to_take, py_slice_from_drop by lia.
  rewrite lookup_app_l by (rewrite length_take; unfold len in *; lia).
  apply lookup_take_lt. lia.
Qed.

Lemma body_lookup_tail (k : nat) :
  phoff ≤ Z.of_nat k → body !! k = d !! (k + Z.to_nat ph_size)%nat.
Proof.
  intros Hk. pose proof ph_size_nonneg. pose proof (wf_phoff d Hwf).
  pose proof (wf_table d Hwf).
  rewrite py_slice_to_take, py_slice_from_drop by lia.
  rewrite lookup_app_r by (rewrite length_take; unfold len in *; lia).
  rewrite lookup_drop, length_take. f_equal. unfold len in *. lia.
Qed.

Lemma read_header :
  struct_unpack fmt_I (py_slice d 28 (28 + 4)) = Ok phoff ∧
  struct_unpack fmt_I (py_slice d 32 (32 + 4)) = Ok shoff ∧
  struct_unpack fmt_H (py_slice d 42 (42 + 2)) = Ok (e_phentsize_of d) ∧
  struct_unpack fmt_H (py_slice d 44 (44 + 2)) = Ok (e_phnum_of d) ∧
  struct_unpack fmt_H (py_slice d 46 (46 + 2)) = Ok (e_shentsize_of d) ∧
  struct_unpack fmt_H (py_slice d 48 (48 + 2)) = Ok (e_shnum_of d).
Proof.
  pose proof (wf_len d Hwf).
  repeat split; first [apply unpack_I_get32 | apply unpack_H_get16]; lia.
Qed.

Local Abbreviation appended := (body ++ table).
Local Abbreviation hdr1 := (poke appended 28 (le_encode 4 (len body))).
Local Abbreviation hdr2 := (poke hdr1 44 (le_encode 2 n')).
Local Abbreviation hdr := (rebuild_header d table n').
Local Abbreviation tbl := (rebuild_table d table n').

Lemma len_rebuild_header : len hdr = len body + 32 * n'.
Proof.
  assert (len hdr2 = len body + 32 * n') as H2
    by (by rewrite !len_poke, len_app, Htable_len).
  unfold rebuild_header. cbn zeta. case_decide; [by rewrite len_poke|done].
Qed.

(** Header patches only touch bytes 28..35 and 44..45. *)
Lemma rebuild_header_lookup_other (k : nat) :
  ¬ (28 ≤ Z.of_nat k < 36) → ¬ (44 ≤ Z.of_nat k < 46) → hdr !! k = appended !! k.
Proof.
  intros H1 H2.
  assert (hdr2 !! k = appended !! k) as Hb2.
  { rewrite !poke_lookup_other; [done|lia|rewrite len_le_encode; lia
                                 |lia|rewrite len_le_encode; lia]. }
  unfold rebuild_header. cbn zeta. case_decide; [|done].
  rewrite poke_lookup_other; [done|lia|rewrite len_le_encode; lia].
Qed.

Lemma shoff_fits : shoff > phoff → fits32 (shoff - ph_size) ∧ phoff ≤ shoff - ph_size.
Proof.
  intros Hgt. destruct (wf_sections d Hwf Hgt) as (Hafter & _).
  pose proof (get32_bounds d 32) as Hb. unfold fits32, e_shoff_of in *.
  pose proof ph_size_nonneg. pose proof (wf_phoff d Hwf). lia.
Qed.

Lemma rebuild_header_ph_field i :
  0 ≤ i < n' →
  get32 hdr (field_pos (len body) 32 4 i) = get32 table (i * 32 + 4).
Proof.
  intros Hi. unfold field_pos.
  pose proof (wf_phoff d Hwf). pose proof (wf_table d Hwf).
  pose proof len_body as Hlb. pose proof (len_nonneg body).
  rewrite (get32_ext hdr appended); [|lia|].
  - rewrite <- Z.add_assoc. apply get32_app_r. lia.
  - intros k Hk. apply rebuild_header_lookup_other; lia.
Qed.

Lemma rebuild_header_patchable i :
  0 ≤ i < n' →
  patchable (λ v, v > phoff) ph_size (len body) 32 4 hdr i.
Proof.
  intros Hi. split.
  - rewrite len_rebuild_header. unfold field_pos. lia.
  - rewrite rebuild_header_ph_field by done. by apply Htable_offsets.
Qed.

Lemma rebuild_table_props :
  len tbl = len hdr ∧
  (∀ i, 0 ≤ i < n' →
     get32 tbl (field_pos (len body) 32 4 i) =
       relocate phoff ph_size (get32 table (i * 32 + 4))) ∧
  (∀ k : nat,
     (∀ i, 0 ≤ i < n' → ¬ (field_pos (len body) 32 4 i ≤ Z.of_nat k
                             < field_pos (len body) 32 4 i + 4)) →
     tbl !! k = hdr !! k).
Proof.
  unfold rebuild_table. cbn zeta. rewrite (wf_phentsize d Hwf).
  destruct (patch_fields_props (λ v, v > phoff) ph_size (len body) 32 4
              ph_size_nonneg (len_nonneg _) ltac:(lia) ltac:(lia) n' hdr)
    as (Hl & Hf & Hfr).
  { intros i Hi. by apply rebuild_header_patchable. }
  split; [done|]. split; [|done].
  intros i Hi. rewrite Hf by done. by rewrite rebuild_header_ph_field.
Qed.

Lemma rebuild_table_lookup_low (k : nat) : Z.of_nat k < len body → tbl !! k = hdr !! k.
Proof.
  intros Hk. destruct rebuild_table_props as (_ & _ & Hfr). apply Hfr.
  intros i Hi. unfold field_pos. lia.
Qed.

(** Between the header and the relocated table the buffer holds the bytes
    of the input that followed the old table. *)
Lemma rebuild_table_lookup_mid (k : nat) :
  phoff ≤ Z.of_nat k < len body → tbl !! k = d !! (k + Z.to_nat ph_size)%nat.
Proof.
  intros Hk. pose proof (wf_phoff d Hwf).
  rewrite rebuild_table_lookup_low by lia. rewrite rebuild_header_lookup_other by lia.
  rewrite lookup_app_l by (unfold len in Hk; lia).
  apply body_lookup_tail. lia.
Qed.

Lemma rebuild_table_sh_field i :
  shoff > phoff → 0 ≤ i < e_shnum_of d →
  get32 tbl (field_pos (shoff - ph_size) (e_shentsize_of d) 16 i) = sh_offset_at d i.
Proof.
  intros Hgt Hi. destruct (wf_sections d Hwf Hgt) as (Hafter & Hwide & Hin & _).
  pose proof ph_size_nonneg. pose proof (wf_phoff d Hwf). pose proof len_body.
  unfold sh_offset_at, field_pos.
  replace (shoff + i * e_shentsize_of d + 16)
    with (shoff - ph_size + i * e_shentsize_of d + 16 + ph_size) by lia.
  apply get32_shift_ext; [nia|lia|].
  intros k Hk. apply rebuild_table_lookup_mid. nia.
Qed.

Lemma rebuild_table_patchable i :
  shoff > phoff → 0 ≤ i < e_shnum_of d →
  patchable (λ v, v > phoff ∧ v < 4294967295) ph_size
    (shoff - ph_size) (e_shentsize_of d) 16 tbl i.
Proof.
  intros Hgt Hi. destruct (wf_sections d Hwf Hgt) as (Hafter & Hwide & Hin & Hoffs).
  pose proof ph_size_nonneg. pose proof (wf_phoff d Hwf). pose proof len_body.
  split.
  - destruct rebuild_table_props as (-> & _). rewrite len_rebuild_header. unfold field_pos. nia.
  - rewrite rebuild_table_sh_field by done. intros [Hv _].
    rewrite Forall_forall in Hoffs.
    assert (sh_offset_at d i ∈ sh_offsets d) as Hel.
    { unfold sh_offsets. apply list_elem_of_fmap_2, elem_of_seqZ. lia. }
    specialize (Hoffs _ Hel). lia.
Qed.

(** The program computes [rebuild]. *)
Lemma reorder_elf_exec input_file output_file σ :
  σ !! input_file = Some d →
  (∀ σ', exec (merge_load_segments (old_table d) (e_phentsize_of d) (e_phnum_of d)) σ'
         = (Ok (table, n'), σ')) →
  exec (reorder_elf input_file output_file) σ =
    (Ok true, <[output_file := rebuild d table n']> σ).
Proof.
  intros Hin Hmerge. unfold reorder_elf.
  rewrite exec_bind, (exec_open_read _ _ _ Hin).
  rewrite decide_False by (intros Hne; apply Hne, (wf_magic d Hwf)).
  exec_step. rewrite (py_getitem_lookup d 4 x01 ltac:(lia) (wf_class d Hwf)).
  exec_step. rewrite (py_getitem_lookup d 5 x01 ltac:(lia) (wf_data d Hwf)).
  rewrite !(decide_False (P := byte_val x01 ≠ 1)) by (intros Hne; by apply Hne).
  destruct read_header as (R1 & R2 & R3 & R4 & R5 & R6).
  cbn zeta.
  exec_step. rewrite R1. exec_step. rewrite R2. exec_step. rewrite R3.
  exec_step. rewrite R4. exec_step. rewrite R5. exec_step. rewrite R6.
  do 6 exec_step.
  rewrite exec_bind. fold (ph_size_of d). fold (old_table d). rewrite Hmerge.
  pose proof ph_size_nonneg. pose proof (wf_phoff d Hwf).
  pose proof (wf_table d Hwf). pose proof (wf_len d Hwf).
  pose proof len_body as Hlb.
  exec_step. rewrite pack_into_I; [|lia|rewrite len_app; lia|unfold fits32; lia].
  exec_step. rewrite pack_into_H; [|lia|rewrite len_poke, len_app; lia|done].
  unfold rebuild, rebuild_table, rebuild_header. cbn zeta.
  destruct (decide (shoff > phoff)) as [Hgt|Hle].
  - destruct (shoff_fits Hgt) as [Hsf Hsl].
    rewrite !exec_bind, exec_lift.
    rewrite pack_into_I; [|lia|rewrite !len_poke, len_app; lia|done].
    exec_step. rewrite exec_ret. do 4 exec_step.
    rewrite exec_bind.
    rewrite (for_range_patch (λ v, v > phoff) ph_size (len body) (e_phentsize_of d) 4).
    2:{ apply len_nonneg. }
    2:{ lia. }
    2:{ rewrite (wf_phentsize d Hwf). lia. }
    2:{ intros i b σ' Hi Hp. apply patch_ph_entry_exec; try done.
        - apply len_nonneg.
        - rewrite (wf_phentsize d Hwf). lia. }
    2:{ intros i Hi. rewrite (wf_phentsize d Hwf).
        pose proof (rebuild_header_patchable i Hi) as Hp.
        unfold rebuild_header in Hp. cbn zeta in Hp.
        by rewrite decide_True in Hp by done. }
    rewrite !exec_bind, exec_lift.
    pose proof rebuild_table_patchable as Hsp.
    unfold rebuild_table, rebuild_header in Hsp. cbn zeta in Hsp.
    rewrite decide_True in Hsp by done.
    rewrite (for_range_patch (λ v, v > phoff ∧ v < 4294967295) ph_size
               (shoff - ph_size) (e_shentsize_of d) 16).
    2:{ lia. }
    2:{ lia. }
    2:{ destruct (wf_sections d Hwf Hgt) as (_ & ? & _). lia. }
    2:{ intros i b σ' Hi Hp. apply patch_sh_entry_exec; try done; try lia.
        pose proof (get16_bounds d 46). unfold e_shentsize_of. lia. }
    2:{ intros i Hi. by apply Hsp. }
    rewrite exec_bind, exec_open_write. by exec_steps.
  - exec_step. do 4 exec_step.
    rewrite exec_bind.
    rewrite (for_range_patch (λ v, v > phoff) ph_size (len body) (e_phentsize_of d) 4).
    2:{ apply len_nonneg. }
    2:{ lia. }
    2:{ rewrite (wf_phentsize d Hwf). lia. }
    2:{ intros i b σ' Hi Hp. apply patch_ph_entry_exec; try done.
        - apply len_nonneg.
        - rewrite (wf_phentsize d Hwf). lia. }
    2:{ intros i Hi. rewrite (wf_phentsize d Hwf).
        pose proof (rebuild_header_patchable i Hi) as Hp.
        unfold rebuild_header in Hp. cbn zeta in Hp.
        by rewrite decide_False in Hp by done. }
    exec_step.
    rewrite exec_bind, exec_open_write. by exec_steps.
Qed.

(** *** What the rebuilt image holds *)

Local Abbreviation out := (rebuild d table n').

Lemma rebuild_unfold :
  out = if decide (shoff > phoff)
        then patch_fields (λ v, v > phoff ∧ v < 4294967295) ph_size
               (shoff - ph_size) (e_shentsize_of d) 16 (e_shnum_of d) tbl
        else tbl.
Proof. done. Qed.

Lemma rebuild_sections_props :
  shoff > phoff →
  let sec := patch_fields (λ v, v > phoff ∧ v < 4294967295) ph_size
              (shoff - ph_size) (e_shentsize_of d) 16 (e_shnum_of d) tbl in
  len sec = len tbl ∧
  (∀ i, 0 ≤ i < e_shnum_of d →
     get32 sec (field_pos (shoff - ph_size) (e_shentsize_of d) 16 i) =
       relocate_sh phoff ph_size (sh_offset_at d i)) ∧
  (∀ k : nat, Z.of_nat k < phoff + 16 ∨ len body ≤ Z.of_nat k → sec !! k = tbl !! k).
Proof.
  intros Hgt. destruct (wf_sections d Hwf Hgt) as (Hafter & Hwide & Hin & Hoffs).
  pose proof ph_size_nonneg. pose proof (wf_phoff d Hwf). pose proof len_body.
  destruct (patch_fields_props (λ v, v > phoff ∧ v < 4294967295) ph_size
              (shoff - ph_size) (e_shentsize_of d) 16
              ph_size_nonneg ltac:(lia) ltac:(lia) ltac:(lia) (e_shnum_of d) tbl)
    as (Hl & Hf & Hfr).
  { intros i Hi. by apply rebuild_table_patchable. }
  split; [done|]. split.
  - intros i Hi. rewrite Hf by done. by rewrite rebuild_table_sh_field.
  - intros k Hk. apply Hfr. intros i Hi. unfold field_pos. nia.
Qed.

Lemma out_lookup_outside (k : nat) :
  Z.of_nat k < phoff + 16 ∨ len body ≤ Z.of_nat k → out !! k = tbl !! k.
Proof.
  intros Hk. rewrite rebuild_unfold. case_decide as Hgt; [|done].
  destruct (rebuild_sections_props Hgt) as (_ & _ & Hfr). by apply Hfr.
Qed.

Lemma len_out : len out = len d - ph_size + 32 * n'.
Proof.
  rewrite <- len_body, <- len_rebuild_header. destruct rebuild_table_props as (<- & _).
  rewrite rebuild_unfold. case_decide as Hgt; [|done].
  by destruct (rebuild_sections_props Hgt) as (-> & _).
Qed.

(** The header: bytes other than the three patched fields are the input's. *)
Lemma out_lookup_header (k : nat) :
  Z.of_nat k < phoff → ¬ (28 ≤ Z.of_nat k < 36) → ¬ (44 ≤ Z.of_nat k < 46) →
  out !! k = d !! k.
Proof.
  intros Hk H1 H2. pose proof (wf_table d Hwf). pose proof len_body.
  pose proof ph_size_nonneg.
  rewrite out_lookup_outside by lia.
  rewrite rebuild_table_lookup_low by lia. rewrite rebuild_header_lookup_other by lia.
  rewrite lookup_app_l by (unfold len in *; lia).
  by apply body_lookup_head.
Qed.

Lemma out_header_field32 pos :
  0 ≤ pos → pos + 4 ≤ 52 → get32 out pos = get32 hdr pos.
Proof.
  intros Hp Hin. pose proof (wf_phoff d Hwf). pose proof (wf_table d Hwf).
  pose proof len_body. pose proof ph_size_nonneg.
  apply get32_ext; [done|]. intros k Hk.
  rewrite out_lookup_outside by lia. apply rebuild_table_lookup_low. lia.
Qed.

Lemma out_header_field16 pos :
  0 ≤ pos → pos + 2 ≤ 52 → get16 out pos = get16 hdr pos.
Proof.
  intros Hp Hin. pose proof (wf_phoff d Hwf). pose proof (wf_table d Hwf).
  pose proof len_body. pose proof ph_size_nonneg.
  apply get16_ext; [done|]. intros k Hk.
  rewrite out_lookup_outside by lia. apply rebuild_table_lookup_low. lia.
Qed.

Lemma len_appended : 52 ≤ len appended.
Proof.
  pose proof (wf_phoff d Hwf). pose proof (wf_table d Hwf).
  pose proof len_body. rewrite len_app, Htable_len. lia.
Qed.

Lemma out_phoff : e_phoff_of out = len d - ph_size.
Proof.
  pose proof len_appended. pose proof (wf_table d Hwf).
  pose proof (wf_len d Hwf). pose proof ph_size_nonneg. pose proof len_body as Hlb.
  unfold e_phoff_of at 1. rewrite out_header_field32 by lia.
  assert (get32 hdr2 28 = len d - ph_size) as Hb2.
  { rewrite get32_poke_other by (rewrite ?len_le_encode; lia).
    pose proof (len_nonneg body).
    rewrite get32_poke_same; [lia|lia|lia|unfold fits32; lia]. }
  unfold rebuild_header. cbn zeta. case_decide; [|done].
  by rewrite get32_poke_other by (rewrite ?len_le_encode; lia).
Qed.

Lemma out_phnum : e_phnum_of out = n'.
Proof.
  pose proof len_appended.
  unfold e_phnum_of. rewrite out_header_field16 by lia.
  assert (get16 hdr2 44 = n') as Hb2.
  { rewrite get16_poke_same; [done|lia|rewrite len_poke; lia|done]. }
  unfold rebuild_header. cbn zeta. case_decide; [|done].
  by rewrite get16_poke_other by (rewrite ?len_le_encode; lia).
Qed.

Lemma out_shoff : e_shoff_of out = relocate phoff ph_size shoff.
Proof.
  pose proof len_appended.
  unfold e_shoff_of at 1, relocate. rewrite out_header_field32 by lia.
  unfold rebuild_header. cbn zeta. case_decide as Hgt.
  - destruct (shoff_fits Hgt) as [Hf _].
    rewrite get32_poke_same; [done|lia|rewrite !len_poke; lia|done].
  - rewrite !get32_poke_other by (rewrite ?len_le_encode; lia).
    rewrite get32_app_l by (pose proof len_body; pose proof (wf_phoff d Hwf);
                            pose proof (wf_table d Hwf); lia).
    apply get32_ext; [lia|]. intros k Hk. apply body_lookup_head.
    pose proof (wf_phoff d Hwf). lia.
Qed.

Lemma out_header_kept16 pos :
  (pos = 42 ∨ pos = 46 ∨ pos = 48) → get16 out pos = get16 d pos.
Proof.
  intros Hpos. pose proof (wf_phoff d Hwf).
  apply get16_ext; [lia|]. intros k Hk.
  apply out_lookup_header; lia.
Qed.

Lemma out_phentsize : e_phentsize_of out = 32.
Proof.
  unfold e_phentsize_of. rewrite out_header_kept16 by lia.
  apply (wf_phentsize d Hwf).
Qed.

Lemma out_shentsize : e_shentsize_of out = e_shentsize_of d.
Proof. unfold e_shentsize_of. by rewrite out_header_kept16 by lia. Qed.

Lemma out_shnum : e_shnum_of out = e_shnum_of d.
Proof. unfold e_shnum_of. by rewrite out_header_kept16 by lia. Qed.

Lemma out_ident :
  py_slice out 0 4 = ELF_MAGIC ∧ out !! 4%nat = Some x01 ∧ out !! 5%nat = Some x01.
Proof.
  pose proof (wf_phoff d Hwf).
  split; [|split].
  - rewrite <- (wf_magic d Hwf). apply py_slice_ext; [lia..|].
    intros k Hk. apply out_lookup_header; lia.
  - rewrite <- (wf_class d Hwf). apply out_lookup_header; lia.
  - rewrite <- (wf_data d Hwf). apply out_lookup_header; lia.
Qed.

(** The relocated table. *)
Lemma out_table_field i x :
  0 ≤ i < n' → x = 0 ∨ x = 4 ∨ 8 ≤ x → x + 4 ≤ 32 →
  get32 out (len body + i * 32 + x) =
    if decide (x = 4) then relocate phoff ph_size (get32 table (i * 32 + 4))
    else get32 appended (len body + i * 32 + x).
Proof.
  intros Hi Hx Hx'. pose proof (len_nonneg body).
  rewrite (get32_ext out tbl); [|lia|intros k Hk; apply out_lookup_outside; lia].
  destruct rebuild_table_props as (_ & Hf & Hfr).
  case_decide as Hx4.
  - subst x. by rewrite <- Hf.
  - apply get32_ext; [lia|]. intros k Hk.
    rewrite Hfr; [apply rebuild_header_lookup_other; pose proof (wf_phoff d Hwf);
                  pose proof (wf_table d Hwf); pose proof len_body; lia|].
    intros j Hj. unfold field_pos. lia.
Qed.

Lemma out_entry i :
  0 ≤ i < n' →
  entry_at out (len body + i * 32) =
    relocate_seg phoff ph_size (entry_at table (i * 32)).
Proof.
  intros Hi. pose proof (len_nonneg body).
  assert (∀ x, 0 ≤ x → x + 4 ≤ 32 →
            get32 appended (len body + i * 32 + x) = get32 table (i * 32 + x)) as Htab.
  { intros x Hx Hx'. rewrite <- Z.add_assoc. apply get32_app_r. lia. }
  unfold entry_at, relocate_seg.
  cbn [p_type p_offset p_vaddr p_paddr p_filesz p_memsz p_flags p_align].
  pose proof (out_table_field i 0 Hi ltac:(lia) ltac:(lia)) as H0.
  rewrite !Z.add_0_r in H0.
  rewrite H0, !out_table_field by lia.
  rewrite !decide_False by lia. rewrite decide_True by done.
  rewrite <- (Z.add_0_r (len body + i * 32)) at 1.
  rewrite !Htab by lia. by rewrite Z.add_0_r.
Qed.

Lemma out_ph_table :
  ph_table out = relocate_seg phoff ph_size <$> parse_table table 32 n'.
Proof.
  unfold ph_table, parse_table.
  rewrite out_phoff, out_phnum, out_phentsize, <- len_body.
  rewrite <- list_fmap_compose. apply list_fmap_ext.
  intros k i Hk. apply lookup_seqZ in Hk as [-> Hk]. cbn.
  apply out_entry. lia.
Qed.

(** The section headers, when the section table lies behind the old
    program-header table. *)
Lemma out_sh_offset i :
  shoff > phoff → 0 ≤ i < e_shnum_of d →
  sh_offset_at out i = relocate_sh phoff ph_size (sh_offset_at d i).
Proof.
  intros Hgt Hi. unfold sh_offset_at at 1.
  rewrite out_shoff, out_shentsize. unfold relocate at 1.
  rewrite decide_True by done.
  rewrite rebuild_unfold. rewrite decide_True by done.
  destruct (rebuild_sections_props Hgt) as (_ & Hf & _). by apply Hf.
Qed.
End run.

(** *** From the image to the call of [merge_load_segments] *)

Lemma get32_py_slice d a c x :
  0 ≤ a → 0 ≤ x → a + x + 4 ≤ c →
  get32 (py_slice d a c) x = get32 d (a + x).
Proof.
  intros Ha Hx Hc. unfold get32. f_equal.
  rewrite py_slice_py_slice by lia. f_equal. lia.
Qed.

Lemma entry_at_py_slice d a c x :
  0 ≤ a → 0 ≤ x → a + x + 32 ≤ c →
  entry_at (py_slice d a c) x = entry_at d (a + x).
Proof.
  intros Ha Hx Hc. unfold entry_at.
  rewrite !get32_py_slice by lia. by rewrite !Z.add_assoc.
Qed.

Lemma e_phnum_nonneg d : 0 ≤ e_phnum_of d < 65536.
Proof. apply get16_bounds. Qed.

Lemma length_ph_table d : len (ph_table d) = e_phnum_of d.
Proof.
  unfold ph_table, len. rewrite length_fmap, length_seqZ.
  pose proof (e_phnum_nonneg d). lia.
Qed.

Section image.
Context (d : bytes).
Hypothesis Hwf : well_formed d.

Lemma len_old_table : len (old_table d) = 32 * e_phnum_of d.
Proof.
  unfold old_table. pose proof (wf_phoff d Hwf). pose proof (wf_table d Hwf).
  pose proof (ph_size_nonneg d Hwf).
  rewrite len_py_slice by lia. rewrite (ph_size_32 d Hwf). lia.
Qed.

Lemma parse_old_table :
  parse_table (old_table d) (e_phentsize_of d) (e_phnum_of d) = ph_table d.
Proof.
  unfold parse_table, ph_table, old_table. apply list_fmap_ext.
  intros k i Hk. apply lookup_seqZ in Hk as [-> Hk].
  pose proof (wf_phoff d Hwf). pose proof (ph_size_32 d Hwf) as Hs.
  rewrite (wf_phentsize d Hwf) in *.
  apply entry_at_py_slice; lia.
Qed.

Lemma old_table_inside i :
  0 ≤ i < e_phnum_of d → i * e_phentsize_of d + 32 ≤ len (old_table d).
Proof.
  intros Hi. rewrite len_old_table, (wf_phentsize d Hwf). lia.
Qed.

(** Sound offsets in the table of the image are sound offsets in the
    table that was cut out of it. *)
Lemma old_table_offsets i :
  offsets_ok d (ph_table d) →
  0 ≤ i < e_phnum_of d →
  get32 (old_table d) (i * 32 + 4) > e_phoff_of d →
  ph_size_of d ≤ get32 (old_table d) (i * 32 + 4).
Proof.
  intros Hoffs Hi Hgt. unfold offsets_ok in Hoffs. rewrite Forall_forall in Hoffs.
  pose proof (wf_phoff d Hwf). pose proof (ph_size_32 d Hwf).
  assert (get32 (old_table d) (i * 32 + 4) =
          p_offset (entry_at d (e_phoff_of d + i * e_phentsize_of d))) as Heq.
  { unfold old_table. rewrite get32_py_slice by lia.
    unfold entry_at. cbn. rewrite (wf_phentsize d Hwf). f_equal. lia. }
  assert (offset_ok d (get32 (old_table d) (i * 32 + 4))) as Hok.
  { rewrite Heq. apply Hoffs. unfold ph_table. apply list_elem_of_fmap.
    exists i. split; [done|]. apply elem_of_seqZ. lia. }
  unfold offset_ok in Hok. lia.
Qed.

(** Without a Storage entry or without a Code entry the program rebuilds
    the image around the table it found. *)
Lemma reorder_elf_unchanged input_file output_file σ :
  σ !! input_file = Some d →
  offsets_ok d (ph_table d) →
  storage_entries d = [] ∨ code_entries d = [] →
  exec (reorder_elf input_file output_file) σ =
    (Ok true, <[output_file := rebuild d (old_table d) (e_phnum_of d)]> σ).
Proof.
  intros Hin Hoffs Hno.
  apply reorder_elf_exec; [done|apply e_phnum_nonneg|apply len_old_table| |done|].
  - intros i. by apply old_table_offsets.
  - intros σ'. apply merge_load_segments_unchanged.
    + rewrite (wf_phentsize d Hwf). lia.
    + apply old_table_inside.
    + by rewrite parse_old_table.
Qed.
End image.

(** *** The merged entry comes from the Code entries *)

Lemma merged_offset_from cs :
  cs ≠ [] → p_offset (merged_code_seg cs) ∈ p_offset <$> cs.
Proof.
  intros Hne. destruct cs as [|c [|c' rest]]; [done|apply list_elem_of_here|].
  apply (merged_code_seg_fields (c :: c' :: rest)).
  unfold len. simpl length. lia.
Qed.

Lemma merged_vaddr_from cs :
  cs ≠ [] → p_vaddr (merged_code_seg cs) ∈ p_vaddr <$> cs.
Proof.
  intros Hne. destruct cs as [|c [|c' rest]]; [done|apply list_elem_of_here|].
  apply (merged_code_seg_fields (c :: c' :: rest)).
  unfold len. simpl length. lia.
Qed.

Lemma merged_type cs :
  cs ≠ [] → Forall is_code cs → p_type (merged_code_seg cs) = PT_LOAD.
Proof.
  intros Hne Hcs. destruct cs as [|c [|c' rest]]; [done| |done].
  apply Forall_cons in Hcs as [[? _] _]. done.
Qed.

Lemma merged_is_code cs :
  cs ≠ [] → Forall is_code cs → is_code (merged_code_seg cs).
Proof.
  intros Hne Hcs. split; [by apply merged_type|].
  pose proof (merged_vaddr_from cs Hne) as Hin.
  apply list_elem_of_fmap in Hin as (c & -> & Hc).
  rewrite Forall_forall in Hcs. by destruct (Hcs c Hc).
Qed.

Lemma merged_spans cs :
  cs ≠ [] → Forall span_ok cs → span_ok (merged_code_seg cs).
Proof.
  intros Hne Hsp. destruct cs as [|c [|c' rest]]; [done| |].
  { by apply Forall_cons in Hsp as [? _]. }
  destruct (merged_code_seg_fields (c :: c' :: rest))
    as (_ & _ & _ & _ & Hf & Hm & _).
  { unfold len. simpl length. lia. }
  rewrite Forall_forall in Hsp.
  apply is_max_of_fmap in Hf as (cf & Hcf & Hfeq & _).
  apply is_max_of_fmap in Hm as (cm & Hcm & Hmeq & _).
  unfold span_ok. rewrite Hfeq, Hmeq.
  split; [apply (Hsp cf Hcf)|apply (Hsp cm Hcm)].
Qed.

Lemma ph_table_fits d : Forall seg_fits (ph_table d).
Proof.
  unfold ph_table. apply Forall_fmap, Forall_forall. intros i _.
  apply entry_at_fits.
Qed.

Lemma filter_disjoint_length {A} (P Q : A → Prop)
    `{!∀ x, Decision (P x)} `{!∀ x, Decision (Q x)} (l : list A) :
  (∀ x, P x → Q x → False) →
  (length (filter P l) + length (filter Q l) ≤ length l)%nat.
Proof.
  intros Hdisj. induction l as [|x l IH]; [done|].
  destruct (decide (P x)) as [HP|HP]; destruct (decide (Q x)) as [HQ|HQ].
  - by destruct (Hdisj x).
  - rewrite (filter_cons_True P) by done. rewrite (filter_cons_False Q) by done.
    simpl. lia.
  - rewrite (filter_cons_False P) by done. rewrite (filter_cons_True Q) by done.
    simpl. lia.
  - rewrite (filter_cons_False P) by done. rewrite (filter_cons_False Q) by done.
    simpl. lia.
Qed.

(** *** Valid inputs *)

Section valid.
Context (d : bytes) (st : segment).
Hypothesis Hv : valid_input d st.

Local Abbreviation phoff := (e_phoff_of d).
Local Abbreviation ph_size := (ph_size_of d).
Local Abbreviation codes := (code_entries d).
Local Abbreviation mc := (merged_code_seg (code_entries d)).
Local Abbreviation out := (rebuild d (new_table d st) 2).

Lemma valid_wf : well_formed d.
Proof. apply (vi_wf d st Hv). Qed.

Lemma storage_is_storage : st ∈ ph_table d ∧ is_storage st.
Proof.
  assert (st ∈ storage_entries d) as Hin
    by (rewrite (vi_storage d st Hv); apply list_elem_of_here).
  apply list_elem_of_filter in Hin. tauto.
Qed.

Lemma storage_last : last (filter is_storage (ph_table d)) = Some st.
Proof. fold (storage_entries d). by rewrite (vi_storage d st Hv). Qed.

Lemma codes_are_code : Forall is_code codes.
Proof.
  apply Forall_forall. intros c Hc. by apply list_elem_of_filter in Hc as [? _].
Qed.

Lemma codes_fit : Forall seg_fits codes.
Proof.
  apply Forall_forall. intros c Hc. apply list_elem_of_filter in Hc as [_ Hc].
  pose proof (ph_table_fits d) as Hall. rewrite Forall_forall in Hall. by apply Hall.
Qed.

Lemma storage_fits : seg_fits st.
Proof.
  pose proof (ph_table_fits d) as Hall. rewrite Forall_forall in Hall.
  apply Hall, storage_is_storage.
Qed.

Lemma merged_fits : seg_fits mc.
Proof.
  apply merged_code_seg_fits;
    [apply (vi_code d st Hv)|apply codes_fit|apply codes_are_code
    |apply (vi_spans d st Hv)].
Qed.

Lemma merged_offset_ok : offset_ok d (p_offset mc).
Proof.
  pose proof (merged_offset_from codes (vi_code d st Hv)) as Hin.
  apply list_elem_of_fmap in Hin as (c & -> & Hc).
  pose proof (vi_offsets d st Hv) as Hoffs. unfold offsets_ok in Hoffs.
  rewrite Forall_forall in Hoffs. apply Hoffs. by apply list_elem_of_further.
Qed.

Lemma storage_offset_ok : offset_ok d (p_offset st).
Proof.
  pose proof (vi_offsets d st Hv) as Hoffs. unfold offsets_ok in Hoffs.
  rewrite Forall_forall in Hoffs. apply Hoffs, list_elem_of_here.
Qed.

Lemma two_entries : 2 ≤ e_phnum_of d.
Proof.
  rewrite <- length_ph_table.
  pose proof (filter_disjoint_length is_storage is_code (ph_table d)) as Hlen.
  fold (storage_entries d) in Hlen. fold (code_entries d) in Hlen.
  rewrite (vi_storage d st Hv) in Hlen.
  pose proof (vi_code d st Hv) as Hne.
  destruct codes as [|c cs] eqn:E; [done|].
  simpl in Hlen. unfold len.
  assert (∀ x, is_storage x → is_code x → False) as Hd
    by (intros x [_ ?] [_ ?]; done).
  specialize (Hlen Hd). lia.
Qed.

Lemma len_new_table : len (new_table d st) = 32 * 2.
Proof. unfold new_table. by rewrite len_app, !len_seg_bytes. Qed.

Lemma parse_new_table : parse_table (new_table d st) 32 2 = [st; mc].
Proof.
  unfold parse_table, new_table.
  change (seqZ 0 2) with [0; 1]. cbn [fmap list_fmap].
  f_equal; [|f_equal].
  - apply entry_at_seg_bytes, storage_fits.
  - change (1 * 32) with (32 + 0). rewrite <- (len_seg_bytes st).
    rewrite entry_at_app_r by lia.
    rewrite <- (app_nil_r (seg_bytes mc)).
    apply entry_at_seg_bytes, merged_fits.
Qed.

Lemma valid_merge_exec σ :
  exec (merge_load_segments (old_table d) (e_phentsize_of d) (e_phnum_of d)) σ =
    (Ok (new_table d st, 2), σ).
Proof.
  pose proof valid_wf as Hwf.
  assert (32 ≤ e_phentsize_of d) as He by (rewrite (wf_phentsize d Hwf); lia).
  rewrite (merge_load_segments_merged (old_table d) (e_phentsize_of d)
             (e_phnum_of d) He (old_table_inside d Hwf) st).
  - by rewrite (parse_old_table d Hwf).
  - rewrite (parse_old_table d Hwf). apply storage_last.
  - rewrite (parse_old_table d Hwf). apply (vi_code d st Hv).
  - rewrite (parse_old_table d Hwf). apply (vi_spans d st Hv).
Qed.

Lemma new_table_offsets i :
  0 ≤ i < 2 →
  get32 (new_table d st) (i * 32 + 4) > phoff →
  ph_size ≤ get32 (new_table d st) (i * 32 + 4).
Proof.
  intros Hi. pose proof parse_new_table as Hp. unfold parse_table in Hp.
  change (seqZ 0 2) with [0; 1] in Hp. cbn [fmap list_fmap] in Hp.
  injection Hp as H0 H1.
  pose proof (wf_phoff d valid_wf).
  assert (i = 0 ∨ i = 1) as [->| ->] by lia.
  - change (get32 (new_table d st) (0 * 32 + 4))
      with (p_offset (entry_at (new_table d st) (0 * 32))).
    rewrite H0. pose proof storage_offset_ok as Hok. unfold offset_ok in Hok. lia.
  - change (get32 (new_table d st) (1 * 32 + 4))
      with (p_offset (entry_at (new_table d st) (1 * 32))).
    rewrite H1. pose proof merged_offset_ok as Hok. unfold offset_ok in Hok. lia.
Qed.

(** The run on a valid input. *)
Lemma reorder_elf_valid input_file output_file σ :
  σ !! input_file = Some d →
  exec (reorder_elf input_file output_file) σ =
    (Ok true, <[output_file := out]> σ).
Proof.
  intros Hin.
  apply reorder_elf_exec;
    [apply valid_wf|lia|apply len_new_table|apply new_table_offsets|done|].
  apply valid_merge_exec.
Qed.

Lemma valid_out_table :
  ph_table out = [relocate_seg phoff ph_size st; relocate_seg phoff ph_size mc].
Proof.
  rewrite (out_ph_table d _ 2 valid_wf ltac:(lia) len_new_table new_table_offsets).
  by rewrite parse_new_table.
Qed.

Lemma valid_out_len : len out = len d - ph_size + 64.
Proof.
  rewrite (len_out d _ 2 valid_wf ltac:(lia) len_new_table new_table_offsets). lia.
Qed.

Lemma valid_out_phoff : e_phoff_of out = len d - ph_size.
Proof.
  apply (out_phoff d _ 2 valid_wf ltac:(lia) len_new_table new_table_offsets).
Qed.

Lemma valid_out_phnum : e_phnum_of out = 2.
Proof.
  apply (out_phnum d _ 2 valid_wf ltac:(lia) len_new_table new_table_offsets).
Qed.

(** *** The output of a valid input is again a valid input *)

Lemma relocated_offset v :
  offset_ok d v → 0 ≤ v →
  0 ≤ relocate phoff ph_size v ≤ v ∧ relocate phoff ph_size v ≤ len d - ph_size.
Proof.
  intros Hok Hv0. pose proof (wf_phoff d valid_wf). pose proof (wf_table d valid_wf).
  pose proof (ph_size_nonneg d valid_wf).
  unfold offset_ok in Hok. unfold relocate. case_decide; lia.
Qed.

Lemma out_well_formed : well_formed out.
Proof.
  pose proof valid_wf as Hwf.
  pose proof (wf_phoff d Hwf). pose proof (wf_table d Hwf). pose proof (wf_len d Hwf).
  pose proof (ph_size_32 d Hwf). pose proof two_entries.
  pose proof valid_out_len. pose proof valid_out_phoff as Hphoff.
  pose proof valid_out_phnum as Hphnum.
  pose proof (out_phentsize d _ 2 Hwf ltac:(lia) len_new_table new_table_offsets) as Hent.
  destruct (out_ident d _ 2 Hwf ltac:(lia) len_new_table new_table_offsets)
    as (Hmagic & Hclass & Hdata).
  split; try done; try lia.
  - unfold ph_size_of. rewrite Hent, Hphnum. lia.
  - intros Hgt. exfalso.
    rewrite (out_shoff d _ 2 Hwf ltac:(lia) len_new_table new_table_offsets) in Hgt.
    rewrite Hphoff in Hgt. unfold relocate in Hgt.
    case_decide as Hs; [|lia].
    destruct (wf_sections d Hwf Hs) as (_ & Hw & Hin & _).
    pose proof (get16_bounds d 48). unfold e_shnum_of in *. nia.
Qed.

Lemma out_valid : valid_input out (relocate_seg phoff ph_size st).
Proof.
  pose proof valid_wf as Hwf.
  destruct storage_is_storage as [_ [Hst_t Hst_v]].
  destruct (merged_is_code codes (vi_code d st Hv) codes_are_code) as [Hmc_t Hmc_v].
  pose proof storage_fits as (_ & [Hso _] & _).
  pose proof merged_fits as (_ & [Hmo _] & _ & _ & [Hmf _] & [Hmm _] & _).
  pose proof (relocated_offset _ storage_offset_ok Hso) as [Hs1 Hs2].
  pose proof (relocated_offset _ merged_offset_ok Hmo) as [Hm1 Hm2].
  destruct (merged_spans codes (vi_code d st Hv) (vi_spans d st Hv)) as [Hsp1 Hsp2].
  split.
  - apply out_well_formed.
  - unfold storage_entries. rewrite valid_out_table.
    rewrite filter_cons_True by done.
    rewrite filter_cons_False by (intros [_ ?]; done). done.
  - unfold code_entries. rewrite valid_out_table.
    rewrite filter_cons_False by (intros [_ ?]; done).
    by rewrite filter_cons_True by done.
  - unfold code_entries. rewrite valid_out_table.
    rewrite filter_cons_False by (intros [_ ?]; done).
    rewrite filter_cons_True by done. rewrite filter_nil.
    unfold offsets_ok, offset_ok. rewrite valid_out_phoff.
    repeat constructor; cbn; lia.
  - unfold code_entries. rewrite valid_out_table.
    rewrite filter_cons_False by (intros [_ ?]; done).
    rewrite filter_cons_True by done. rewrite filter_nil.
    unfold span_ok in *. repeat constructor; cbn; unfold fits32 in *; lia.
Qed.
End valid.

(** *** The sample images *)

(** The conditions are decidable, so for a concrete image they are settled
    by evaluation. *)
Ltac by_decision := apply (bool_decide_unpack _); vm_compute; exact I.

Lemma sample_image_valid : valid_input sample_image sample_storage.
Proof. by_decision. Qed.

Lemma single_code_image_valid : valid_input single_code_image sample_storage.
Proof. by_decision. Qed.

Lemma sections_first_image_valid :
  valid_input sections_first_image (Segment 1 156 0 0 4 4 4 4).
Proof. by_decision. Qed.

Lemma scenario_image_valid : valid_input scenario_image scenario_storage.
Proof. by_decision. Qed.

Lemma no_storage_image_wf : well_formed no_storage_image.
Proof. by_decision. Qed.

Lemma no_storage_image_offsets :
  offsets_ok no_storage_image (ph_table no_storage_image).
Proof. by_decision. Qed.

Lemma no_storage_image_storage : storage_entries no_storage_image = [].
Proof. by_decision. Qed.

(** *** What a run prints *)

Lemma printed_bind_l {A B} (m : M A) (k : A → M B) σ x :
  x ∈ printed m σ → x ∈ printed (m ≫= k) σ.
Proof. intros H. rewrite printed_bind. apply elem_of_app. by left. Qed.

Lemma printed_bind_r {A B} (m : M A) (k : A → M B) σ a σ1 x :
  exec m σ = (Ok a, σ1) → x ∈ printed (k a) σ1 → x ∈ printed (m ≫= k) σ.
Proof.
  intros He H. rewrite printed_bind, He. apply elem_of_app. by right.
Qed.

Lemma printed_print x σ : printed (print x) σ = [x].
Proof. done. Qed.

Lemma byte_val_inj b1 b2 : byte_val b1 = byte_val b2 → b1 = b2.
Proof.
  intros H. rewrite <- (byte_of_val b1), <- (byte_of_val b2). by rewrite H.
Qed.

Lemma byte_val_one b : byte_val b = 1 ↔ b = x01.
Proof.
  split; [|by intros ->]. intros H. by apply byte_val_inj.
Qed.

(** *** Validation *)

(** A wrong signature is reported whatever the length of the file. *)
Lemma bad_magic_rejected σ input_file output_file d :
  σ !! input_file = Some d →
  py_slice d 0 4 ≠ ELF_MAGIC →
  exec (reorder_elf input_file output_file) σ = (Ok false, σ) ∧
  printed (reorder_elf input_file output_file) σ = [MsgNotElf].
Proof.
  intros Hin Hm. unfold reorder_elf.
  rewrite exec_bind, printed_bind, (exec_open_read _ _ _ Hin).
  assert (printed (open_read input_file) σ = []) as ->
    by (unfold printed, open_read; by rewrite Hin).
  cbn [app]. rewrite decide_True by done.
  split; [by exec_steps|]. by rewrite printed_bind, printed_print, exec_print.
Qed.

(** Behind a good signature, the class and the endianness are checked once
    both bytes have been read. *)
Lemma bad_ident_rejected σ input_file output_file d c e :
  σ !! input_file = Some d →
  py_slice d 0 4 = ELF_MAGIC →
  d !! 4%nat = Some c → d !! 5%nat = Some e →
  c ≠ x01 ∨ e ≠ x01 →
  exec (reorder_elf input_file output_file) σ = (Ok false, σ) ∧
  printed (reorder_elf input_file output_file) σ =
    [if decide (c ≠ x01) then MsgOnly32 else MsgOnlyLittleEndian].
Proof.
  intros Hin Hm Hc He Hbad. unfold reorder_elf.
  rewrite exec_bind, printed_bind, (exec_open_read _ _ _ Hin).
  assert (printed (open_read input_file) σ = []) as ->
    by (unfold printed, open_read; by rewrite Hin).
  cbn [app]. rewrite decide_False by (intros Hne; by apply Hne).
  rewrite exec_bind, printed_bind, exec_lift.
  rewrite (py_getitem_lookup d 4 c ltac:(lia) Hc).
  rewrite exec_bind, printed_bind, exec_lift.
  rewrite (py_getitem_lookup d 5 e ltac:(lia) He).
  cbn [app printed lift fst].
  destruct (decide (c ≠ x01)) as [Hc1|Hc1].
  { rewrite decide_True by (by rewrite byte_val_one).
    split; [by exec_steps|]. by rewrite printed_bind, printed_print, exec_print. }
  rewrite decide_False by (rewrite byte_val_one; done).
  assert (e ≠ x01) as He1 by (destruct Hbad as [?|?]; done).
  rewrite decide_True by (by rewrite byte_val_one).
  split; [by exec_steps|]. by rewrite printed_bind, printed_print, exec_print.
Qed.

(** *** The warning for a missing Storage entry *)

Lemma merge_warns_no_storage d σ :
  well_formed d → storage_entries d = [] →
  MsgNoStorage ∈
    printed (merge_load_segments (old_table d) (e_phentsize_of d) (e_phnum_of d)) σ.
Proof.
  intros Hwf Hno. unfold merge_load_segments.
  eapply printed_bind_r.
  { apply parse_loop_exec; [rewrite (wf_phentsize d Hwf); lia|].
    apply (old_table_inside d Hwf). }
  rewrite (parse_old_table d Hwf), classify_spec.
  fold (storage_entries d). rewrite Hno. cbn [last].
  apply printed_bind_l. rewrite printed_print. apply list_elem_of_here.
Qed.

Lemma reorder_elf_warns_no_storage σ input_file output_file d :
  σ !! input_file = Some d → well_formed d → storage_entries d = [] →
  MsgNoStorage ∈ printed (reorder_elf input_file output_file) σ.
Proof.
  intros Hin Hwf Hno. unfold reorder_elf.
  eapply printed_bind_r; [by apply exec_open_read|].
  rewrite decide_False by (intros Hne; apply Hne, (wf_magic d Hwf)).
  eapply printed_bind_r.
  { rewrite exec_lift, (py_getitem_lookup d 4 x01 ltac:(lia) (wf_class d Hwf)). done. }
  eapply printed_bind_r.
  { rewrite exec_lift, (py_getitem_lookup d 5 x01 ltac:(lia) (wf_data d Hwf)). done. }
  rewrite !(decide_False (P := byte_val x01 ≠ 1)) by (intros Hne; by apply Hne).
  destruct (read_header d Hwf) as (R1 & R2 & R3 & R4 & R5 & R6).
  cbn zeta.
  eapply printed_bind_r; [by rewrite exec_lift, R1|].
  eapply printed_bind_r; [by rewrite exec_lift, R2|].
  eapply printed_bind_r; [by rewrite exec_lift, R3|].
  eapply printed_bind_r; [by rewrite exec_lift, R4|].
  eapply printed_bind_r; [by rewrite exec_lift, R5|].
  eapply printed_bind_r; [by rewrite exec_lift, R6|].
  do 6 (eapply printed_bind_r; [apply exec_print|]).
  apply printed_bind_l. by apply merge_warns_no_storage.
Qed.

Lemma main_exec prog input_file output_file σ r σ' :
  exec (reorder_elf input_file output_file) σ = (r, σ') →
  exec (main [prog; input_file; output_file]) σ =
    (match r with
     | Ok true => Ok 0
     | Ok false => Ok 1
     | Raise e => Raise e
     end, σ').
Proof.
  intros Hrun. unfold main.
  rewrite decide_False by (intros Hne; by apply Hne).
  rewrite exec_bind, exec_lift.
  rewrite (py_getitem_lookup [prog; input_file; output_file] 1 input_file
             ltac:(lia) eq_refl).
  rewrite exec_bind, exec_lift.
  rewrite (py_getitem_lookup [prog; input_file; output_file] 2 output_file
             ltac:(lia) eq_refl).
  rewrite exec_bind, Hrun.
  destruct r as [[|]|e]; [by exec_steps..|done].
Qed.

(** *** The merged entry, field by field *)

(** What the entry the merge returns holds, whether it comes from one Code
    entry or from several. *)
Lemma merged_code_seg_spec cs :
  cs ≠ [] → Forall is_code cs →
  let mc := merged_code_seg cs in
  p_type mc = PT_LOAD ∧
  is_min_of (p_offset mc) (p_offset <$> cs) ∧
  is_min_of (p_vaddr mc) (p_vaddr <$> cs) ∧
  is_max_of (p_offset mc + p_filesz mc) ((λ s, p_offset s + p_filesz s) <$> cs) ∧
  is_max_of (p_vaddr mc + p_memsz mc) ((λ s, p_vaddr s + p_memsz s) <$> cs) ∧
  (∀ k, Z.testbit (p_flags mc) k = existsb (λ s, Z.testbit (p_flags s) k) cs) ∧
  (2 ≤ len cs → p_paddr mc = p_vaddr mc ∧ p_align mc = 4) ∧
  (∀ c, cs = [c] → mc = c).
Proof.
  intros Hne Hcode. destruct cs as [|c [|c' rest]]; [done| |].
  - cbn zeta. cbn [merged_code_seg].
    apply Forall_cons in Hcode as [[Ht _] _].
    assert (∀ x : Z, is_min_of x [x]) as Hmin.
    { intros x. split; [apply list_elem_of_here|].
      intros y Hy. apply list_elem_of_singleton in Hy. lia. }
    assert (∀ x : Z, is_max_of x [x]) as Hmax.
    { intros x. split; [apply list_elem_of_here|].
      intros y Hy. apply list_elem_of_singleton in Hy. lia. }
    split; [done|]. split; [apply Hmin|]. split; [apply Hmin|].
    split; [apply Hmax|]. split; [apply Hmax|].
    split; [intros k; cbn [existsb]; by rewrite orb_false_r|].
    split; [intros Hl; unfold len in Hl; cbn [length] in Hl; lia|].
    by intros c0 [= ->].
  - destruct (merged_code_seg_fields (c :: c' :: rest))
      as (Ht & Ho & Hv & Hp & Hf & Hm & Hfl & Hal).
    { unfold len. cbn [length]. lia. }
    cbn zeta. do 5 (split; [done|]).
    split; [intros k; rewrite Hfl; apply or_flags_testbit|].
    split; [done|]. intros c0 Heq. discriminate Heq.
Qed.

(** ** The scenario of the specification *)

(** The run on the scenario image: two program headers, the table at
    originalFileSize - 96, the merged code entry of offset 0x200 (0x1A0 once
    the 96 bytes of the old table are gone), vaddr 0x1000, filesz 0x400 and
    memsz 0x400. *)
Example scenario_run :
  ∃ out,
    exec (reorder_elf "in.elf" "out.stldr") (sample_fs scenario_image) =
      (Ok true, <["out.stldr" := out]> (sample_fs scenario_image)) ∧
    merged_code_seg (code_entries scenario_image) =
      Segment 1 512 4096 4096 1024 1024 7 4 ∧
    e_phnum_of out = 2 ∧
    e_phoff_of out = len scenario_image - 96 ∧
    ph_table out = [Segment 1 52 0 0 64 64 4 4;
                    Segment 1 416 4096 4096 1024 1024 7 4].
Proof.
  exists (rebuild scenario_image (new_table scenario_image scenario_storage) 2).
  split; [by apply (reorder_elf_valid _ _ scenario_image_valid)|].
  repeat split; by vm_compute.
Qed.

(** ** The claims *)

(** C1, as stated, fails: on an image without a Storage entry the transform
    returns success and creates the destination file. *)
Lemma missing_storage_output_written :
  storage_entries no_storage_image = [] ∧
  sample_fs no_storage_image !! "out.stldr" = None ∧
  (exec (reorder_elf "in.elf" "out.stldr") (sample_fs no_storage_image)).1 = Ok true ∧
  is_Some ((exec (reorder_elf "in.elf" "out.stldr") (sample_fs no_storage_image)).2
             !! "out.stldr").
Proof.
  split; [by vm_compute|]. split; [by vm_compute|]. split; [by vm_compute|].
  vm_compute. eexists. reflexivity.
Qed.

(** C1, amended: on a well-formed image without a Storage entry the
    transform prints the warning for the missing segment and goes on: it
    returns success and writes to the destination an image of the same
    length that still announces the original number of program headers. *)
Theorem missing_storage_warns_and_writes σ input_file output_file d :
  σ !! input_file = Some d →
  well_formed d →
  offsets_ok d (ph_table d) →
  storage_entries d = [] →
  MsgNoStorage ∈ printed (reorder_elf input_file output_file) σ ∧
  ∃ out,
    exec (reorder_elf input_file output_file) σ =
      (Ok true, <[output_file := out]> σ) ∧
    len out = len d ∧
    e_phnum_of out = e_phnum_of d.
Proof.
  intros Hin Hwf Hoffs Hno.
  split; [by apply (reorder_elf_warns_no_storage _ _ _ d)|].
  exists (rebuild d (old_table d) (e_phnum_of d)).
  assert (∀ i, 0 ≤ i < e_phnum_of d →
            get32 (old_table d) (i * 32 + 4) > e_phoff_of d →
            ph_size_of d ≤ get32 (old_table d) (i * 32 + 4)) as Htab.
  { intros i. by apply old_table_offsets. }
  split; [apply (reorder_elf_unchanged d Hwf); auto|].
  split.
  - rewrite (len_out d _ _ Hwf (e_phnum_nonneg d) (len_old_table d Hwf) Htab).
    rewrite (ph_size_32 d Hwf). lia.
  - apply (out_phnum d _ _ Hwf (e_phnum_nonneg d) (len_old_table d Hwf) Htab).
Qed.

Lemma missing_storage_warns_and_writes_witness :
  sample_fs no_storage_image !! "in.elf" = Some no_storage_image ∧
  well_formed no_storage_image ∧
  offsets_ok no_storage_image (ph_table no_storage_image) ∧
  storage_entries no_storage_image = [] ∧
  MsgNoStorage ∈ printed (reorder_elf "in.elf" "out.stldr") (sample_fs no_storage_image) ∧
  ∃ out,
    exec (reorder_elf "in.elf" "out.stldr") (sample_fs no_storage_image) =
      (Ok true, <["out.stldr" := out]> (sample_fs no_storage_image)) ∧
    len out = len no_storage_image ∧
    e_phnum_of out = e_phnum_of no_storage_image.
Proof.
  split; [reflexivity|]. split; [exact no_storage_image_wf|].
  split; [exact no_storage_image_offsets|].
  split; [exact no_storage_image_storage|].
  exact (missing_storage_warns_and_writes (sample_fs no_storage_image)
           "in.elf" "out.stldr" no_storage_image eq_refl no_storage_image_wf
           no_storage_image_offsets no_storage_image_storage).
Defined.

(** C2, as stated, fails, on the scenario of the specification itself: the
    input has 1536 bytes and three entries of 32 bytes, and the header of
    the output announces the table at 1440 = 1536 - 3 * 32, as the scenario
    expects, and not at 1536 - (3 - 2) * 32 = 1504. *)
Lemma phoff_formula_fails :
  valid_input scenario_image scenario_storage ∧
  len scenario_image = 1536 ∧
  e_phnum_of scenario_image = 3 ∧
  e_phentsize_of scenario_image = 32 ∧
  ∃ out,
    exec (reorder_elf "in.elf" "out.stldr") (sample_fs scenario_image) =
      (Ok true, <["out.stldr" := out]> (sample_fs scenario_image)) ∧
    e_phoff_of out = 1440 ∧
    e_phoff_of out ≠
      len scenario_image
      - (e_phnum_of scenario_image - 2) * e_phentsize_of scenario_image.
Proof.
  split; [apply scenario_image_valid|].
  do 3 (split; [by vm_compute|]).
  exists (rebuild scenario_image (new_table scenario_image scenario_storage) 2).
  split; [by apply (reorder_elf_valid _ _ scenario_image_valid)|].
  split; by vm_compute.
Qed.

(** C2, amended: for every valid input the phoff written into the output
    header is the input length minus the size of the whole original table,
    inputFileSize - phnum_in * phentsize. *)
Theorem output_phoff σ input_file output_file d st :
  σ !! input_file = Some d →
  valid_input d st →
  ∃ out,
    exec (reorder_elf input_file output_file) σ =
      (Ok true, <[output_file := out]> σ) ∧
    e_phoff_of out = len d - e_phnum_of d * e_phentsize_of d.
Proof.
  intros Hin Hv. exists (rebuild d (new_table d st) 2).
  split; [by apply reorder_elf_valid|].
  rewrite (valid_out_phoff d st Hv). unfold ph_size_of. lia.
Qed.

Lemma output_phoff_witness :
  sample_fs sample_image !! "in.elf" = Some sample_image ∧
  valid_input sample_image sample_storage ∧
  ∃ out,
    exec (reorder_elf "in.elf" "out.stldr") (sample_fs sample_image) =
      (Ok true, <["out.stldr" := out]> (sample_fs sample_image)) ∧
    e_phoff_of out = len sample_image - e_phnum_of sample_image * e_phentsize_of sample_image.
Proof.
  split; [reflexivity|]. split; [exact sample_image_valid|].
  exact (output_phoff (sample_fs sample_image) "in.elf" "out.stldr"
           sample_image sample_storage eq_refl sample_image_valid).
Defined.

(** C3, as stated, fails: the only Code entry of this image has vaddr 4096,
    paddr 8192 and alignment 16, and the entry written to the output keeps
    paddr 8192 and alignment 16. *)
Lemma single_code_not_normalised :
  valid_input single_code_image sample_storage ∧
  code_entries single_code_image = [sample_code1] ∧
  ∃ out entry,
    exec (reorder_elf "in.elf" "out.stldr") (sample_fs single_code_image) =
      (Ok true, <["out.stldr" := out]> (sample_fs single_code_image)) ∧
    ph_table out !! 1%nat = Some entry ∧
    p_vaddr entry = 4096 ∧ p_paddr entry = 8192 ∧ p_align entry = 16.
Proof.
  split; [apply single_code_image_valid|]. split; [by vm_compute|].
  exists (rebuild single_code_image (new_table single_code_image sample_storage) 2).
  exists (Segment 1 56 4096 8192 4 4 5 16).
  split; [by apply (reorder_elf_valid _ _ single_code_image_valid)|].
  split; [by vm_compute|done].
Qed.

(** C3, amended: for every valid input with exactly one Code entry, the
    code entry written to the output is that entry with its file offset
    relocated: its paddr and its alignment are the entry's original values
    (the merge rule is not applied to a single Code entry). *)
Theorem single_code_entry_kept σ input_file output_file d st c :
  σ !! input_file = Some d →
  valid_input d st →
  code_entries d = [c] →
  ∃ out entry,
    exec (reorder_elf input_file output_file) σ =
      (Ok true, <[output_file := out]> σ) ∧
    ph_table out !! 1%nat = Some entry ∧
    entry = relocate_seg (e_phoff_of d) (ph_size_of d) c ∧
    p_paddr entry = p_paddr c ∧ p_align entry = p_align c.
Proof.
  intros Hin Hv Hc.
  exists (rebuild d (new_table d st) 2),
         (relocate_seg (e_phoff_of d) (ph_size_of d) c).
  split; [by apply reorder_elf_valid|].
  split; [|done].
  rewrite (valid_out_table d st Hv), Hc. done.
Qed.

Lemma single_code_entry_kept_witness :
  sample_fs single_code_image !! "in.elf" = Some single_code_image ∧
  valid_input single_code_image sample_storage ∧
  code_entries single_code_image = [sample_code1] ∧
  ∃ out entry,
    exec (reorder_elf "in.elf" "out.stldr") (sample_fs single_code_image) =
      (Ok true, <["out.stldr" := out]> (sample_fs single_code_image)) ∧
    ph_table out !! 1%nat = Some entry ∧
    entry = relocate_seg (e_phoff_of single_code_image)
              (ph_size_of single_code_image) sample_code1 ∧
    p_paddr entry = p_paddr sample_code1 ∧ p_align entry = p_align sample_code1.
Proof.
  assert (code_entries single_code_image = [sample_code1]) as Hc
    by (vm_compute; reflexivity).
  split; [reflexivity|]. split; [exact single_code_image_valid|].
  split; [exact Hc|].
  exact (single_code_entry_kept (sample_fs single_code_image) "in.elf" "out.stldr"
           single_code_image sample_storage sample_code1
           eq_refl single_code_image_valid Hc).
Defined.

(** C4 fails in the code.  In this image the section table lies in front
    of the program-header table; its one section has data offset 160, greater
    than phoff = 92 and not the sentinel.  The run succeeds: the four bytes
    that stood at 160 stand at 96 in the output, and the Code entry that
    announced them at 160 announces them at 96; but the section header still
    says 160, where the claim asks for 160 - 64. *)
Lemma section_offset_not_patched :
  valid_input sections_first_image (Segment 1 156 0 0 4 4 4 4) ∧
  e_phoff_of sections_first_image = 92 ∧
  ph_size_of sections_first_image = 64 ∧
  sh_offset_at sections_first_image 0 = 160 ∧
  py_slice sections_first_image 160 164 = [x22; x22; x22; x22] ∧
  ∃ out,
    exec (reorder_elf "in.elf" "out.stldr") (sample_fs sections_first_image) =
      (Ok true, <["out.stldr" := out]> (sample_fs sections_first_image)) ∧
    sh_offset_at out 0 = 160 ∧
    py_slice out 96 100 = [x22; x22; x22; x22] ∧
    p_offset <$> ph_table out = [92; 96].
Proof.
  split; [apply sections_first_image_valid|].
  do 4 (split; [by vm_compute|]).
  exists (rebuild sections_first_image
            (new_table sections_first_image (Segment 1 156 0 0 4 4 4 4)) 2).
  split; [by apply (reorder_elf_valid _ _ sections_first_image_valid)|].
  split; [by vm_compute|]. split; by vm_compute.
Qed.

(** C5: for every valid input with two or more Code entries,
    merge_load_segments returns a table of two entries whose second entry,
    the merged code entry, has type loadable, offset the minimum of the Code
    offsets, vaddr = paddr the minimum of the Code vaddrs, filesz the maximum
    of offset+filesz minus the minimum offset, memsz the maximum of
    vaddr+memsz minus the minimum vaddr, and flags the bitwise OR of all
    Code flags. *)
Theorem merged_code_entry σ d st :
  valid_input d st →
  2 ≤ len (code_entries d) →
  ∃ table mc max_end_file max_end_mem,
    exec (merge_load_segments (old_table d) (e_phentsize_of d) (e_phnum_of d)) σ =
      (Ok (table, 2), σ) ∧
    entry_at table 32 = mc ∧
    p_type mc = PT_LOAD ∧
    is_min_of (p_offset mc) (p_offset <$> code_entries d) ∧
    is_min_of (p_vaddr mc) (p_vaddr <$> code_entries d) ∧
    p_paddr mc = p_vaddr mc ∧
    is_max_of max_end_file ((λ s, p_offset s + p_filesz s) <$> code_entries d) ∧
    p_filesz mc = max_end_file - p_offset mc ∧
    is_max_of max_end_mem ((λ s, p_vaddr s + p_memsz s) <$> code_entries d) ∧
    p_memsz mc = max_end_mem - p_vaddr mc ∧
    ∀ k, Z.testbit (p_flags mc) k =
         existsb (λ s, Z.testbit (p_flags s) k) (code_entries d).
Proof.
  intros Hv Hlen.
  set (mc := merged_code_seg (code_entries d)).
  destruct (merged_code_seg_fields (code_entries d) Hlen)
    as (Ht & Ho & Hva & Hpa & Hf & Hm & Hfl & _).
  exists (new_table d st), mc, (p_offset mc + p_filesz mc), (p_vaddr mc + p_memsz mc).
  split; [apply (valid_merge_exec d st Hv)|].
  split.
  { pose proof (parse_new_table d st Hv) as Hp. unfold parse_table in Hp.
    change (seqZ 0 2) with [0; 1] in Hp. cbn [fmap list_fmap] in Hp.
    injection Hp as _ Hp. exact Hp. }
  repeat split; try done; try apply Ho; try apply Hva; try apply Hf; try apply Hm;
    try lia.
  intros k. fold mc in Hfl. rewrite Hfl. apply or_flags_testbit.
Qed.

Lemma merged_code_entry_witness :
  valid_input sample_image sample_storage ∧
  2 ≤ len (code_entries sample_image) ∧
  ∃ table mc max_end_file max_end_mem,
    exec (merge_load_segments (old_table sample_image)
            (e_phentsize_of sample_image) (e_phnum_of sample_image)) ∅ =
      (Ok (table, 2), ∅) ∧
    entry_at table 32 = mc ∧
    p_type mc = PT_LOAD ∧
    is_min_of (p_offset mc) (p_offset <$> code_entries sample_image) ∧
    is_min_of (p_vaddr mc) (p_vaddr <$> code_entries sample_image) ∧
    p_paddr mc = p_vaddr mc ∧
    is_max_of max_end_file
      ((λ s, p_offset s + p_filesz s) <$> code_entries sample_image) ∧
    p_filesz mc = max_end_file - p_offset mc ∧
    is_max_of max_end_mem
      ((λ s, p_vaddr s + p_memsz s) <$> code_entries sample_image) ∧
    p_memsz mc = max_end_mem - p_vaddr mc ∧
    ∀ k, Z.testbit (p_flags mc) k =
         existsb (λ s, Z.testbit (p_flags s) k) (code_entries sample_image).
Proof.
  assert (2 ≤ len (code_entries sample_image)) as Hlen
    by (vm_compute; discriminate).
  split; [exact sample_image_valid|]. split; [exact Hlen|].
  exact (merged_code_entry ∅ sample_image sample_storage sample_image_valid Hlen).
Defined.

(** C6: for every valid input the output announces exactly two program
    headers; the table at the announced position holds the Storage entry
    first and the merged code entry second, each with its file offset
    relocated; and the output is (oldPhnum - 2) * phentsize bytes shorter
    than the input.  The merged code entry is told by its fields: it is
    loadable, its offset and its vaddr are the minima over the Code entries,
    its filesz and memsz reach from there to the maxima of offset+filesz and
    of vaddr+memsz, its flags are the bitwise OR of the Code flags; with two
    or more Code entries its paddr is its vaddr and its alignment is 4, and
    with a single Code entry it is that entry. *)
Theorem output_layout σ input_file output_file d st :
  σ !! input_file = Some d →
  valid_input d st →
  ∃ out mc max_end_file max_end_mem,
    exec (reorder_elf input_file output_file) σ =
      (Ok true, <[output_file := out]> σ) ∧
    e_phnum_of out = 2 ∧
    ph_table out = [relocate_seg (e_phoff_of d) (ph_size_of d) st;
                    relocate_seg (e_phoff_of d) (ph_size_of d) mc] ∧
    is_storage (relocate_seg (e_phoff_of d) (ph_size_of d) st) ∧
    p_type mc = PT_LOAD ∧
    is_min_of (p_offset mc) (p_offset <$> code_entries d) ∧
    is_min_of (p_vaddr mc) (p_vaddr <$> code_entries d) ∧
    is_max_of max_end_file ((λ s, p_offset s + p_filesz s) <$> code_entries d) ∧
    p_filesz mc = max_end_file - p_offset mc ∧
    is_max_of max_end_mem ((λ s, p_vaddr s + p_memsz s) <$> code_entries d) ∧
    p_memsz mc = max_end_mem - p_vaddr mc ∧
    (∀ k, Z.testbit (p_flags mc) k =
          existsb (λ s, Z.testbit (p_flags s) k) (code_entries d)) ∧
    (2 ≤ len (code_entries d) → p_paddr mc = p_vaddr mc ∧ p_align mc = 4) ∧
    (∀ c, code_entries d = [c] → mc = c) ∧
    len out = len d - (e_phnum_of d - 2) * e_phentsize_of d.
Proof.
  intros Hin Hv.
  set (mc := merged_code_seg (code_entries d)).
  destruct (merged_code_seg_spec (code_entries d) (vi_code d st Hv)
              (codes_are_code d))
    as (Ht & Ho & Hva & Hf & Hm & Hfl & Hmany & Hone).
  fold mc in Ht, Ho, Hva, Hf, Hm, Hfl, Hmany, Hone.
  exists (rebuild d (new_table d st) 2), mc,
         (p_offset mc + p_filesz mc), (p_vaddr mc + p_memsz mc).
  split; [by apply reorder_elf_valid|].
  split; [apply (valid_out_phnum d st Hv)|].
  split; [apply (valid_out_table d st Hv)|].
  split; [apply (storage_is_storage d st Hv)|].
  do 3 (split; [done|]).
  split; [done|]. split; [lia|]. split; [done|]. split; [lia|].
  do 3 (split; [done|]).
  rewrite (valid_out_len d st Hv). unfold ph_size_of.
  rewrite (wf_phentsize d (valid_wf d st Hv)). lia.
Qed.

Lemma output_layout_witness :
  sample_fs sample_image !! "in.elf" = Some sample_image ∧
  valid_input sample_image sample_storage ∧
  ∃ out mc max_end_file max_end_mem,
    exec (reorder_elf "in.elf" "out.stldr") (sample_fs sample_image) =
      (Ok true, <["out.stldr" := out]> (sample_fs sample_image)) ∧
    e_phnum_of out = 2 ∧
    ph_table out =
      [relocate_seg (e_phoff_of sample_image) (ph_size_of sample_image) sample_storage;
       relocate_seg (e_phoff_of sample_image) (ph_size_of sample_image) mc] ∧
    is_storage (relocate_seg (e_phoff_of sample_image) (ph_size_of sample_image)
                  sample_storage) ∧
    p_type mc = PT_LOAD ∧
    is_min_of (p_offset mc) (p_offset <$> code_entries sample_image) ∧
    is_min_of (p_vaddr mc) (p_vaddr <$> code_entries sample_image) ∧
    is_max_of max_end_file
      ((λ s, p_offset s + p_filesz s) <$> code_entries sample_image) ∧
    p_filesz mc = max_end_file - p_offset mc ∧
    is_max_of max_end_mem
      ((λ s, p_vaddr s + p_memsz s) <$> code_entries sample_image) ∧
    p_memsz mc = max_end_mem - p_vaddr mc ∧
    (∀ k, Z.testbit (p_flags mc) k =
          existsb (λ s, Z.testbit (p_flags s) k) (code_entries sample_image)) ∧
    (2 ≤ len (code_entries sample_image) →
     p_paddr mc = p_vaddr mc ∧ p_align mc = 4) ∧
    (∀ c, code_entries sample_image = [c] → mc = c) ∧
    len out = len sample_image
              - (e_phnum_of sample_image - 2) * e_phentsize_of sample_image.
Proof.
  split; [reflexivity|]. split; [exact sample_image_valid|].
  exact (output_layout (sample_fs sample_image) "in.elf" "out.stldr"
           sample_image sample_storage eq_refl sample_image_valid).
Defined.

(** C7, as stated, fails: a file of five bytes, the signature and a class
    byte that is not 32-bit, ends the run with IndexError, raised when the
    endianness byte is read, and not with the diagnostic for the class. *)
Lemma short_file_index_error :
  py_slice five_byte_image 0 4 = ELF_MAGIC ∧
  five_byte_image !! 4%nat = Some x02 ∧
  reorder_elf "in.elf" "out.stldr" (sample_fs five_byte_image) =
    ([], (Raise IndexError, sample_fs five_byte_image)).
Proof. by vm_compute. Qed.

(** C7, amended: for every input whose first four bytes are not the ELF
    signature, or which has at least six bytes and whose class byte is not
    32-bit or whose endianness byte is not little-endian, the transform
    returns failure, prints exactly the diagnostic of the first check that
    fails (signature, then class, then endianness) and leaves the file
    system as it was: nothing has been written, no output file is produced,
    and the script exits with status 1. *)
Theorem validation_rejects σ input_file output_file d :
  σ !! input_file = Some d →
  py_slice d 0 4 ≠ ELF_MAGIC ∨
    (6 ≤ len d ∧ (d !! 4%nat ≠ Some x01 ∨ d !! 5%nat ≠ Some x01)) →
  exec (reorder_elf input_file output_file) σ = (Ok false, σ) ∧
  printed (reorder_elf input_file output_file) σ =
    [if decide (py_slice d 0 4 ≠ ELF_MAGIC) then MsgNotElf
     else if decide (d !! 4%nat ≠ Some x01) then MsgOnly32
     else MsgOnlyLittleEndian] ∧
  exit_status (exec (main ["reorder_elf.py"; input_file; output_file]) σ).1 = 1.
Proof.
  intros Hin Hbad.
  assert (exec (reorder_elf input_file output_file) σ = (Ok false, σ) →
          exit_status (exec (main ["reorder_elf.py"; input_file; output_file]) σ).1 = 1)
    as Hmain by (intros Hexec; by rewrite (main_exec _ _ _ _ _ _ Hexec)).
  destruct (decide (py_slice d 0 4 ≠ ELF_MAGIC)) as [Hm|Hm].
  { destruct (bad_magic_rejected σ input_file output_file d Hin Hm) as [Hexec Hpr].
    auto. }
  destruct Hbad as [?|[Hlen Hbad]]; [done|].
  assert (py_slice d 0 4 = ELF_MAGIC) as Hmagic
    by (destruct (decide (py_slice d 0 4 = ELF_MAGIC)); [done|by destruct Hm]).
  destruct (d !! 4%nat) as [c|] eqn:Hc.
  2:{ apply lookup_ge_None in Hc. unfold len in Hlen. lia. }
  destruct (d !! 5%nat) as [e|] eqn:He.
  2:{ apply lookup_ge_None in He. unfold len in Hlen. lia. }
  assert (c ≠ x01 ∨ e ≠ x01) as Hbad'.
  { destruct Hbad as [Hb|Hb]; [left|right]; intros ->; by apply Hb. }
  destruct (bad_ident_rejected σ input_file output_file d c e Hin Hmagic Hc He Hbad')
    as [Hexec Hprinted].
  split; [done|]. split; [|auto].
  rewrite Hprinted. f_equal.
  destruct (decide (c ≠ x01)) as [Hne|Heq].
  - rewrite decide_True; [done|]. intros [= ->]. by apply Hne.
  - rewrite decide_False; [done|]. intros Hne. apply Hne. f_equal.
    by destruct (decide (c = x01)).
Qed.

Lemma validation_rejects_witness :
  sample_fs (ELF_MAGIC ++ [x02; x01]) !! "in.elf" = Some (ELF_MAGIC ++ [x02; x01]) ∧
  (py_slice (ELF_MAGIC ++ [x02; x01]) 0 4 ≠ ELF_MAGIC ∨
   (6 ≤ len (ELF_MAGIC ++ [x02; x01]) ∧
    ((ELF_MAGIC ++ [x02; x01]) !! 4%nat ≠ Some x01 ∨
     (ELF_MAGIC ++ [x02; x01]) !! 5%nat ≠ Some x01))) ∧
  exec (reorder_elf "in.elf" "out.stldr") (sample_fs (ELF_MAGIC ++ [x02; x01])) =
    (Ok false, sample_fs (ELF_MAGIC ++ [x02; x01])) ∧
  printed (reorder_elf "in.elf" "out.stldr") (sample_fs (ELF_MAGIC ++ [x02; x01])) =
    [if decide (py_slice (ELF_MAGIC ++ [x02; x01]) 0 4 ≠ ELF_MAGIC) then MsgNotElf
     else if decide ((ELF_MAGIC ++ [x02; x01]) !! 4%nat ≠ Some x01) then MsgOnly32
     else MsgOnlyLittleEndian] ∧
  exit_status (exec (main ["reorder_elf.py"; "in.elf"; "out.stldr"])
                 (sample_fs (ELF_MAGIC ++ [x02; x01]))).1 = 1.
Proof.
  assert (py_slice (ELF_MAGIC ++ [x02; x01]) 0 4 ≠ ELF_MAGIC ∨
          (6 ≤ len (ELF_MAGIC ++ [x02; x01]) ∧
           ((ELF_MAGIC ++ [x02; x01]) !! 4%nat ≠ Some x01 ∨
            (ELF_MAGIC ++ [x02; x01]) !! 5%nat ≠ Some x01))) as Hbad.
  { right. split; [vm_compute; discriminate|]. left. vm_compute. discriminate. }
  split; [reflexivity|]. split; [exact Hbad|].
  exact (validation_rejects (sample_fs (ELF_MAGIC ++ [x02; x01]))
           "in.elf" "out.stldr" (ELF_MAGIC ++ [x02; x01]) eq_refl Hbad).
Defined.

(** C8: the transform applied to an output it produced from a valid input
    succeeds again and changes neither phnum nor the position of the
    program-header table. *)
Theorem second_run_fixed_point σ input_file mid_file output_file d st :
  σ !! input_file = Some d →
  valid_input d st →
  ∃ out1 out2,
    exec (reorder_elf input_file mid_file) σ =
      (Ok true, <[mid_file := out1]> σ) ∧
    exec (reorder_elf mid_file output_file) (<[mid_file := out1]> σ) =
      (Ok true, <[output_file := out2]> (<[mid_file := out1]> σ)) ∧
    e_phnum_of out2 = e_phnum_of out1 ∧
    e_phoff_of out2 = e_phoff_of out1.
Proof.
  intros Hin Hv.
  pose proof (out_valid d st Hv) as Hv1.
  exists (rebuild d (new_table d st) 2).
  eexists.
  split; [by apply reorder_elf_valid|].
  split; [apply (reorder_elf_valid _ _ Hv1); apply lookup_insert_eq|].
  rewrite (valid_out_phnum _ _ Hv1), (valid_out_phoff _ _ Hv1).
  rewrite (valid_out_phnum d st Hv), (valid_out_phoff d st Hv).
  split; [done|].
  assert (ph_size_of (rebuild d (new_table d st) 2) = 64) as ->.
  { unfold ph_size_of.
    rewrite (valid_out_phnum d st Hv), (wf_phentsize _ (valid_wf _ _ Hv1)). lia. }
  rewrite (valid_out_len d st Hv). lia.
Qed.

Lemma second_run_fixed_point_witness :
  sample_fs sample_image !! "in.elf" = Some sample_image ∧
  valid_input sample_image sample_storage ∧
  ∃ out1 out2,
    exec (reorder_elf "in.elf" "mid.stldr") (sample_fs sample_image) =
      (Ok true, <["mid.stldr" := out1]> (sample_fs sample_image)) ∧
    exec (reorder_elf "mid.stldr" "out.stldr")
         (<["mid.stldr" := out1]> (sample_fs sample_image)) =
      (Ok true, <["out.stldr" := out2]> (<["mid.stldr" := out1]> (sample_fs sample_image))) ∧
    e_phnum_of out2 = e_phnum_of out1 ∧
    e_phoff_of out2 = e_phoff_of out1.
Proof.
  split; [reflexivity|]. split; [exact sample_image_valid|].
  exact (second_run_fixed_point (sample_fs sample_image) "in.elf" "mid.stldr"
           "out.stldr" sample_image sample_storage eq_refl sample_image_valid).
Defined.

(** C9: for every valid input the table of the output has exactly two
    entries and both are loadable, whatever entries of other types the
    input table held. *)
Theorem output_entries_loadable σ input_file output_file d st :
  σ !! input_file = Some d →
  valid_input d st →
  ∃ out,
    exec (reorder_elf input_file output_file) σ =
      (Ok true, <[output_file := out]> σ) ∧
    length (ph_table out) = 2%nat ∧
    Forall (λ s, p_type s = PT_LOAD) (ph_table out).
Proof.
  intros Hin Hv. exists (rebuild d (new_table d st) 2).
  split; [by apply reorder_elf_valid|].
  rewrite (valid_out_table d st Hv). split; [done|].
  destruct (storage_is_storage d st Hv) as [_ [Hst _]].
  pose proof (merged_type (code_entries d) (vi_code d st Hv) (codes_are_code d)) as Hmc.
  repeat constructor; done.
Qed.

Lemma output_entries_loadable_witness :
  sample_fs single_code_image !! "in.elf" = Some single_code_image ∧
  valid_input single_code_image sample_storage ∧
  ∃ out,
    exec (reorder_elf "in.elf" "out.stldr") (sample_fs single_code_image) =
      (Ok true, <["out.stldr" := out]> (sample_fs single_code_image)) ∧
    length (ph_table out) = 2%nat ∧
    Forall (λ s, p_type s = PT_LOAD) (ph_table out).
Proof.
  split; [reflexivity|]. split; [exact single_code_image_valid|].
  exact (output_entries_loadable (sample_fs single_code_image) "in.elf" "out.stldr"
           single_code_image sample_storage eq_refl single_code_image_valid).
Defined.




(** ** Further properties of the code *)

(** *** Runs that leave the file system alone *)

Lemma pure_run_ret {A} (E : exn → Prop) (Q : A → Prop) a :
  Q a → pure_run E Q (mret a).
Proof. intros HQ σ. by rewrite exec_ret. Qed.

Lemma pure_run_print (E : exn → Prop) (Q : unit → Prop) x :
  Q tt → pure_run E Q (print x).
Proof. intros HQ σ. by rewrite exec_print. Qed.

Lemma pure_run_lift {A} (E : exn → Prop) (Q : A → Prop) (r : result A) :
  match r with Ok a => Q a | Raise e => E e end → pure_run E Q (lift r).
Proof. intros Hr σ. rewrite exec_lift. by destruct r. Qed.

Lemma pure_run_bind {A B} (E : exn → Prop) (P : A → Prop) (Q : B → Prop)
    (m : M A) (k : A → M B) :
  pure_run E P m → (∀ a, P a → pure_run E Q (k a)) → pure_run E Q (m ≫= k).
Proof.
  intros Hm Hk σ. rewrite exec_bind. specialize (Hm σ).
  destruct (exec m σ) as [[a|e] σ1]; [|done].
  destruct Hm as [-> Ha]. apply (Hk a Ha).
Qed.

Lemma pure_run_weaken {A} (E E' : exn → Prop) (Q Q' : A → Prop) (m : M A) :
  pure_run E Q m → (∀ e, E e → E' e) → (∀ a, Q a → Q' a) → pure_run E' Q' m.
Proof.
  intros Hm HE HQ σ. specialize (Hm σ).
  destruct (exec m σ) as [[a|e] σ1]; destruct Hm; auto.
Qed.

Lemma pure_run_for_each {A S} (E : exn → Prop) (l : list A)
    (body : A → S → M S) (s : S) :
  (∀ x s, pure_run E (λ _, True) (body x s)) →
  pure_run E (λ _, True) (for_each l body s).
Proof.
  intros Hbody. revert s. induction l as [|x l IH]; intros s; cbn [for_each].
  - by apply pure_run_ret.
  - eapply pure_run_bind; [apply Hbody|]. intros s' _. apply IH.
Qed.

Lemma run_outcome_bind {A} output_file (E : exn → Prop) (P : A → Prop)
    (m : M A) (k : A → M bool) :
  pure_run E P m → (∀ a, P a → run_outcome output_file E (k a)) →
  run_outcome output_file E (m ≫= k).
Proof.
  intros Hm Hk σ. rewrite exec_bind. specialize (Hm σ).
  destruct (exec m σ) as [[a|e] σ1]; [|done].
  destruct Hm as [-> Ha]. apply (Hk a Ha).
Qed.

Lemma run_outcome_pure output_file (E : exn → Prop) (m : M bool) :
  pure_run E (λ b, b = false) m → run_outcome output_file E m.
Proof.
  intros Hm σ. specialize (Hm σ).
  destruct (exec m σ) as [[b|e] σ1]; [|done].
  by destruct Hm as [-> ->].
Qed.

(** What the primitives can raise. *)
Lemma struct_unpack_raises f b e : struct_unpack f b = Raise e → e = StructError.
Proof. unfold struct_unpack. case_decide; congruence. Qed.

Lemma struct_pack_raises f v e : struct_pack f v = Raise e → e = StructError.
Proof. unfold struct_pack. case_decide; congruence. Qed.

Lemma struct_pack_into_raises f buf off v e :
  struct_pack_into f buf off v = Raise e → e = StructError.
Proof.
  unfold struct_pack_into.
  destruct (struct_pack f v) as [p|e'] eqn:Hp.
  - case_decide; congruence.
  - intros [= <-]. by apply struct_pack_raises in Hp.
Qed.

Lemma pack_segment_raises seg e : pack_segment seg = Raise e → e = StructError.
Proof.
  unfold pack_segment.
  repeat match goal with
         | |- context [match struct_pack ?f ?v with _ => _ end] =>
             destruct (struct_pack f v)
         end; congruence.
Qed.

Lemma pure_run_unpack (E : exn → Prop) f b :
  E StructError → pure_run E (λ _, True) (lift (struct_unpack f b)).
Proof.
  intros HE. apply pure_run_lift.
  destruct (struct_unpack f b) as [v|e] eqn:Hr; [done|].
  by apply struct_unpack_raises in Hr as ->.
Qed.

Lemma pure_run_pack_into (E : exn → Prop) f buf off v :
  E StructError → pure_run E (λ _, True) (lift (struct_pack_into f buf off v)).
Proof.
  intros HE. apply pure_run_lift.
  destruct (struct_pack_into f buf off v) as [b|e] eqn:Hr; [done|].
  by apply struct_pack_into_raises in Hr as ->.
Qed.

Lemma py_getitem_cases {A} (l : list A) (i : Z) :
  0 ≤ i →
  match py_getitem l i with
  | Ok x => l !! Z.to_nat i = Some x
  | Raise e => e = IndexError ∧ len l ≤ i
  end.
Proof.
  intros Hi. unfold py_getitem.
  rewrite (decide_False (P := i < 0)) by lia. rewrite decide_True by done.
  destruct (l !! Z.to_nat i) eqn:Hl; [done|].
  split; [done|]. apply lookup_ge_None in Hl. unfold len. lia.
Qed.

(** A chain of prints, unpacks and packs, with branches in between. *)
Ltac pure_steps E :=
  repeat first
    [ apply pure_run_ret; done
    | apply pure_run_print; done
    | apply (pure_run_unpack E); done
    | apply (pure_run_pack_into E); done
    | eapply (pure_run_bind E (λ _, True));
        [first [apply pure_run_print; done
               |apply (pure_run_unpack E); done
               |apply (pure_run_pack_into E); done]
        |intros ? _; cbn beta]
    | case_decide ].

(** The struct error is the only exception of the loop bodies. *)
Lemma parse_entry_pure ph_data e i segments :
  pure_run (λ x, x = StructError) (λ _, True) (parse_entry ph_data e i segments).
Proof. unfold parse_entry. cbn zeta. pure_steps (λ x : exn, x = StructError). Qed.

Lemma patch_ph_entry_pure e_phoff e_phentsize ph_size new_phoff i b :
  pure_run (λ x, x = StructError) (λ _, True)
    (patch_ph_entry e_phoff e_phentsize ph_size new_phoff i b).
Proof. unfold patch_ph_entry. cbn zeta. pure_steps (λ x : exn, x = StructError). Qed.

Lemma patch_sh_entry_pure e_phoff e_shentsize ph_size sh_offset i b :
  pure_run (λ x, x = StructError) (λ _, True)
    (patch_sh_entry e_phoff e_shentsize ph_size sh_offset i b).
Proof. unfold patch_sh_entry. cbn zeta. pure_steps (λ x : exn, x = StructError). Qed.

(** On a list that is not empty the merge of the code entries cannot
    raise. *)
Lemma merge_code_pure cs :
  cs ≠ [] → pure_run (λ _, False) (λ _, True) (merge_code cs).
Proof.
  intros Hne σ. by rewrite merge_code_exec.
Qed.

Lemma merge_load_segments_pure ph_data e n :
  pure_run (λ x, x = StructError) (λ _, True) (merge_load_segments ph_data e n).
Proof.
  unfold merge_load_segments.
  eapply (pure_run_bind _ (λ _, True)).
  { apply pure_run_for_each. intros i s. apply parse_entry_pure. }
  intros segments _.
  destruct (classify segments) as [[storage_seg|] code_segs].
  2:{ pure_steps (λ x : exn, x = StructError). }
  case_decide as Hlen.
  { pure_steps (λ x : exn, x = StructError). }
  eapply (pure_run_bind _ (λ _, True)).
  { eapply pure_run_weaken; [apply merge_code_pure| |done].
    - intros ->. by apply Hlen.
    - done. }
  intros mc _. cbn zeta.
  eapply (pure_run_bind _ (λ _, True)).
  { apply pure_run_for_each. intros seg acc.
    eapply (pure_run_bind _ (λ _, True)).
    - apply pure_run_lift. destruct (pack_segment seg) as [b|x] eqn:Hp; [done|].
      by apply pack_segment_raises in Hp.
    - intros b _. by apply pure_run_ret. }
  intros t _. pure_steps (λ x : exn, x = StructError).
Qed.

(** *** The outcome of the transform *)

Lemma raised_on_struct d : raised_on d StructError.
Proof. by right. Qed.

Lemma run_outcome_write output_file (E : exn → Prop) (b : bytes) x y :
  run_outcome output_file E
    (open_write output_file b ;; print x ;; print y ;; mret true).
Proof.
  intros σ. rewrite exec_bind, exec_open_write. exec_steps. by exists b.
Qed.

Lemma pure_run_getitem {A} (E : exn → Prop) (l : list A) (i : Z) :
  0 ≤ i → (len l ≤ i → E IndexError) →
  pure_run E (λ _, True) (lift (py_getitem l i)).
Proof.
  intros Hi HE. apply pure_run_lift.
  pose proof (py_getitem_cases l i Hi) as Hc.
  destruct (py_getitem l i); [done|]. destruct Hc as [-> Hlen]. auto.
Qed.

(** One step of the transform that is a print, an unpack or a pack. *)
Ltac outcome_step g d :=
  eapply (run_outcome_bind g (raised_on d) (λ _, True));
    [first [apply pure_run_print; done
           |apply (pure_run_unpack (raised_on d)); apply raised_on_struct
           |apply (pure_run_pack_into (raised_on d)); apply raised_on_struct]
    |intros ? _; cbn beta].

Lemma reorder_elf_outcome input_file output_file σ d :
  σ !! input_file = Some d →
  match exec (reorder_elf input_file output_file) σ with
  | (Ok true, σ') => ∃ out, σ' = <[output_file := out]> σ
  | (Ok false, σ') => σ' = σ
  | (Raise e, σ') => σ' = σ ∧ raised_on d e
  end.
Proof.
  intros Hin. unfold reorder_elf.
  rewrite exec_bind, (exec_open_read _ _ _ Hin). clear Hin. revert σ.
  match goal with
  | |- ∀ σ, match exec ?m σ with _ => _ end =>
      change (run_outcome output_file (raised_on d) m)
  end.
  case_decide.
  { apply run_outcome_pure. pure_steps (raised_on d). }
  eapply (run_outcome_bind _ _ (λ _, True)).
  { apply pure_run_getitem; [lia|]. intros Hl. left. split; [done|lia]. }
  intros ei_class _.
  eapply (run_outcome_bind _ _ (λ _, True)).
  { apply pure_run_getitem; [lia|]. intros Hl. left. split; [done|lia]. }
  intros ei_data _.
  case_decide.
  { apply run_outcome_pure. pure_steps (raised_on d). }
  case_decide.
  { apply run_outcome_pure. pure_steps (raised_on d). }
  cbn zeta.
  do 12 outcome_step output_file d.
  eapply (run_outcome_bind _ _ (λ _, True)).
  { eapply pure_run_weaken; [apply merge_load_segments_pure| |done].
    intros e ->. apply raised_on_struct. }
  intros [merged_ph_data new_phnum] _.
  do 2 outcome_step output_file d.
  match goal with
  | |- context [decide (?a > ?b)] => destruct (decide (a > b)) as [Hgt|Hle]
  end.
  - eapply (run_outcome_bind _ _ (λ p, is_Some p.2)).
    { eapply (pure_run_bind _ (λ _, True));
        [apply (pure_run_pack_into (raised_on d)); apply raised_on_struct|].
      intros b _.
      eapply (pure_run_bind _ (λ _, True)); [by apply pure_run_print|].
      intros _ _. apply pure_run_ret. by eexists. }
    intros [b new_shoff] [v Hv]. simpl in Hv. subst new_shoff.
    do 4 outcome_step output_file d.
    eapply (run_outcome_bind _ _ (λ _, True)).
    { apply pure_run_for_each. intros i s.
      eapply pure_run_weaken; [apply patch_ph_entry_pure| |done].
      intros e ->. apply raised_on_struct. }
    intros b1 _.
    eapply (run_outcome_bind _ _ (λ _, True)).
    { eapply (pure_run_bind _ (λ _, True)); [by apply pure_run_lift|].
      intros sh _. apply pure_run_for_each. intros i s.
      eapply pure_run_weaken; [apply patch_sh_entry_pure| |done].
      intros e ->. apply raised_on_struct. }
    intros b2 _. apply run_outcome_write.
  - eapply (run_outcome_bind _ _ (λ _, True)); [by apply pure_run_ret|].
    intros [b new_shoff] _.
    do 4 outcome_step output_file d.
    eapply (run_outcome_bind _ _ (λ _, True)).
    { apply pure_run_for_each. intros i s.
      eapply pure_run_weaken; [apply patch_ph_entry_pure| |done].
      intros e ->. apply raised_on_struct. }
    intros b1 _.
    eapply (run_outcome_bind _ _ (λ _, True)); [by apply pure_run_ret|].
    intros b2 _. apply run_outcome_write.
Qed.

Lemma reorder_elf_missing input_file output_file σ :
  σ !! input_file = None →
  reorder_elf input_file output_file σ = ([], (Raise FileNotFoundError, σ)).
Proof.
  intros Hin. unfold reorder_elf, mbind, M_bind, open_read. by rewrite Hin.
Qed.



(** X2: whatever table, entry size and count it is given, the merge raises
    nothing but a struct error, and leaves the files alone: min and max are
    never applied to an empty sequence, and code_segs[0] is never read from
    an empty list. *)
Theorem merge_raises_only_struct_error ph_data e_phentsize e_phnum σ e σ' :
  exec (merge_load_segments ph_data e_phentsize e_phnum) σ = (Raise e, σ') →
  e = StructError ∧ σ' = σ.
Proof.
  intros Hrun.
  pose proof (merge_load_segments_pure ph_data e_phentsize e_phnum σ) as Hp.
  rewrite Hrun in Hp. by destruct Hp as [-> ->].
Qed.

Lemma merge_raises_only_struct_error_witness :
  exec (merge_load_segments [] 32 1) ∅ = (Raise StructError, ∅) ∧
  StructError = StructError ∧ (∅ : filesystem) = ∅.
Proof.
  assert (exec (merge_load_segments [] 32 1) ∅ = (Raise StructError, ∅)) as Hrun
    by (vm_compute; reflexivity).
  split; [exact Hrun|].
  exact (merge_raises_only_struct_error [] 32 1 ∅ StructError ∅ Hrun).
Defined.


(** X4: when the input file does not exist the script prints nothing, ends
    with FileNotFoundError (exit status 1) and creates no file. *)
Theorem missing_input_file prog input_file output_file σ :
  σ !! input_file = None →
  printed (main [prog; input_file; output_file]) σ = [] ∧
  exec (main [prog; input_file; output_file]) σ = (Raise FileNotFoundError, σ) ∧
  exit_status (exec (main [prog; input_file; output_file]) σ).1 = 1.
Proof.
  intros Hin.
  assert (main [prog; input_file; output_file] σ =
          ([], (Raise FileNotFoundError, σ))) as Hmain.
  { unfold main. rewrite decide_False by (intros Hne; by apply Hne).
    unfold mbind at 1, M_bind at 1. cbn [lift py_getitem].
    rewrite (py_getitem_lookup [prog; input_file; output_file] 1 input_file
               ltac:(lia) eq_refl). cbn [lift].
    unfold mbind at 1, M_bind at 1.
    rewrite (py_getitem_lookup [prog; input_file; output_file] 2 output_file
               ltac:(lia) eq_refl). cbn [lift].
    unfold mbind at 1, M_bind at 1.
    by rewrite (reorder_elf_missing _ _ _ Hin). }
  unfold printed, exec. by rewrite Hmain.
Qed.

Lemma missing_input_file_witness :
  (∅ : filesystem) !! "in.elf" = None ∧
  printed (main ["reorder_elf.py"; "in.elf"; "out.stldr"]) ∅ = [] ∧
  exec (main ["reorder_elf.py"; "in.elf"; "out.stldr"]) ∅ =
    (Raise FileNotFoundError, ∅) ∧
  exit_status (exec (main ["reorder_elf.py"; "in.elf"; "out.stldr"]) ∅).1 = 1.
Proof.
  split; [reflexivity|].
  exact (missing_input_file "reorder_elf.py" "in.elf" "out.stldr" ∅ eq_refl).
Defined.

(** *** Slices, once more *)

Lemma len_py_slice_le {A} (l : list A) a c :
  0 ≤ a → 0 ≤ c → len (py_slice l a c) ≤ Z.max 0 (c - a) ∧
                  len (py_slice l a c) ≤ Z.max 0 (len l - a).
Proof.
  intros Ha Hc. rewrite py_slice_nonneg by done. unfold len.
  rewrite length_take, length_drop. lia.
Qed.

Lemma py_slice_app_adj {A} (l : list A) a m c :
  0 ≤ a → a ≤ m → m ≤ c → c ≤ len l →
  py_slice l a m ++ py_slice l m c = py_slice l a c.
Proof.
  intros Ha Hm Hc Hl. apply list_eq. intros k.
  pose proof (len_py_slice l a m Ha Hm ltac:(lia)) as L1.
  destruct (decide (Z.of_nat k < m - a)) as [Hk|Hk].
  - rewrite lookup_app_l by (unfold len in L1; lia).
    rewrite !py_slice_lookup by lia. by rewrite !decide_True by lia.
  - rewrite lookup_app_r by (unfold len in L1; lia).
    rewrite !py_slice_lookup by lia.
    repeat case_decide; unfold len in *; try lia; [|done].
    f_equal. lia.
Qed.

(** *** Reading the file header of any file of 50 bytes or more *)

Lemma read_header_of_len d :
  50 ≤ len d →
  struct_unpack fmt_I (py_slice d 28 (28 + 4)) = Ok (e_phoff_of d) ∧
  struct_unpack fmt_I (py_slice d 32 (32 + 4)) = Ok (e_shoff_of d) ∧
  struct_unpack fmt_H (py_slice d 42 (42 + 2)) = Ok (e_phentsize_of d) ∧
  struct_unpack fmt_H (py_slice d 44 (44 + 2)) = Ok (e_phnum_of d) ∧
  struct_unpack fmt_H (py_slice d 46 (46 + 2)) = Ok (e_shentsize_of d) ∧
  struct_unpack fmt_H (py_slice d 48 (48 + 2)) = Ok (e_shnum_of d).
Proof.
  intros Hlen.
  repeat split; first [apply unpack_I_get32 | apply unpack_H_get16]; lia.
Qed.

(** *** Entries narrower than 32 bytes *)

Lemma parse_entry_needs_32 ph_data e i segments σ r σ' :
  exec (parse_entry ph_data e i segments) σ = (Ok r, σ') →
  length (py_slice (py_slice ph_data (i * e) (i * e + e)) 28 32) = 4%nat.
Proof.
  unfold parse_entry. cbn zeta.
  do 7 (rewrite exec_bind, exec_lift;
        match goal with
        | |- context [match struct_unpack ?f ?b with _ => _ end] =>
            destruct (struct_unpack f b)
        end; [|done]).
  rewrite exec_bind, exec_lift. unfold struct_unpack.
  case_decide as Hl; [|done]. by intros _.
Qed.

Lemma parse_entry_narrow ph_data e segments σ :
  0 ≤ e < 32 →
  exec (parse_entry ph_data e 0 segments) σ = (Raise StructError, σ).
Proof.
  intros He. pose proof (parse_entry_pure ph_data e 0 segments σ) as Hp.
  destruct (exec (parse_entry ph_data e 0 segments) σ) as [[r|x] σ'] eqn:Hrun.
  - exfalso. apply parse_entry_needs_32 in Hrun.
    pose proof (len_py_slice_le ph_data (0 * e) (0 * e + e) ltac:(lia) ltac:(lia))
      as [H1 _].
    pose proof (len_py_slice_le (py_slice ph_data (0 * e) (0 * e + e)) 28 32
                  ltac:(lia) ltac:(lia)) as [_ H2].
    unfold len in *. lia.
  - by destruct Hp as [-> ->].
Qed.

Lemma merge_load_segments_narrow ph_data e n σ :
  0 ≤ e < 32 → 0 < n →
  exec (merge_load_segments ph_data e n) σ = (Raise StructError, σ).
Proof.
  intros He Hn. unfold merge_load_segments, for_range.
  rewrite seqZ_cons by lia. cbn [for_each].
  by rewrite !exec_bind, parse_entry_narrow.
Qed.

(** X5: a file that passes the three checks and whose header announces at
    least one program header narrower than 32 bytes is not transformed: the
    first entry cannot be decoded, the run ends with a struct error, nothing
    is written and the exit status is 1. *)
Theorem narrow_entries_raise σ input_file output_file d :
  σ !! input_file = Some d →
  py_slice d 0 4 = ELF_MAGIC →
  d !! 4%nat = Some x01 → d !! 5%nat = Some x01 →
  50 ≤ len d →
  e_phentsize_of d < 32 →
  0 < e_phnum_of d →
  exec (reorder_elf input_file output_file) σ = (Raise StructError, σ) ∧
  exit_status (exec (main ["reorder_elf.py"; input_file; output_file]) σ).1 = 1.
Proof.
  intros Hin Hmagic Hclass Hdata Hlen Hent Hnum.
  assert (exec (reorder_elf input_file output_file) σ = (Raise StructError, σ))
    as Hrun.
  { unfold reorder_elf.
    rewrite exec_bind, (exec_open_read _ _ _ Hin).
    rewrite decide_False by (intros Hne; by apply Hne).
    exec_step. rewrite (py_getitem_lookup d 4 x01 ltac:(lia) Hclass).
    exec_step. rewrite (py_getitem_lookup d 5 x01 ltac:(lia) Hdata).
    rewrite !(decide_False (P := byte_val x01 ≠ 1)) by (intros Hne; by apply Hne).
    destruct (read_header_of_len d Hlen) as (R1 & R2 & R3 & R4 & R5 & R6).
    cbn zeta.
    exec_step. rewrite R1. exec_step. rewrite R2. exec_step. rewrite R3.
    exec_step. rewrite R4. exec_step. rewrite R5. exec_step. rewrite R6.
    do 6 exec_step.
    rewrite exec_bind, merge_load_segments_narrow; [done| |done].
    pose proof (get16_bounds d 42). unfold e_phentsize_of in *. lia. }
  split; [done|]. by rewrite (main_exec _ _ _ _ _ _ Hrun).
Qed.

Lemma narrow_entries_raise_witness :
  sample_fs narrow_entries_image !! "in.elf" = Some narrow_entries_image ∧
  py_slice narrow_entries_image 0 4 = ELF_MAGIC ∧
  narrow_entries_image !! 4%nat = Some x01 ∧
  narrow_entries_image !! 5%nat = Some x01 ∧
  50 ≤ len narrow_entries_image ∧
  e_phentsize_of narrow_entries_image < 32 ∧
  0 < e_phnum_of narrow_entries_image ∧
  exec (reorder_elf "in.elf" "out.stldr") (sample_fs narrow_entries_image) =
    (Raise StructError, sample_fs narrow_entries_image) ∧
  exit_status (exec (main ["reorder_elf.py"; "in.elf"; "out.stldr"])
                 (sample_fs narrow_entries_image)).1 = 1.
Proof.
  assert (50 ≤ len narrow_entries_image) as Hlen by (vm_compute; discriminate).
  assert (e_phentsize_of narrow_entries_image < 32) as Hent
    by (vm_compute; reflexivity).
  assert (0 < e_phnum_of narrow_entries_image) as Hnum
    by (vm_compute; reflexivity).
  do 4 (split; [reflexivity|]).
  split; [exact Hlen|]. split; [exact Hent|]. split; [exact Hnum|].
  exact (narrow_entries_raise (sample_fs narrow_entries_image) "in.elf" "out.stldr"
           narrow_entries_image eq_refl eq_refl eq_refl eq_refl Hlen Hent Hnum).
Defined.

(** *** The warnings *)

Lemma parse_entry_silent ph_data e i segments σ :
  printed (parse_entry ph_data e i segments) σ = [].
Proof.
  unfold parse_entry. cbn zeta.
  do 8 (rewrite printed_bind, exec_lift;
        match goal with
        | |- context [match struct_unpack ?f ?b with _ => _ end] =>
            destruct (struct_unpack f b)
        end; [|done]; cbn [app printed lift fst]).
  done.
Qed.

Lemma parse_loop_silent ph_data e l segments σ :
  printed (for_each l (parse_entry ph_data e) segments) σ = [].
Proof.
  revert segments. induction l as [|i l IH]; intros segments; [done|].
  cbn [for_each]. rewrite printed_bind, parse_entry_silent.
  pose proof (parse_entry_pure ph_data e i segments σ) as Hp.
  destruct (exec (parse_entry ph_data e i segments) σ) as [[r|x] σ']; [|done].
  destruct Hp as [-> _]. apply IH.
Qed.

(** X6: the two warnings of the merge.  Without a Storage entry the merge
    prints only the warning for the missing StorageInfo segment, also when
    there is no Code entry either; with a Storage entry and no Code entry it
    prints only the warning for the missing code segments.  In both cases it
    returns the table and the count it was given. *)
Theorem merge_warnings σ d :
  well_formed d →
  storage_entries d = [] ∨ code_entries d = [] →
  printed (merge_load_segments (old_table d) (e_phentsize_of d) (e_phnum_of d)) σ =
    [if decide (storage_entries d = []) then MsgNoStorage else MsgNoCode] ∧
  exec (merge_load_segments (old_table d) (e_phentsize_of d) (e_phnum_of d)) σ =
    (Ok (old_table d, e_phnum_of d), σ).
Proof.
  intros Hwf Hno.
  assert (32 ≤ e_phentsize_of d) as He by (rewrite (wf_phentsize d Hwf); lia).
  split.
  2:{ apply merge_load_segments_unchanged;
        [done|apply (old_table_inside d Hwf)|by rewrite (parse_old_table d Hwf)]. }
  unfold merge_load_segments.
  rewrite printed_bind. unfold for_range at 1. rewrite parse_loop_silent.
  rewrite parse_loop_exec by (done || apply (old_table_inside d Hwf)).
  rewrite (parse_old_table d Hwf), classify_spec.
  fold (storage_entries d) (code_entries d). cbn [app].
  destruct (storage_entries d) as [|s sts] eqn:Hst.
  - rewrite decide_True by done. cbn [last].
    by rewrite printed_bind, printed_print, exec_print.
  - rewrite decide_False by done.
    destruct Hno as [?|Hno]; [done|]. rewrite Hno.
    destruct (last (s :: sts)) as [st|] eqn:Hlast.
    2:{ by apply last_None in Hlast. }
    rewrite decide_True by done.
    by rewrite printed_bind, printed_print, exec_print.
Qed.

Lemma merge_warnings_witness :
  well_formed no_storage_image ∧
  (storage_entries no_storage_image = [] ∨ code_entries no_storage_image = []) ∧
  printed (merge_load_segments (old_table no_storage_image)
             (e_phentsize_of no_storage_image) (e_phnum_of no_storage_image)) ∅ =
    [if decide (storage_entries no_storage_image = [])
     then MsgNoStorage else MsgNoCode] ∧
  exec (merge_load_segments (old_table no_storage_image)
          (e_phentsize_of no_storage_image) (e_phnum_of no_storage_image)) ∅ =
    (Ok (old_table no_storage_image, e_phnum_of no_storage_image), ∅).
Proof.
  split; [exact no_storage_image_wf|].
  split; [left; exact no_storage_image_storage|].
  exact (merge_warnings ∅ no_storage_image no_storage_image_wf
           (or_introl no_storage_image_storage)).
Defined.

(** *** Encoding and decoding an entry *)

Lemma le_encode_get32 b pos :
  0 ≤ pos → pos + 4 ≤ len b →
  le_encode 4 (get32 b pos) = py_slice b pos (pos + 4).
Proof.
  intros Hpos Hin. unfold get32.
  pose proof (len_py_slice b pos (pos + 4) Hpos ltac:(lia) Hin) as Hl.
  assert (length (py_slice b pos (pos + 4)) = 4%nat) as Hl'
    by (unfold len in Hl; lia).
  rewrite <- Hl' at 1. apply le_encode_decode.
Qed.

Lemma le_encode_get16 b pos :
  0 ≤ pos → pos + 2 ≤ len b →
  le_encode 2 (get16 b pos) = py_slice b pos (pos + 2).
Proof.
  intros Hpos Hin. unfold get16.
  pose proof (len_py_slice b pos (pos + 2) Hpos ltac:(lia) Hin) as Hl.
  assert (length (py_slice b pos (pos + 2)) = 2%nat) as Hl'
    by (unfold len in Hl; lia).
  rewrite <- Hl' at 1. apply le_encode_decode.
Qed.

Lemma seg_bytes_entry_at b pos :
  0 ≤ pos → pos + 32 ≤ len b →
  seg_bytes (entry_at b pos) = py_slice b pos (pos + 32).
Proof.
  intros Hpos Hin. unfold seg_bytes, entry_at.
  cbn [p_type p_offset p_vaddr p_paddr p_filesz p_memsz p_flags p_align].
  assert (∀ x y, 0 ≤ x → y = x + 4 → y ≤ 32 →
            le_encode 4 (get32 b (pos + x)) = py_slice b (pos + x) (pos + y))
    as Hfld.
  { intros x y Hx -> Hy. rewrite le_encode_get32 by lia. f_equal. lia. }
  rewrite <- (Z.add_0_r pos) at 1.
  rewrite (Hfld 0 4), (Hfld 4 8), (Hfld 8 12), (Hfld 12 16), (Hfld 16 20),
    (Hfld 20 24), (Hfld 24 28), (Hfld 28 32) by lia.
  rewrite (py_slice_app_adj b (pos + 24) (pos + 28) (pos + 32)) by lia.
  rewrite (py_slice_app_adj b (pos + 20) (pos + 24) (pos + 32)) by lia.
  rewrite (py_slice_app_adj b (pos + 16) (pos + 20) (pos + 32)) by lia.
  rewrite (py_slice_app_adj b (pos + 12) (pos + 16) (pos + 32)) by lia.
  rewrite (py_slice_app_adj b (pos + 8) (pos + 12) (pos + 32)) by lia.
  rewrite (py_slice_app_adj b (pos + 4) (pos + 8) (pos + 32)) by lia.
  rewrite (py_slice_app_adj b (pos + 0) (pos + 4) (pos + 32)) by lia.
  by rewrite Z.add_0_r.
Qed.

(** X7: an entry whose eight fields fit in 32 bits is packed into 32 bytes,
    and decoding those bytes gives the entry back. *)
Theorem pack_then_parse σ s :
  seg_fits s →
  ∃ ph_entry,
    pack_segment s = Ok ph_entry ∧
    len ph_entry = 32 ∧
    exec (parse_entry ph_entry 32 0 []) σ = (Ok [s], σ).
Proof.
  intros Hfits. exists (seg_bytes s).
  split; [by apply pack_segment_ok|]. split; [apply len_seg_bytes|].
  rewrite parse_entry_exec by (rewrite ?len_seg_bytes; lia).
  cbn [app]. rewrite <- (app_nil_r (seg_bytes s)).
  by rewrite entry_at_seg_bytes.
Qed.

Lemma pack_then_parse_witness :
  seg_fits sample_code1 ∧
  ∃ ph_entry,
    pack_segment sample_code1 = Ok ph_entry ∧
    len ph_entry = 32 ∧
    exec (parse_entry ph_entry 32 0 []) ∅ = (Ok [sample_code1], ∅).
Proof.
  assert (seg_fits sample_code1) as Hfits
    by (unfold seg_fits, fits32; cbn; lia).
  split; [exact Hfits|].
  exact (pack_then_parse ∅ sample_code1 Hfits).
Defined.

(** X8: conversely, the entry decoded from 32 bytes is packed into the same
    32 bytes: the program loses nothing of an entry it copies. *)
Theorem parse_then_pack σ (ph : bytes) :
  len ph = 32 →
  ∃ s,
    exec (parse_entry ph 32 0 []) σ = (Ok [s], σ) ∧
    pack_segment s = Ok ph.
Proof.
  intros Hlen. exists (entry_at ph 0).
  split; [by rewrite parse_entry_exec by lia|].
  rewrite pack_segment_ok by apply entry_at_fits.
  rewrite seg_bytes_entry_at by lia.
  replace (0 + 32) with (len ph) by lia. by rewrite py_slice_full.
Qed.

Lemma parse_then_pack_witness :
  len (seg_bytes sample_note) = 32 ∧
  ∃ s,
    exec (parse_entry (seg_bytes sample_note) 32 0 []) ∅ = (Ok [s], ∅) ∧
    pack_segment s = Ok (seg_bytes sample_note).
Proof.
  split; [reflexivity|].
  exact (parse_then_pack ∅ (seg_bytes sample_note) eq_refl).
Defined.

(** *** An offset that cannot be relocated *)

Lemma pack_into_negative f buf off v :
  v < 0 → struct_pack_into f buf off v = Raise StructError.
Proof.
  intros Hv. unfold struct_pack_into, struct_pack.
  by rewrite decide_False by lia.
Qed.

(** X9: a Storage entry whose file offset points into the program-header
    table, at less than oldTableSize, cannot be relocated: its new offset
    would be negative, packing it raises a struct error, and nothing is
    written. *)
Theorem offset_into_table_raises σ input_file output_file d st :
  σ !! input_file = Some d →
  well_formed d →
  storage_entries d = [st] →
  code_entries d ≠ [] →
  Forall span_ok (code_entries d) →
  e_phoff_of d < p_offset st < ph_size_of d →
  exec (reorder_elf input_file output_file) σ = (Raise StructError, σ).
Proof.
  intros Hin Hwf Hst Hcs Hsp Hoff.
  set (table := seg_bytes st ++ seg_bytes (merged_code_seg (code_entries d))).
  assert (32 ≤ e_phentsize_of d) as He by (rewrite (wf_phentsize d Hwf); lia).
  assert (∀ σ', exec (merge_load_segments (old_table d) (e_phentsize_of d)
                        (e_phnum_of d)) σ' = (Ok (table, 2), σ')) as Hmerge.
  { intros σ'.
    rewrite (merge_load_segments_merged (old_table d) (e_phentsize_of d)
               (e_phnum_of d) He (old_table_inside d Hwf) st).
    - by rewrite (parse_old_table d Hwf).
    - rewrite (parse_old_table d Hwf). fold (storage_entries d). by rewrite Hst.
    - by rewrite (parse_old_table d Hwf).
    - by rewrite (parse_old_table d Hwf). }
  assert (seg_fits st) as Hfst.
  { pose proof (ph_table_fits d) as Hall. rewrite Forall_forall in Hall.
    apply Hall.
    assert (st ∈ storage_entries d) as Hel by (rewrite Hst; apply list_elem_of_here).
    by apply list_elem_of_filter in Hel as [_ ?]. }
  assert (len table = 32 * 2) as Htable_len
    by (unfold table; by rewrite len_app, !len_seg_bytes).
  assert (get32 table (0 * 32 + 4) = p_offset st) as Hfield.
  { change (get32 table (0 * 32 + 4)) with (p_offset (entry_at table 0)).
    unfold table. by rewrite entry_at_seg_bytes. }
  pose proof (rebuild_header_ph_field d table 2 Hwf 0 ltac:(lia)) as Hget.
  pose proof (len_rebuild_header d table 2 Htable_len) as Hlen_hdr.
  rewrite Hfield in Hget. unfold field_pos in Hget.
  unfold rebuild_header in Hget, Hlen_hdr. cbn zeta in Hget, Hlen_hdr.
  unfold reorder_elf.
  rewrite exec_bind, (exec_open_read _ _ _ Hin).
  rewrite decide_False by (intros Hne; apply Hne, (wf_magic d Hwf)).
  exec_step. rewrite (py_getitem_lookup d 4 x01 ltac:(lia) (wf_class d Hwf)).
  exec_step. rewrite (py_getitem_lookup d 5 x01 ltac:(lia) (wf_data d Hwf)).
  rewrite !(decide_False (P := byte_val x01 ≠ 1)) by (intros Hne; by apply Hne).
  destruct (read_header d Hwf) as (R1 & R2 & R3 & R4 & R5 & R6).
  cbn zeta.
  exec_step. rewrite R1. exec_step. rewrite R2. exec_step. rewrite R3.
  exec_step. rewrite R4. exec_step. rewrite R5. exec_step. rewrite R6.
  do 6 exec_step.
  rewrite exec_bind. fold (ph_size_of d). fold (old_table d). rewrite Hmerge.
  pose proof (ph_size_nonneg d Hwf). pose proof (wf_phoff d Hwf).
  pose proof (wf_table d Hwf). pose proof (wf_len d Hwf).
  pose proof (len_body d table Hwf) as Hlb.
  pose proof (wf_phentsize d Hwf) as Hent.
  exec_step. rewrite pack_into_I; [|lia|rewrite len_app; lia|unfold fits32; lia].
  exec_step. rewrite pack_into_H; [|lia|rewrite len_poke, len_app; lia|lia].
  destruct (decide (e_shoff_of d > e_phoff_of d)) as [Hgt|Hle].
  - destruct (shoff_fits d Hwf Hgt) as [Hsf Hsl].
    rewrite !exec_bind, exec_lift.
    rewrite pack_into_I; [|lia|rewrite !len_poke, len_app; lia|done].
    exec_step. rewrite exec_ret. do 4 exec_step.
    rewrite exec_bind. unfold for_range. change (seqZ 0 2) with [0; 1].
    cbn [for_each]. rewrite exec_bind.
    unfold patch_ph_entry at 1. cbn zeta. rewrite Hent.
    rewrite exec_bind, exec_lift, unpack_I_get32 by lia.
    rewrite Hget. rewrite decide_True by lia.
    by rewrite exec_bind, exec_lift, pack_into_negative by lia.
  - exec_step. do 4 exec_step.
    rewrite exec_bind. unfold for_range. change (seqZ 0 2) with [0; 1].
    cbn [for_each]. rewrite exec_bind.
    unfold patch_ph_entry at 1. cbn zeta. rewrite Hent.
    rewrite exec_bind, exec_lift, unpack_I_get32 by lia.
    rewrite Hget. rewrite decide_True by lia.
    by rewrite exec_bind, exec_lift, pack_into_negative by lia.
Qed.

Lemma offset_in_table_image_wf : well_formed offset_in_table_image.
Proof. by_decision. Qed.

Lemma offset_into_table_raises_witness :
  sample_fs offset_in_table_image !! "in.elf" = Some offset_in_table_image ∧
  well_formed offset_in_table_image ∧
  storage_entries offset_in_table_image = [Segment 1 60 0 0 4 4 4 4] ∧
  code_entries offset_in_table_image ≠ [] ∧
  Forall span_ok (code_entries offset_in_table_image) ∧
  e_phoff_of offset_in_table_image < p_offset (Segment 1 60 0 0 4 4 4 4)
    < ph_size_of offset_in_table_image ∧
  exec (reorder_elf "in.elf" "out.stldr") (sample_fs offset_in_table_image) =
    (Raise StructError, sample_fs offset_in_table_image).
Proof.
  assert (storage_entries offset_in_table_image = [Segment 1 60 0 0 4 4 4 4])
    as Hst by (vm_compute; reflexivity).
  assert (code_entries offset_in_table_image ≠ []) as Hcs by by_decision.
  assert (Forall span_ok (code_entries offset_in_table_image)) as Hsp
    by by_decision.
  assert (e_phoff_of offset_in_table_image < p_offset (Segment 1 60 0 0 4 4 4 4)
          < ph_size_of offset_in_table_image) as Hoff
    by (vm_compute; split; reflexivity).
  split; [reflexivity|]. split; [exact offset_in_table_image_wf|].
  split; [exact Hst|]. split; [exact Hcs|]. split; [exact Hsp|].
  split; [exact Hoff|].
  exact (offset_into_table_raises (sample_fs offset_in_table_image) "in.elf"
           "out.stldr" offset_in_table_image (Segment 1 60 0 0 4 4 4 4)
           eq_refl offset_in_table_image_wf Hst Hcs Hsp Hoff).
Defined.

(** *** The merge does not depend on the order of the Code entries *)

Lemma is_min_of_unique m m' l l' :
  l ≡ₚ l' → is_min_of m l → is_min_of m' l' → m = m'.
Proof.
  intros Hp [Hin Hle] [Hin' Hle'].
  rewrite Hp in Hin. rewrite <- Hp in Hin'.
  pose proof (Hle _ Hin'). pose proof (Hle' _ Hin). lia.
Qed.

Lemma is_max_of_unique m m' l l' :
  l ≡ₚ l' → is_max_of m l → is_max_of m' l' → m = m'.
Proof.
  intros Hp [Hin Hle] [Hin' Hle'].
  rewrite Hp in Hin. rewrite <- Hp in Hin'.
  pose proof (Hle _ Hin'). pose proof (Hle' _ Hin). lia.
Qed.

Lemma existsb_Permutation {A} (f : A → bool) l l' :
  l ≡ₚ l' → existsb f l = existsb f l'.
Proof.
  induction 1 as [|x l l' _ IH|x y l|l1 l2 l3 _ IH1 _ IH2]; cbn [existsb].
  - done.
  - by rewrite IH.
  - by destruct (f x), (f y).
  - by rewrite IH1.
Qed.

Lemma or_flags_Permutation cs cs' : cs ≡ₚ cs' → or_flags cs = or_flags cs'.
Proof.
  intros Hp. apply Z.bits_inj'. intros k _.
  rewrite !or_flags_testbit. by apply existsb_Permutation.
Qed.

Lemma len_Permutation {A} (l l' : list A) : l ≡ₚ l' → len l = len l'.
Proof. intros Hp. unfold len. by rewrite Hp. Qed.

Lemma merged_code_seg_Permutation cs cs' :
  cs ≡ₚ cs' → 2 ≤ len cs → merged_code_seg cs = merged_code_seg cs'.
Proof.
  intros Hp Hlen.
  assert (2 ≤ len cs') as Hlen' by (by rewrite <- (len_Permutation _ _ Hp)).
  destruct (merged_code_seg_fields cs Hlen)
    as (Ht & Ho & Hv & Hpa & Hf & Hm & Hfl & Hal).
  destruct (merged_code_seg_fields cs' Hlen')
    as (Ht' & Ho' & Hv' & Hpa' & Hf' & Hm' & Hfl' & Hal').
  pose proof (is_min_of_unique _ _ _ _ (fmap_Permutation p_offset _ _ Hp) Ho Ho')
    as Eo.
  pose proof (is_min_of_unique _ _ _ _ (fmap_Permutation p_vaddr _ _ Hp) Hv Hv')
    as Ev.
  pose proof (is_max_of_unique _ _ _ _
                (fmap_Permutation (λ s, p_offset s + p_filesz s) _ _ Hp) Hf Hf')
    as Ef.
  pose proof (is_max_of_unique _ _ _ _
                (fmap_Permutation (λ s, p_vaddr s + p_memsz s) _ _ Hp) Hm Hm')
    as Em.
  pose proof (or_flags_Permutation _ _ Hp) as Efl.
  destruct (merged_code_seg cs) as [t o va pa fs ms fl al].
  destruct (merged_code_seg cs') as [t' o' va' pa' fs' ms' fl' al'].
  cbn [p_type p_offset p_vaddr p_paddr p_filesz p_memsz p_flags p_align] in *.
  f_equal; lia.
Qed.

(** What the merge of two or more entries prints and returns. *)
Lemma merge_code_run cs σ :
  2 ≤ len cs →
  merge_code cs σ =
    ([MsgMerging (len cs);
      MsgMerged (p_offset (merged_code_seg cs)) (p_vaddr (merged_code_seg cs))
                (p_filesz (merged_code_seg cs)) (p_memsz (merged_code_seg cs))],
     (Ok (merged_code_seg cs), σ)).
Proof.
  intros Hlen.
  destruct cs as [|c [|c' rest]]; [unfold len in Hlen; simpl in Hlen; lia..|].
  unfold merge_code. rewrite decide_True by lia. done.
Qed.

(** X10: the merged code entry, and the two messages that announce it, do
    not depend on the order in which the Code entries stand in the table. *)
Theorem merge_order_independent cs cs' σ :
  cs ≡ₚ cs' →
  printed (merge_code cs) σ = printed (merge_code cs') σ ∧
  exec (merge_code cs) σ = exec (merge_code cs') σ.
Proof.
  intros Hp.
  destruct (decide (2 ≤ len cs)) as [Hlen|Hlen].
  - assert (2 ≤ len cs') as Hlen' by (by rewrite <- (len_Permutation _ _ Hp)).
    unfold printed, exec. rewrite !merge_code_run by done.
    by rewrite (merged_code_seg_Permutation cs cs' Hp Hlen),
      (len_Permutation _ _ Hp).
  - assert (cs = cs') as ->; [|done].
    destruct cs as [|c [|c' rest]].
    + by apply Permutation_nil_l in Hp.
    + by apply Permutation_singleton_l in Hp.
    + exfalso. apply Hlen. unfold len. cbn [length]. lia.
Qed.

Lemma merge_order_independent_witness :
  [sample_code2; sample_code1] ≡ₚ [sample_code1; sample_code2] ∧
  printed (merge_code [sample_code2; sample_code1]) ∅ =
    printed (merge_code [sample_code1; sample_code2]) ∅ ∧
  exec (merge_code [sample_code2; sample_code1]) ∅ =
    exec (merge_code [sample_code1; sample_code2]) ∅.
Proof.
  split; [apply perm_swap|].
  exact (merge_order_independent [sample_code2; sample_code1]
           [sample_code1; sample_code2] ∅ (perm_swap _ _ _)).
Defined.

(** X11: when every Code entry has the same distance between its virtual
    address and its file offset, the merged entry has that distance too, and
    the file range and the memory range of every Code entry lie inside the
    ranges of the merged entry: a byte of a Code entry is loaded from the
    merged entry at the address it had. *)
Theorem merged_entry_keeps_mapping σ cs delta :
  cs ≠ [] →
  (∀ c, c ∈ cs → p_vaddr c - p_offset c = delta) →
  ∃ mc,
    exec (merge_code cs) σ = (Ok mc, σ) ∧
    p_vaddr mc - p_offset mc = delta ∧
    ∀ c, c ∈ cs →
      p_offset mc ≤ p_offset c ∧
      p_offset c + p_filesz c ≤ p_offset mc + p_filesz mc ∧
      p_vaddr mc ≤ p_vaddr c ∧
      p_vaddr c + p_memsz c ≤ p_vaddr mc + p_memsz mc.
Proof.
  intros Hne Hd. exists (merged_code_seg cs).
  split; [by apply merge_code_exec|].
  destruct cs as [|c0 [|c1 rest]]; [done| |].
  { cbn [merged_code_seg]. split; [apply Hd, list_elem_of_here|].
    intros c Hc. apply list_elem_of_singleton in Hc as ->. lia. }
  set (cs := c0 :: c1 :: rest) in *.
  destruct (merged_code_seg_fields cs) as (_ & Ho & Hv & _ & Hf & Hm & _).
  { unfold len, cs. cbn [length]. lia. }
  apply is_min_of_fmap in Ho as (co & Hco & Eo & Hole).
  apply is_min_of_fmap in Hv as (cv & Hcv & Ev & Hvle).
  apply is_max_of_fmap in Hf as (cf & Hcf & Ef & Hfle).
  apply is_max_of_fmap in Hm as (cm & Hcm & Em & Hmle).
  pose proof (Hd co Hco). pose proof (Hd cv Hcv).
  pose proof (Hole cv Hcv). pose proof (Hvle co Hco).
  split; [lia|].
  intros c Hc.
  pose proof (Hole c Hc). pose proof (Hvle c Hc).
  pose proof (Hfle c Hc). pose proof (Hmle c Hc). lia.
Qed.

Lemma merged_entry_keeps_mapping_witness :
  code_entries scenario_image ≠ [] ∧
  (∀ c, c ∈ code_entries scenario_image → p_vaddr c - p_offset c = 3584) ∧
  ∃ mc,
    exec (merge_code (code_entries scenario_image)) ∅ = (Ok mc, ∅) ∧
    p_vaddr mc - p_offset mc = 3584 ∧
    ∀ c, c ∈ code_entries scenario_image →
      p_offset mc ≤ p_offset c ∧
      p_offset c + p_filesz c ≤ p_offset mc + p_filesz mc ∧
      p_vaddr mc ≤ p_vaddr c ∧
      p_vaddr c + p_memsz c ≤ p_vaddr mc + p_memsz mc.
Proof.
  assert (code_entries scenario_image = [scenario_code1; scenario_code2]) as Hcs
    by (vm_compute; reflexivity).
  assert (code_entries scenario_image ≠ []) as Hne by (by rewrite Hcs).
  assert (∀ c, c ∈ code_entries scenario_image → p_vaddr c - p_offset c = 3584)
    as Hd.
  { rewrite Hcs. intros c Hc.
    apply elem_of_cons in Hc as [->|Hc]; [reflexivity|].
    apply list_elem_of_singleton in Hc as ->. reflexivity. }
  split; [exact Hne|]. split; [exact Hd|].
  exact (merged_entry_keeps_mapping ∅ (code_entries scenario_image) 3584 Hne Hd).
Defined.

(** X12: when several loadable entries stand at virtual address 0, the table
    the merge returns starts with the last of them; the earlier ones are
    dropped. *)
Theorem last_storage_wins σ d sts st :
  well_formed d →
  storage_entries d = sts ++ [st] →
  code_entries d ≠ [] →
  Forall span_ok (code_entries d) →
  ∃ table mc,
    exec (merge_load_segments (old_table d) (e_phentsize_of d) (e_phnum_of d)) σ =
      (Ok (table, 2), σ) ∧
    exec (merge_code (code_entries d)) σ = (Ok mc, σ) ∧
    parse_table table 32 2 = [st; mc].
Proof.
  intros Hwf Hst Hcs Hsp.
  exists (seg_bytes st ++ seg_bytes (merged_code_seg (code_entries d))),
         (merged_code_seg (code_entries d)).
  assert (32 ≤ e_phentsize_of d) as He by (rewrite (wf_phentsize d Hwf); lia).
  assert (st ∈ ph_table d) as Hin.
  { assert (st ∈ storage_entries d) as Hin by (rewrite Hst; set_solver).
    by apply list_elem_of_filter in Hin as [_ ?]. }
  assert (seg_fits st) as Hfst.
  { pose proof (ph_table_fits d) as Hall. rewrite Forall_forall in Hall.
    by apply Hall. }
  assert (seg_fits (merged_code_seg (code_entries d))) as Hfmc.
  { apply merged_code_seg_fits; [done| | |done].
    - apply Forall_forall. intros c Hc. apply list_elem_of_filter in Hc as [_ Hc].
      pose proof (ph_table_fits d) as Hall. rewrite Forall_forall in Hall.
      by apply Hall.
    - apply Forall_forall. intros c Hc. by apply list_elem_of_filter in Hc as [? _]. }
  split; [|split].
  - rewrite (merge_load_segments_merged (old_table d) (e_phentsize_of d)
               (e_phnum_of d) He (old_table_inside d Hwf) st).
    + by rewrite (parse_old_table d Hwf).
    + rewrite (parse_old_table d Hwf). fold (storage_entries d).
      rewrite Hst. apply last_snoc.
    + by rewrite (parse_old_table d Hwf).
    + by rewrite (parse_old_table d Hwf).
  - by apply merge_code_exec.
  - unfold parse_table. change (seqZ 0 2) with [0; 1]. cbn [fmap list_fmap].
    f_equal; [|f_equal].
    + by apply entry_at_seg_bytes.
    + change (1 * 32) with (32 + 0). rewrite <- (len_seg_bytes st).
      rewrite entry_at_app_r by lia.
      rewrite <- (app_nil_r (seg_bytes (merged_code_seg _))).
      by apply entry_at_seg_bytes.
Qed.

Lemma two_storage_image_wf : well_formed two_storage_image.
Proof. by_decision. Qed.

Lemma last_storage_wins_witness :
  well_formed two_storage_image ∧
  storage_entries two_storage_image =
    [sample_storage] ++ [Segment 1 152 0 0 4 4 6 4] ∧
  code_entries two_storage_image ≠ [] ∧
  Forall span_ok (code_entries two_storage_image) ∧
  ∃ table mc,
    exec (merge_load_segments (old_table two_storage_image)
            (e_phentsize_of two_storage_image) (e_phnum_of two_storage_image)) ∅ =
      (Ok (table, 2), ∅) ∧
    exec (merge_code (code_entries two_storage_image)) ∅ = (Ok mc, ∅) ∧
    parse_table table 32 2 = [Segment 1 152 0 0 4 4 6 4; mc].
Proof.
  assert (storage_entries two_storage_image =
          [sample_storage] ++ [Segment 1 152 0 0 4 4 6 4]) as Hst
    by (vm_compute; reflexivity).
  assert (code_entries two_storage_image ≠ []) as Hcs by by_decision.
  assert (Forall span_ok (code_entries two_storage_image)) as Hsp by by_decision.
  split; [exact two_storage_image_wf|]. split; [exact Hst|].
  split; [exact Hcs|]. split; [exact Hsp|].
  exact (last_storage_wins ∅ two_storage_image [sample_storage]
           (Segment 1 152 0 0 4 4 6 4) two_storage_image_wf Hst Hcs Hsp).
Defined.

(** *** The bytes that only move *)

Section moved.
Context (d table : bytes) (n' : Z).
Hypothesis Hwf : well_formed d.
Hypothesis Hn' : 0 ≤ n' < 65536.
Hypothesis Htable_len : len table = 32 * n'.
Hypothesis Htable_offsets :
  ∀ i, 0 ≤ i < n' →
    get32 table (i * 32 + 4) > e_phoff_of d →
    ph_size_of d ≤ get32 table (i * 32 + 4).

Local Abbreviation phoff := (e_phoff_of d).
Local Abbreviation shoff := (e_shoff_of d).
Local Abbreviation ph_size := (ph_size_of d).
Local Abbreviation out := (rebuild d table n').

(** A byte behind the old table that is not part of a section data-offset
    field is found [ph_size] bytes earlier. *)
Lemma out_lookup_moved (k : nat) :
  phoff + ph_size ≤ Z.of_nat k < len d →
  (shoff > phoff → ∀ i, 0 ≤ i < e_shnum_of d →
     ¬ (shoff + i * e_shentsize_of d + 16 ≤ Z.of_nat k
        < shoff + i * e_shentsize_of d + 20)) →
  out !! (k - Z.to_nat ph_size)%nat = d !! k.
Proof.
  intros Hk Hsec.
  pose proof (ph_size_nonneg d Hwf) as Hsz. pose proof (wf_phoff d Hwf).
  pose proof (len_body d table Hwf) as Hlb.
  assert (rebuild_table d table n' !! (k - Z.to_nat ph_size)%nat = d !! k) as Htbl.
  { rewrite (rebuild_table_lookup_mid d table n' Hwf Htable_len Htable_offsets)
      by lia.
    f_equal. lia. }
  rewrite rebuild_unfold. case_decide as Hgt; [|done].
  destruct (wf_sections d Hwf Hgt) as (Hafter & Hwide & Hin & _).
  destruct (patch_fields_props (λ v, v > phoff ∧ v < 4294967295) ph_size
              (shoff - ph_size) (e_shentsize_of d) 16
              Hsz ltac:(lia) ltac:(lia) ltac:(lia) (e_shnum_of d)
              (rebuild_table d table n'))
    as (_ & _ & Hfr).
  { intros i Hi.
    by apply (rebuild_table_patchable d table n' Hwf Hn' Htable_len Htable_offsets). }
  rewrite Hfr; [done|].
  intros i Hi. specialize (Hsec Hgt i Hi). unfold field_pos. lia.
Qed.
End moved.

(** X13: apart from the fields the program rewrites, the output holds the
    bytes of the input: a byte in front of the old table stays where it was
    (the header fields phoff, shoff and phnum excepted), a byte behind the old
    table is found oldTableSize bytes earlier (the data-offset fields of the
    section headers excepted, when the section table lies behind the old
    table). *)
Theorem payload_preserved σ input_file output_file d st :
  σ !! input_file = Some d →
  valid_input d st →
  ∃ out,
    exec (reorder_elf input_file output_file) σ =
      (Ok true, <[output_file := out]> σ) ∧
    ∀ k : nat,
      Z.of_nat k < len d →
      ¬ (e_phoff_of d ≤ Z.of_nat k < e_phoff_of d + ph_size_of d) →
      ¬ (28 ≤ Z.of_nat k < 36) → ¬ (44 ≤ Z.of_nat k < 46) →
      (e_shoff_of d > e_phoff_of d → ∀ i, 0 ≤ i < e_shnum_of d →
         ¬ (e_shoff_of d + i * e_shentsize_of d + 16 ≤ Z.of_nat k
            < e_shoff_of d + i * e_shentsize_of d + 20)) →
      out !! Z.to_nat (relocate (e_phoff_of d) (ph_size_of d) (Z.of_nat k)) = d !! k.
Proof.
  intros Hin Hv. exists (rebuild d (new_table d st) 2).
  split; [by apply reorder_elf_valid|].
  intros k Hk Htab Hf1 Hf2 Hsec.
  pose proof (valid_wf d st Hv) as Hwf.
  pose proof (ph_size_nonneg d Hwf).
  unfold relocate. case_decide as Hgt.
  - replace (Z.to_nat (Z.of_nat k - ph_size_of d))
      with (k - Z.to_nat (ph_size_of d))%nat by lia.
    apply (out_lookup_moved d _ 2 Hwf ltac:(lia) (len_new_table d st)
             (new_table_offsets d st Hv)); [lia|done].
  - rewrite Nat2Z.id.
    assert (Z.of_nat k ≠ e_phoff_of d) as Hne.
    { intros Heq. pose proof (two_entries d st Hv).
      pose proof (ph_size_32 d Hwf). lia. }
    apply (out_lookup_header d _ 2 Hwf ltac:(lia) (len_new_table d st)
             (new_table_offsets d st Hv)); [lia|done|done].
Qed.

Lemma payload_preserved_witness :
  sample_fs sample_image !! "in.elf" = Some sample_image ∧
  valid_input sample_image sample_storage ∧
  ∃ out,
    exec (reorder_elf "in.elf" "out.stldr") (sample_fs sample_image) =
      (Ok true, <["out.stldr" := out]> (sample_fs sample_image)) ∧
    ∀ k : nat,
      Z.of_nat k < len sample_image →
      ¬ (e_phoff_of sample_image ≤ Z.of_nat k
         < e_phoff_of sample_image + ph_size_of sample_image) →
      ¬ (28 ≤ Z.of_nat k < 36) → ¬ (44 ≤ Z.of_nat k < 46) →
      (e_shoff_of sample_image > e_phoff_of sample_image →
       ∀ i, 0 ≤ i < e_shnum_of sample_image →
         ¬ (e_shoff_of sample_image + i * e_shentsize_of sample_image + 16
            ≤ Z.of_nat k
            < e_shoff_of sample_image + i * e_shentsize_of sample_image + 20)) →
      out !! Z.to_nat (relocate (e_phoff_of sample_image)
                         (ph_size_of sample_image) (Z.of_nat k))
        = sample_image !! k.
Proof.
  split; [reflexivity|]. split; [exact sample_image_valid|].
  exact (payload_preserved (sample_fs sample_image) "in.elf" "out.stldr"
           sample_image sample_storage eq_refl sample_image_valid).
Defined.

(** X14: the section table of the output.  The header field shoff is
    decreased by oldTableSize when the section table lies behind the old
    program-header table and is kept otherwise; the number and the size of
    the section headers, and the size of a program header, are kept. *)
Theorem output_section_table σ input_file output_file d st :
  σ !! input_file = Some d →
  valid_input d st →
  ∃ out,
    exec (reorder_elf input_file output_file) σ =
      (Ok true, <[output_file := out]> σ) ∧
    e_shoff_of out =
      (if decide (e_shoff_of d > e_phoff_of d)
       then e_shoff_of d - e_phentsize_of d * e_phnum_of d
       else e_shoff_of d) ∧
    e_shnum_of out = e_shnum_of d ∧
    e_shentsize_of out = e_shentsize_of d ∧
    e_phentsize_of out = e_phentsize_of d.
Proof.
  intros Hin Hv. exists (rebuild d (new_table d st) 2).
  split; [by apply reorder_elf_valid|].
  pose proof (valid_wf d st Hv) as Hwf.
  split; [|split; [|split]].
  - apply (out_shoff d _ 2 Hwf ltac:(lia) (len_new_table d st)
             (new_table_offsets d st Hv)).
  - apply (out_shnum d _ 2 Hwf ltac:(lia) (len_new_table d st)
             (new_table_offsets d st Hv)).
  - apply (out_shentsize d _ 2 Hwf ltac:(lia) (len_new_table d st)
             (new_table_offsets d st Hv)).
  - rewrite (out_phentsize d _ 2 Hwf ltac:(lia) (len_new_table d st)
               (new_table_offsets d st Hv)).
    by rewrite (wf_phentsize d Hwf).
Qed.

Lemma output_section_table_witness :
  sample_fs sample_image !! "in.elf" = Some sample_image ∧
  valid_input sample_image sample_storage ∧
  ∃ out,
    exec (reorder_elf "in.elf" "out.stldr") (sample_fs sample_image) =
      (Ok true, <["out.stldr" := out]> (sample_fs sample_image)) ∧
    e_shoff_of out =
      (if decide (e_shoff_of sample_image > e_phoff_of sample_image)
       then e_shoff_of sample_image
            - e_phentsize_of sample_image * e_phnum_of sample_image
       else e_shoff_of sample_image) ∧
    e_shnum_of out = e_shnum_of sample_image ∧
    e_shentsize_of out = e_shentsize_of sample_image ∧
    e_phentsize_of out = e_phentsize_of sample_image.
Proof.
  split; [reflexivity|]. split; [exact sample_image_valid|].
  exact (output_section_table (sample_fs sample_image) "in.elf" "out.stldr"
           sample_image sample_storage eq_refl sample_image_valid).
Defined.

(** X15: the output of a valid input is itself a valid input, and its
    program-header table is the last thing in the file: the table ends where
    the file ends, and the section table, if any, starts in front of it. *)
Theorem output_table_at_end σ input_file output_file d st :
  σ !! input_file = Some d →
  valid_input d st →
  ∃ out,
    exec (reorder_elf input_file output_file) σ =
      (Ok true, <[output_file := out]> σ) ∧
    valid_input out (relocate_seg (e_phoff_of d) (ph_size_of d) st) ∧
    e_phoff_of out + e_phentsize_of out * e_phnum_of out = len out ∧
    e_shoff_of out ≤ e_phoff_of out.
Proof.
  intros Hin Hv. exists (rebuild d (new_table d st) 2).
  split; [by apply reorder_elf_valid|].
  pose proof (valid_wf d st Hv) as Hwf.
  pose proof (out_valid d st Hv) as Hv1.
  split; [done|].
  rewrite (valid_out_phoff d st Hv), (valid_out_phnum d st Hv),
    (valid_out_len d st Hv).
  rewrite (out_phentsize d _ 2 Hwf ltac:(lia) (len_new_table d st)
             (new_table_offsets d st Hv)).
  split; [lia|].
  rewrite (out_shoff d _ 2 Hwf ltac:(lia) (len_new_table d st)
             (new_table_offsets d st Hv)).
  pose proof (wf_table d Hwf). pose proof (ph_size_nonneg d Hwf).
  unfold relocate. case_decide as Hgt; [|lia].
  destruct (wf_sections d Hwf Hgt) as (_ & Hw & Hins & _).
  pose proof (get16_bounds d 48). unfold e_shnum_of in *. nia.
Qed.

Lemma output_table_at_end_witness :
  sample_fs sample_image !! "in.elf" = Some sample_image ∧
  valid_input sample_image sample_storage ∧
  ∃ out,
    exec (reorder_elf "in.elf" "out.stldr") (sample_fs sample_image) =
      (Ok true, <["out.stldr" := out]> (sample_fs sample_image)) ∧
    valid_input out (relocate_seg (e_phoff_of sample_image)
                       (ph_size_of sample_image) sample_storage) ∧
    e_phoff_of out + e_phentsize_of out * e_phnum_of out = len out ∧
    e_shoff_of out ≤ e_phoff_of out.
Proof.
  split; [reflexivity|]. split; [exact sample_image_valid|].
  exact (output_table_at_end (sample_fs sample_image) "in.elf" "out.stldr"
           sample_image sample_storage eq_refl sample_image_valid).
Defined.

(** *** Rewriting a field with the value it holds *)

Lemma poke_slice_id b pos n :
  0 ≤ pos → 0 ≤ n → pos + n ≤ len b →
  poke b pos (py_slice b pos (pos + n)) = b.
Proof.
  intros Hpos Hn Hin. apply list_eq. intros k.
  pose proof (len_py_slice b pos (pos + n) Hpos ltac:(lia) Hin) as Hl.
  destruct (decide (pos ≤ Z.of_nat k < pos + n)) as [Hk|Hk].
  - rewrite poke_lookup_in by lia.
    rewrite py_slice_lookup by lia. rewrite decide_True by lia.
    f_equal. lia.
  - apply poke_lookup_other; lia.
Qed.

Lemma poke_get32_id b pos :
  0 ≤ pos → pos + 4 ≤ len b → poke b pos (le_encode 4 (get32 b pos)) = b.
Proof.
  intros Hpos Hin. rewrite le_encode_get32 by done.
  by apply poke_slice_id.
Qed.

Lemma poke_get16_id b pos :
  0 ≤ pos → pos + 2 ≤ len b → poke b pos (le_encode 2 (get16 b pos)) = b.
Proof.
  intros Hpos Hin. rewrite le_encode_get16 by done.
  by apply poke_slice_id.
Qed.

Lemma patch_fields_id (cond : Z → Prop) `{!∀ v, Decision (cond v)}
    delta base stride foff n b :
  (∀ i, 0 ≤ i < n → ¬ cond (get32 b (base + i * stride + foff))) →
  patch_fields cond delta base stride foff n b = b.
Proof.
  intros Hno. unfold patch_fields.
  assert (∀ l, (∀ i, i ∈ l → 0 ≤ i < n) →
            foldl (λ b i, patch_field cond delta b (base + i * stride + foff)) b l
            = b) as Hfold.
  { induction l as [|i l IH]; intros Hl; [done|]. cbn [foldl].
    unfold patch_field at 2.
    rewrite decide_False; [|apply Hno; apply Hl; apply list_elem_of_here].
    apply IH. intros j Hj. apply Hl. by apply list_elem_of_further. }
  apply Hfold. intros i Hi. apply elem_of_seqZ in Hi. lia.
Qed.

(** An image whose table of two entries already stands at the end, in the
    order Storage, Code, is rebuilt as itself. *)
Lemma rebuild_fixed d st c :
  well_formed d →
  e_phnum_of d = 2 →
  e_phoff_of d + 64 = len d →
  e_shoff_of d ≤ e_phoff_of d →
  ph_table d = [st; c] →
  is_storage st → is_code c →
  p_offset st ≤ e_phoff_of d → p_offset c ≤ e_phoff_of d →
  rebuild d (new_table d st) 2 = d.
Proof.
  intros Hwf Hnum Hend Hsh Htab Hst Hc Hso Hco.
  pose proof (wf_phoff d Hwf) as Hphoff. pose proof (wf_len d Hwf) as Hlen.
  pose proof (wf_phentsize d Hwf) as Hent.
  assert (ph_size_of d = 64) as Hsz by (unfold ph_size_of; rewrite Hent, Hnum; lia).
  assert (st = entry_at d (e_phoff_of d) ∧ c = entry_at d (e_phoff_of d + 32))
    as [Est Ec].
  { unfold ph_table in Htab. rewrite Hnum, Hent in Htab.
    change (seqZ 0 2) with [0; 1] in Htab. cbn [fmap list_fmap] in Htab.
    injection Htab as <- <-. split; f_equal; lia. }
  assert (new_table d st = old_table d) as Htable.
  { unfold new_table, code_entries. rewrite Htab.
    rewrite filter_cons_False by (intros [_ ?]; by destruct Hst).
    rewrite filter_cons_True by done. rewrite filter_nil.
    cbn [merged_code_seg]. rewrite Est, Ec.
    rewrite !seg_bytes_entry_at by lia.
    replace (e_phoff_of d + 32 + 32) with (e_phoff_of d + 64) by lia.
    rewrite py_slice_app_adj by lia.
    unfold old_table. by rewrite Hsz. }
  rewrite Htable.
  assert (py_slice_to d (e_phoff_of d) ++
          py_slice_from d (e_phoff_of d + ph_size_of d) ++ old_table d = d)
    as Hbody.
  { rewrite py_slice_to_take, py_slice_from_drop by lia.
    rewrite Hsz, Hend. rewrite drop_ge by (unfold len; lia). cbn [app].
    unfold old_table. rewrite Hsz, Hend.
    rewrite py_slice_nonneg by lia.
    rewrite (take_ge (drop _ _)) by (rewrite length_drop; unfold len in *; lia).
    apply take_drop. }
  assert (len (py_slice_to d (e_phoff_of d) ++
               py_slice_from d (e_phoff_of d + ph_size_of d)) = e_phoff_of d)
    as Hlb.
  { rewrite (len_body d d Hwf). lia. }
  assert (rebuild_header d (old_table d) 2 = d) as Hhdr.
  { unfold rebuild_header. cbn zeta. rewrite Hlb, <- app_assoc, Hbody.
    rewrite decide_False by lia.
    change (e_phoff_of d) with (get32 d 28) at 1.
    rewrite poke_get32_id by lia.
    rewrite <- Hnum. unfold e_phnum_of. apply poke_get16_id; lia. }
  assert (rebuild_table d (old_table d) 2 = d) as Htbl.
  { unfold rebuild_table. cbn zeta. rewrite Hhdr, Hlb, Hent.
    apply patch_fields_id. intros i Hi.
    assert (i = 0 ∨ i = 1) as [-> | ->] by lia.
    - change (get32 d (e_phoff_of d + 0 * 32 + 4))
        with (p_offset (entry_at d (e_phoff_of d + 0 * 32))).
      replace (e_phoff_of d + 0 * 32) with (e_phoff_of d) by lia.
      rewrite <- Est. lia.
    - change (get32 d (e_phoff_of d + 1 * 32 + 4))
        with (p_offset (entry_at d (e_phoff_of d + 1 * 32))).
      replace (e_phoff_of d + 1 * 32) with (e_phoff_of d + 32) by lia.
      rewrite <- Ec. lia. }
  unfold rebuild. cbn zeta. by rewrite decide_False by lia.
Qed.

(** X16: the transform is idempotent on files: applied to an output it
    produced from a valid input, it writes the same bytes again. *)
Theorem second_run_same_bytes σ input_file mid_file output_file d st :
  σ !! input_file = Some d →
  valid_input d st →
  ∃ out,
    exec (reorder_elf input_file mid_file) σ =
      (Ok true, <[mid_file := out]> σ) ∧
    exec (reorder_elf mid_file output_file) (<[mid_file := out]> σ) =
      (Ok true, <[output_file := out]> (<[mid_file := out]> σ)).
Proof.
  intros Hin Hv.
  set (out := rebuild d (new_table d st) 2).
  set (st1 := relocate_seg (e_phoff_of d) (ph_size_of d) st).
  set (mc1 := relocate_seg (e_phoff_of d) (ph_size_of d)
                (merged_code_seg (code_entries d))).
  pose proof (valid_wf d st Hv) as Hwf.
  pose proof (out_valid d st Hv) as Hv1. fold out st1 in Hv1.
  pose proof (valid_wf out st1 Hv1) as Hwf1.
  exists out. split; [by apply reorder_elf_valid|].
  rewrite (reorder_elf_valid out st1 Hv1 mid_file output_file)
    by apply lookup_insert_eq.
  do 2 f_equal.
  pose proof (valid_out_table d st Hv) as Htab. fold out st1 mc1 in Htab.
  pose proof (valid_out_phoff d st Hv) as Hphoff. fold out in Hphoff.
  pose proof (valid_out_len d st Hv) as Hlen. fold out in Hlen.
  pose proof (wf_table d Hwf). pose proof (wf_phoff d Hwf).
  pose proof (ph_size_nonneg d Hwf).
  destruct (storage_is_storage d st Hv) as [_ Hst].
  pose proof (merged_is_code (code_entries d) (vi_code d st Hv) (codes_are_code d))
    as Hmc.
  pose proof (storage_fits d st Hv) as (_ & [Hso _] & _).
  pose proof (merged_fits d st Hv) as (_ & [Hmo _] & _).
  pose proof (relocated_offset d st Hv _ (storage_offset_ok d st Hv) Hso) as [_ Hs2].
  pose proof (relocated_offset d st Hv _ (merged_offset_ok d st Hv) Hmo) as [_ Hm2].
  apply (rebuild_fixed out st1 mc1); try done.
  - apply (valid_out_phnum d st Hv).
  - lia.
  - unfold out.
    rewrite (out_shoff d _ 2 Hwf ltac:(lia) (len_new_table d st)
               (new_table_offsets d st Hv)).
    fold out. rewrite Hphoff.
    unfold relocate. case_decide as Hgt; [|lia].
    destruct (wf_sections d Hwf Hgt) as (_ & Hw & Hins & _).
    pose proof (get16_bounds d 48). unfold e_shnum_of in *. nia.
  - rewrite Hphoff. unfold st1. cbn. lia.
  - rewrite Hphoff. unfold mc1. cbn. lia.
Qed.

Lemma second_run_same_bytes_witness :
  sample_fs sample_image !! "in.elf" = Some sample_image ∧
  valid_input sample_image sample_storage ∧
  ∃ out,
    exec (reorder_elf "in.elf" "mid.stldr") (sample_fs sample_image) =
      (Ok true, <["mid.stldr" := out]> (sample_fs sample_image)) ∧
    exec (reorder_elf "mid.stldr" "out.stldr")
         (<["mid.stldr" := out]> (sample_fs sample_image)) =
      (Ok true, <["out.stldr" := out]> (<["mid.stldr" := out]> (sample_fs sample_image))).
Proof.
  split; [reflexivity|]. split; [exact sample_image_valid|].
  exact (second_run_same_bytes (sample_fs sample_image) "in.elf" "mid.stldr"
           "out.stldr" sample_image sample_storage eq_refl sample_image_valid).
Defined.

(** *** A table that is empty *)

Lemma patch_field_zero (cond : Z → Prop) `{!∀ v, Decision (cond v)} b pos :
  0 ≤ pos → pos + 4 ≤ len b → patch_field cond 0 b pos = b.
Proof.
  intros Hpos Hin. unfold patch_field. case_decide; [|done].
  rewrite Z.sub_0_r. by apply poke_get32_id.
Qed.

Lemma patch_fields_zero (cond : Z → Prop) `{!∀ v, Decision (cond v)}
    base stride foff n b :
  0 ≤ base → 0 ≤ stride → 0 ≤ foff →
  (∀ i, 0 ≤ i < n → base + i * stride + foff + 4 ≤ len b) →
  patch_fields cond 0 base stride foff n b = b.
Proof.
  intros Hbase Hstride Hfoff Hin. unfold patch_fields.
  assert (∀ l, (∀ i, i ∈ l → 0 ≤ i < n) →
            foldl (λ b i, patch_field cond 0 b (base + i * stride + foff)) b l
            = b) as Hfold.
  { induction l as [|i l IH]; intros Hl; [done|]. cbn [foldl].
    pose proof (Hl i (list_elem_of_here _ _)) as Hi.
    rewrite patch_field_zero; [|nia|by apply Hin].
    apply IH. intros j Hj. apply Hl. by apply list_elem_of_further. }
  apply Hfold. intros i Hi. apply elem_of_seqZ in Hi. lia.
Qed.

Lemma rebuild_empty_table d :
  well_formed d → e_phnum_of d = 0 →
  rebuild d (old_table d) (e_phnum_of d) = poke d 28 (le_encode 4 (len d)).
Proof.
  intros Hwf Hnum.
  pose proof (wf_phoff d Hwf) as Hphoff. pose proof (wf_len d Hwf) as Hlen.
  pose proof (wf_table d Hwf) as Htab.
  assert (ph_size_of d = 0) as Hsz by (unfold ph_size_of; rewrite Hnum; lia).
  assert (old_table d = []) as Hold.
  { apply length_zero_iff_nil.
    pose proof (len_old_table d Hwf) as Hl. unfold len in Hl. lia. }
  assert (py_slice_to d (e_phoff_of d) ++
          py_slice_from d (e_phoff_of d + ph_size_of d) = d) as Hbody.
  { rewrite Hsz, Z.add_0_r. rewrite py_slice_to_take, py_slice_from_drop by lia.
    apply take_drop. }
  set (d1 := poke d 28 (le_encode 4 (len d))).
  assert (len d1 = len d) as Hlen1 by apply len_poke.
  assert (get16 d1 44 = 0) as Hnum1.
  { unfold d1. rewrite get16_poke_other by (rewrite ?len_le_encode; lia).
    exact Hnum. }
  assert (get32 d1 32 = e_shoff_of d) as Hsh1.
  { unfold d1. by rewrite get32_poke_other by (rewrite ?len_le_encode; lia). }
  assert (rebuild_header d (old_table d) (e_phnum_of d) = d1) as Hhdr.
  { unfold rebuild_header. cbn zeta. rewrite Hold, app_nil_r, Hbody, Hnum, Hsz.
    fold d1.
    pose proof (poke_get16_id d1 44 ltac:(lia) ltac:(lia)) as Hp16.
    rewrite Hnum1 in Hp16. rewrite Hp16.
    case_decide; [|done].
    rewrite Z.sub_0_r, <- Hsh1. apply poke_get32_id; lia. }
  assert (rebuild_table d (old_table d) (e_phnum_of d) = d1) as Htbl.
  { unfold rebuild_table. cbn zeta. rewrite Hhdr, Hnum.
    unfold patch_fields. by rewrite seqZ_nil by lia. }
  unfold rebuild. cbn zeta. rewrite Htbl. case_decide as Hgt; [|done].
  destruct (wf_sections d Hwf Hgt) as (_ & Hw & Hin & _).
  rewrite Hsz, Z.sub_0_r.
  apply patch_fields_zero; [lia..|].
  intros i Hi. rewrite Hlen1. nia.
Qed.

(** X17: an image that announces no program header.  The transform warns
    that there is no StorageInfo segment and returns True; the file it writes
    is the input with a single field changed, phoff, which now holds the
    length of the file. *)
Theorem empty_table_only_moves_phoff σ input_file output_file d :
  σ !! input_file = Some d →
  well_formed d →
  e_phnum_of d = 0 →
  MsgNoStorage ∈ printed (reorder_elf input_file output_file) σ ∧
  exec (reorder_elf input_file output_file) σ =
    (Ok true, <[output_file := poke d 28 (le_encode 4 (len d))]> σ).
Proof.
  intros Hin Hwf Hnum.
  assert (ph_table d = []) as Htab.
  { unfold ph_table. rewrite Hnum. by rewrite seqZ_nil by lia. }
  assert (storage_entries d = []) as Hst by (unfold storage_entries; by rewrite Htab).
  split; [by apply (reorder_elf_warns_no_storage _ _ _ d)|].
  rewrite (reorder_elf_unchanged d Hwf input_file output_file σ Hin).
  - by rewrite rebuild_empty_table.
  - unfold offsets_ok. rewrite Htab. constructor.
  - by left.
Qed.

Lemma empty_table_image_wf : well_formed empty_table_image.
Proof. by_decision. Qed.

Lemma empty_table_only_moves_phoff_witness :
  sample_fs empty_table_image !! "in.elf" = Some empty_table_image ∧
  well_formed empty_table_image ∧
  e_phnum_of empty_table_image = 0 ∧
  MsgNoStorage ∈ printed (reorder_elf "in.elf" "out.stldr")
                   (sample_fs empty_table_image) ∧
  exec (reorder_elf "in.elf" "out.stldr") (sample_fs empty_table_image) =
    (Ok true,
     <["out.stldr" := poke empty_table_image 28
                        (le_encode 4 (len empty_table_image))]>
       (sample_fs empty_table_image)).
Proof.
  split; [reflexivity|]. split; [exact empty_table_image_wf|].
  split; [reflexivity|].
  exact (empty_table_only_moves_phoff (sample_fs empty_table_image) "in.elf"
           "out.stldr" empty_table_image eq_refl empty_table_image_wf eq_refl).
Defined.

(** *** Section headers on either side of the old table *)

(** X18: for every valid input whose section header table lies behind the
    program-header table (shoff > phoff), each section data offset that is
    greater than the original phoff and is not 0xFFFFFFFF is decreased by
    oldTableSize in the output; each data offset up to the original phoff,
    and the value 0xFFFFFFFF, is unchanged. *)
Theorem section_offsets_patched σ input_file output_file d st :
  σ !! input_file = Some d →
  valid_input d st →
  e_shoff_of d > e_phoff_of d →
  ∃ out,
    exec (reorder_elf input_file output_file) σ =
      (Ok true, <[output_file := out]> σ) ∧
    ∀ i, 0 ≤ i < e_shnum_of d →
      (sh_offset_at d i > e_phoff_of d → sh_offset_at d i ≠ 4294967295 →
       sh_offset_at out i = sh_offset_at d i - e_phentsize_of d * e_phnum_of d) ∧
      (sh_offset_at d i ≤ e_phoff_of d → sh_offset_at out i = sh_offset_at d i) ∧
      (sh_offset_at d i = 4294967295 → sh_offset_at out i = 4294967295).
Proof.
  intros Hin Hv Hgt. exists (rebuild d (new_table d st) 2).
  split; [by apply reorder_elf_valid|].
  intros i Hi.
  rewrite (out_sh_offset d _ 2 (valid_wf d st Hv) ltac:(lia)
             (len_new_table d st) (new_table_offsets d st Hv) i Hgt Hi).
  unfold relocate_sh, ph_size_of.
  pose proof (get32_bounds d (e_shoff_of d + i * e_shentsize_of d + 16)) as Hb.
  unfold fits32 in Hb. fold (sh_offset_at d i) in Hb.
  split; [|split]; intros; case_decide; lia.
Qed.

Lemma section_offsets_patched_witness :
  sample_fs sample_image !! "in.elf" = Some sample_image ∧
  valid_input sample_image sample_storage ∧
  e_shoff_of sample_image > e_phoff_of sample_image ∧
  ∃ out,
    exec (reorder_elf "in.elf" "out.stldr") (sample_fs sample_image) =
      (Ok true, <["out.stldr" := out]> (sample_fs sample_image)) ∧
    ∀ i, 0 ≤ i < e_shnum_of sample_image →
      (sh_offset_at sample_image i > e_phoff_of sample_image →
       sh_offset_at sample_image i ≠ 4294967295 →
       sh_offset_at out i =
         sh_offset_at sample_image i
         - e_phentsize_of sample_image * e_phnum_of sample_image) ∧
      (sh_offset_at sample_image i ≤ e_phoff_of sample_image →
       sh_offset_at out i = sh_offset_at sample_image i) ∧
      (sh_offset_at sample_image i = 4294967295 →
       sh_offset_at out i = 4294967295).
Proof.
  assert (e_shoff_of sample_image > e_phoff_of sample_image) as Hgt
    by (vm_compute; reflexivity).
  split; [reflexivity|]. split; [exact sample_image_valid|]. split; [exact Hgt|].
  exact (section_offsets_patched (sample_fs sample_image) "in.elf" "out.stldr"
           sample_image sample_storage eq_refl sample_image_valid Hgt).
Defined.

(** X19: for every valid input, a section header that stands in front of
    the program-header table (and behind the file header) keeps its data
    offset in the output even when that offset is greater than the original
    phoff and is not 0xFFFFFFFF: the offset is not decreased by oldTableSize,
    although a byte it pointed to behind the old table is found oldTableSize
    bytes earlier. *)
Theorem sections_in_front_not_patched σ input_file output_file d st i :
  σ !! input_file = Some d →
  valid_input d st →
  52 ≤ e_shoff_of d →
  0 ≤ i < e_shnum_of d →
  e_shoff_of d + i * e_shentsize_of d + 20 ≤ e_phoff_of d →
  sh_offset_at d i > e_phoff_of d →
  sh_offset_at d i ≠ 4294967295 →
  ∃ out,
    exec (reorder_elf input_file output_file) σ =
      (Ok true, <[output_file := out]> σ) ∧
    sh_offset_at out i = sh_offset_at d i ∧
    sh_offset_at out i ≠ sh_offset_at d i - e_phentsize_of d * e_phnum_of d ∧
    (e_phoff_of d + ph_size_of d ≤ sh_offset_at d i < len d →
     out !! Z.to_nat (sh_offset_at d i - ph_size_of d) =
       d !! Z.to_nat (sh_offset_at d i)).
Proof.
  intros Hin Hv Hsh Hi Hfront Hgt Hsent.
  exists (rebuild d (new_table d st) 2).
  split; [by apply reorder_elf_valid|].
  pose proof (valid_wf d st Hv) as Hwf.
  pose proof (get16_bounds d 46) as He. fold (e_shentsize_of d) in He.
  pose proof (two_entries d st Hv) as Htwo.
  pose proof (ph_size_32 d Hwf) as Hsz.
  assert (sh_offset_at (rebuild d (new_table d st) 2) i = sh_offset_at d i) as Hkept.
  { unfold sh_offset_at at 1.
    rewrite (out_shoff d _ 2 Hwf ltac:(lia) (len_new_table d st)
               (new_table_offsets d st Hv)).
    rewrite (out_shentsize d _ 2 Hwf ltac:(lia) (len_new_table d st)
               (new_table_offsets d st Hv)).
    unfold relocate. rewrite decide_False by nia.
    apply get32_ext; [nia|]. intros k Hk.
    apply (out_lookup_header d _ 2 Hwf ltac:(lia) (len_new_table d st)
             (new_table_offsets d st Hv)); nia. }
  split; [done|]. split.
  - rewrite Hkept. fold (ph_size_of d). lia.
  - intros Hbehind.
    replace (Z.to_nat (sh_offset_at d i - ph_size_of d))
      with (Z.to_nat (sh_offset_at d i) - Z.to_nat (ph_size_of d))%nat by lia.
    apply (out_lookup_moved d _ 2 Hwf ltac:(lia) (len_new_table d st)
             (new_table_offsets d st Hv)); [lia|].
    intros Hshgt. nia.
Qed.

Lemma sections_in_front_not_patched_witness :
  sample_fs sections_first_image !! "in.elf" = Some sections_first_image ∧
  valid_input sections_first_image (Segment 1 156 0 0 4 4 4 4) ∧
  52 ≤ e_shoff_of sections_first_image ∧
  0 ≤ 0 < e_shnum_of sections_first_image ∧
  e_shoff_of sections_first_image + 0 * e_shentsize_of sections_first_image + 20
    ≤ e_phoff_of sections_first_image ∧
  sh_offset_at sections_first_image 0 > e_phoff_of sections_first_image ∧
  sh_offset_at sections_first_image 0 ≠ 4294967295 ∧
  ∃ out,
    exec (reorder_elf "in.elf" "out.stldr") (sample_fs sections_first_image) =
      (Ok true, <["out.stldr" := out]> (sample_fs sections_first_image)) ∧
    sh_offset_at out 0 = sh_offset_at sections_first_image 0 ∧
    sh_offset_at out 0 ≠
      sh_offset_at sections_first_image 0
      - e_phentsize_of sections_first_image * e_phnum_of sections_first_image ∧
    (e_phoff_of sections_first_image + ph_size_of sections_first_image
       ≤ sh_offset_at sections_first_image 0 < len sections_first_image →
     out !! Z.to_nat (sh_offset_at sections_first_image 0
                      - ph_size_of sections_first_image) =
       sections_first_image !! Z.to_nat (sh_offset_at sections_first_image 0)).
Proof.
  assert (52 ≤ e_shoff_of sections_first_image) as Hsh
    by (vm_compute; discriminate).
  assert (0 ≤ 0 < e_shnum_of sections_first_image) as Hi
    by (vm_compute; split; [discriminate|reflexivity]).
  assert (e_shoff_of sections_first_image
          + 0 * e_shentsize_of sections_first_image + 20
          ≤ e_phoff_of sections_first_image) as Hfront
    by (vm_compute; discriminate).
  assert (sh_offset_at sections_first_image 0 > e_phoff_of sections_first_image)
    as Hgt by (vm_compute; reflexivity).
  assert (sh_offset_at sections_first_image 0 ≠ 4294967295) as Hsent
    by (vm_compute; discriminate).
  split; [reflexivity|]. split; [exact sections_first_image_valid|].
  split; [exact Hsh|]. split; [exact Hi|]. split; [exact Hfront|].
  split; [exact Hgt|]. split; [exact Hsent|].
  exact (sections_in_front_not_patched (sample_fs sections_first_image) "in.elf"
           "out.stldr" sections_first_image (Segment 1 156 0 0 4 4 4 4) 0
           eq_refl sections_first_image_valid Hsh Hi Hfront Hgt Hsent).
Defined.

(** *** The name new_shoff *)

(** X20: new_shoff is bound in the first block guarded by
    [e_shoff > e_phoff] and read only in the second block with the same
    guard: whatever the files hold, no run ends with UnboundLocalError. *)
Theorem new_shoff_never_unbound input_file output_file σ :
  match (exec (reorder_elf input_file output_file) σ).1 with
  | Raise e => e ≠ UnboundLocalError
  | Ok _ => True
  end.
Proof.
  destruct (σ !! input_file) as [d|] eqn:Hin.
  - pose proof (reorder_elf_outcome input_file output_file σ d Hin) as Hrun.
    destruct (exec (reorder_elf input_file output_file) σ) as [[b|e] σ'];
      cbn [fst]; [done|].
    intros ->. by destruct Hrun as [_ [[? _]|?]].
  - unfold exec. by rewrite (reorder_elf_missing _ _ _ Hin).
Qed.
